(** * Knowledge hub: the AI question-answering pipeline

    A shallow embedding of the generative-service client
    ([services/geminiService.ts]) and of the chat component
    ([AIQueryAgent]: [fetchSourceAttribution], [handleSendMessage]),
    with the properties of the streaming, fence-stripping, context
    assembly and attribution steps.

    Strings are JavaScript strings: finite sequences of UTF-16 code
    units, here [list N].  Literals of the source are written
    [js "..."].  The external service is a pure function of the prompt;
    React state updaters are applied in the order of their [set...]
    calls; an [async] callback is split at its [await]. *)

From Stdlib Require Import List NArith Bool Ascii String Arith Lia Setoid.
From Stdlib Require Import DecimalString.
Import ListNotations.

Set Warnings "-register-all".

Local Open Scope N_scope.
Local Open Scope list_scope.

(* ===================================================================== *)
(** ** JavaScript strings *)
(* ===================================================================== *)

Module Js.

Definition jsstring := list N.

(** The code units of an ASCII literal. *)
Definition js (s : string) : jsstring :=
  map N_of_ascii (list_ascii_of_string s).

(** One code unit, from a character literal. *)
Definition ch (c : ascii) : N := N_of_ascii c.

(** The double quote, and a text between double quotes. *)
Definition dquote : N := 34.
Definition quoted (s : jsstring) : jsstring := dquote :: s ++ [dquote].

(** [a === b] on strings. *)
Fixpoint eqb (a b : jsstring) : bool :=
  match a, b with
  | [], [] => true
  | x :: a', y :: b' => (x =? y) && eqb a' b'
  | _, _ => false
  end.

(** ECMAScript WhiteSpace and LineTerminator code units: what
    [String.prototype.trim] strips and what [\s] matches. *)
Definition isWhiteSpace (c : N) : bool :=
  (c =? 9) || (c =? 10) || (c =? 11) || (c =? 12) || (c =? 13)
  || (c =? 32) || (c =? 160) || (c =? 5760)
  || ((8192 <=? c) && (c <=? 8202))
  || (c =? 8232) || (c =? 8233) || (c =? 8239) || (c =? 8287)
  || (c =? 12288) || (c =? 65279).

Fixpoint trimStart (s : jsstring) : jsstring :=
  match s with
  | c :: r => if isWhiteSpace c then trimStart r else s
  | [] => []
  end.

Definition trimEnd (s : jsstring) : jsstring := rev (trimStart (rev s)).

(** [s.trim()] *)
Definition trim (s : jsstring) : jsstring := trimEnd (trimStart s).

(** Truthiness of a string: every string but the empty one. *)
Definition truthy (s : jsstring) : bool :=
  match s with [] => false | _ :: _ => true end.

(** Truthiness of an optional string property: [undefined] and the empty
    string
    are falsy. *)
Definition truthy_opt (o : option jsstring) : bool :=
  match o with Some s => truthy s | None => false end.

(** [a || b] on strings. *)
Definition or_else (a b : jsstring) : jsstring :=
  if truthy a then a else b.

(** [s.substring(0, n)] *)
Definition substring0 (n : nat) (s : jsstring) : jsstring := firstn n s.

(** [blocks.join(sep)] *)
Fixpoint join (sep : jsstring) (blocks : list jsstring) : jsstring :=
  match blocks with
  | [] => []
  | [b] => b
  | b :: rest => b ++ sep ++ join sep rest
  end.

(** [n.toString()] for a non-negative integer. *)
Definition toString (n : N) : jsstring :=
  js (NilEmpty.string_of_uint (N.to_uint n)).

End Js.

Import Js.

(* ===================================================================== *)
(** ** Data model *)
(* ===================================================================== *)

Module Document.
(** The fields of [Document] the pipeline reads.  [type] holds the
    run-time value of the [DocumentType] string enum. *)
Record t := mk {
  id : jsstring;
  name : jsstring;
  type : jsstring;
  tags : list jsstring;
  contentSnippet : jsstring;
  fullContent : option jsstring;
  sourceUrl : option jsstring;
  isFavorite : bool
}.
End Document.

Module Sender.
Inductive t := user | ai.
End Sender.

Module ChatMessage.
Record t := mk {
  id : jsstring;
  sender : Sender.t;
  text : jsstring;
  timestamp : N;
  isLoading : option bool;
  sources : option (list jsstring)
}.

(** [msg.isLoading] in a condition: absent and [false] are falsy. *)
Definition loading (m : t) : bool :=
  match isLoading m with Some b => b | None => false end.
End ChatMessage.

(* ===================================================================== *)
(** ** Context assembly (in [handleSendMessage]) *)
(* ===================================================================== *)

Definition NL : jsstring := [10].

(** [doc => doc.contentSnippet || doc.fullContent] as a filter predicate. *)
Definition qualifies (doc : Document.t) : bool :=
  truthy (Document.contentSnippet doc) || truthy_opt (Document.fullContent doc).

(** [doc.sourceUrl ? `\nSource URL: ${doc.sourceUrl}` : ''] *)
Definition sourceUrlLine (doc : Document.t) : jsstring :=
  match Document.sourceUrl doc with
  | Some u => if truthy u then NL ++ js "Source URL: " ++ u else []
  | None => []
  end.

(** [doc.fullContent ? `\nFull Content Hint: ${doc.fullContent.substring(0,100)}...` : ''] *)
Definition fullContentHint (doc : Document.t) : jsstring :=
  match Document.fullContent doc with
  | Some full =>
      if truthy full
      then NL ++ js "Full Content Hint: " ++ substring0 100 full ++ js "..."
      else []
  | None => []
  end.

(** The template literal mapped over the selected documents. *)
Definition renderBlock (doc : Document.t) : jsstring :=
  js "Document Name: " ++ Document.name doc
  ++ NL ++ js "Type: " ++ Document.type doc
  ++ sourceUrlLine doc
  ++ NL ++ js "Content Snippet: " ++ Document.contentSnippet doc
  ++ fullContentHint doc.

Definition blockSeparator : jsstring := NL ++ NL ++ js "---" ++ NL ++ NL.

(** The documents whose blocks make up the context:
    [documents.filter(...).slice(0, 5)]. *)
Definition selectedDocuments (documents : list Document.t) : list Document.t :=
  firstn 5 (filter qualifies documents).

(** [contextSnippets] *)
Definition contextSnippets (documents : list Document.t) : jsstring :=
  join blockSeparator (map renderBlock (selectedDocuments documents)).

Definition noDocumentsMarker : jsstring :=
  js "No documents available in the knowledge base.".

(** The text interpolated under "Knowledge Base:" in the prompt:
    [contextSnippets.length > 0 ? contextSnippets : "No documents ..."]. *)
Definition knowledgeBase (documents : list Document.t) : jsstring :=
  let c := contextSnippets documents in
  if (0 <? List.length c)%nat then c else noDocumentsMarker.

(** The grounding prompt sent to the streaming completion. *)
Definition groundingPrompt (documents : list Document.t)
    (questionToSubmit : jsstring) : jsstring :=
  js "You are a helpful AI assistant for the HEREANDNOW AI RESEARCH INSTITUTE. Your knowledge base consists of the following documents. Answer the user's question based ONLY on this information. If the answer is not found in the provided documents, state that clearly. Do not make up information. Be concise and professional."
  ++ NL ++ NL ++ js "Knowledge Base:" ++ NL
  ++ knowledgeBase documents
  ++ NL ++ NL ++ js "User Question: " ++ questionToSubmit
  ++ NL ++ NL ++ js "Answer:".

(* ===================================================================== *)
(** ** JSON values and [JSON.parse] *)
(* ===================================================================== *)

Module Json.

(** A parsed JSON value.  A number keeps its source lexeme (its
    floating-point value plays no part here); an object keeps its
    members in source order. *)
Inductive value :=
| Null
| Bool (b : bool)
| Number (lexeme : jsstring)
| Str (s : jsstring)
| Array (items : list value)
| Object (members : list (jsstring * value)).

(** JSON whitespace: space, tab, line feed, carriage return. *)
Definition isWs (c : N) : bool :=
  (c =? 32) || (c =? 9) || (c =? 10) || (c =? 13).

Fixpoint skipWs (s : jsstring) : jsstring :=
  match s with
  | c :: r => if isWs c then skipWs r else s
  | [] => []
  end.

Definition isDigit (c : N) : bool := (48 <=? c) && (c <=? 57).

Definition hexVal (c : N) : option N :=
  if isDigit c then Some (c - 48)
  else if (97 <=? c) && (c <=? 102) then Some (c - 87)
  else if (65 <=? c) && (c <=? 70) then Some (c - 55)
  else None.

Definition hex4 (a b c d : N) : option N :=
  match hexVal a, hexVal b, hexVal c, hexVal d with
  | Some x, Some y, Some z, Some w => Some (((x * 16 + y) * 16 + z) * 16 + w)
  | _, _, _, _ => None
  end.

(** The character a single-letter escape stands for. *)
Definition unescape (e : N) : option N :=
  if e =? dquote then Some (dquote)
  else if e =? ch "\" then Some (ch "\")
  else if e =? ch "/" then Some (ch "/")
  else if e =? ch "b" then Some 8
  else if e =? ch "f" then Some 12
  else if e =? ch "n" then Some 10
  else if e =? ch "r" then Some 13
  else if e =? ch "t" then Some 9
  else None.

Definition consTo (c : N) (r : option (jsstring * jsstring))
    : option (jsstring * jsstring) :=
  match r with Some (body, rest) => Some (c :: body, rest) | None => None end.

(** The body of a string literal, after its opening quote: the
    decoded code units and the input after the closing quote. *)
Fixpoint parseString (s : jsstring) : option (jsstring * jsstring) :=
  match s with
  | [] => None
  | c :: r =>
      if c =? dquote then Some ([], r)
      else if c =? ch "\" then
        match r with
        | [] => None
        | e :: r1 =>
            if e =? ch "u" then
              match r1 with
              | h1 :: h2 :: h3 :: h4 :: r2 =>
                  match hex4 h1 h2 h3 h4 with
                  | Some u => consTo u (parseString r2)
                  | None => None
                  end
              | _ => None
              end
            else
              match unescape e with
              | Some d => consTo d (parseString r1)
              | None => None
              end
        end
      else if c <? 32 then None
      else consTo c (parseString r)
  end.

Fixpoint takeDigits (s : jsstring) : jsstring * jsstring :=
  match s with
  | c :: r =>
      if isDigit c then let (ds, rest) := takeDigits r in (c :: ds, rest)
      else ([], s)
  | [] => ([], [])
  end.

(** The parts of a number lexeme, each with the input after it: an
    optional minus, an integer part without leading zero, an optional
    fraction, an optional exponent. *)
Definition takeSign (s : jsstring) : jsstring * jsstring :=
  match s with
  | c :: r => if c =? ch "-" then ([c], r) else ([], s)
  | [] => ([], s)
  end.

Definition takeInt (s : jsstring) : option (jsstring * jsstring) :=
  match s with
  | d :: r =>
      if d =? ch "0" then Some ([d], r)
      else if isDigit d then let (ds, rest) := takeDigits r in Some (d :: ds, rest)
      else None
  | [] => None
  end.

Definition takeFraction (s : jsstring) : option (jsstring * jsstring) :=
  match s with
  | c :: r =>
      if c =? ch "." then
        let (ds, rest) := takeDigits r in
        match ds with [] => None | _ :: _ => Some (c :: ds, rest) end
      else Some ([], s)
  | [] => Some ([], s)
  end.

Definition takeExponent (s : jsstring) : option (jsstring * jsstring) :=
  match s with
  | c :: r =>
      if (c =? ch "e") || (c =? ch "E") then
        let (esign, r1) :=
          match r with
          | g :: r' => if (g =? ch "+") || (g =? ch "-") then ([g], r') else ([], r)
          | [] => ([], r)
          end in
        let (ds, rest) := takeDigits r1 in
        match ds with [] => None | _ :: _ => Some (c :: esign ++ ds, rest) end
      else Some ([], s)
  | [] => Some ([], s)
  end.

(** A number: its lexeme and the input after it. *)
Definition parseNumber (s : jsstring) : option (jsstring * jsstring) :=
  let (sign, s1) := takeSign s in
  match takeInt s1 with
  | None => None
  | Some (intPart, s2) =>
      match takeFraction s2 with
      | None => None
      | Some (fracPart, s3) =>
          match takeExponent s3 with
          | None => None
          | Some (expPart, s4) => Some (sign ++ intPart ++ fracPart ++ expPart, s4)
          end
      end
  end.

(** [rest] when [s] starts with the keyword [kw]. *)
Fixpoint stripPrefix (kw s : jsstring) : option jsstring :=
  match kw, s with
  | [], _ => Some s
  | k :: kw', c :: r => if c =? k then stripPrefix kw' r else None
  | _ :: _, [] => None
  end.

(** The result of the descent: a value and the input after it, a
    syntax error, or recursion cut short by [fuel]. *)
Inductive parsed :=
| Ok (v : value) (rest : jsstring)
| Bad
| Exhausted.

(** Recursive descent over values, array elements and object members.
    [fuel] bounds the depth of the recursion; [parse] supplies twice
    the input length plus two, which is never exhausted
    ([parse_fuel_suffices]). *)
Fixpoint parseValue (fuel : nat) (s : jsstring) : parsed :=
  match fuel with
  | O => Exhausted
  | S f =>
      match skipWs s with
      | [] => Bad
      | c :: r =>
          if c =? ch "[" then
            match skipWs r with
            | c2 :: r2 =>
                if c2 =? ch "]" then Ok (Array []) r2
                else parseElements f [] r
            | [] => Bad
            end
          else if c =? ch "{" then
            match skipWs r with
            | c2 :: r2 =>
                if c2 =? ch "}" then Ok (Object []) r2
                else parseMembers f [] r
            | [] => Bad
            end
          else if c =? dquote then
            match parseString r with
            | Some (body, rest) => Ok (Str body) rest
            | None => Bad
            end
          else if c =? ch "t" then
            match stripPrefix (js "rue") r with
            | Some rest => Ok (Bool true) rest
            | None => Bad
            end
          else if c =? ch "f" then
            match stripPrefix (js "alse") r with
            | Some rest => Ok (Bool false) rest
            | None => Bad
            end
          else if c =? ch "n" then
            match stripPrefix (js "ull") r with
            | Some rest => Ok Null rest
            | None => Bad
            end
          else
            match parseNumber (c :: r) with
            | Some (lexeme, rest) => Ok (Number lexeme) rest
            | None => Bad
            end
      end
  end

with parseElements (fuel : nat) (acc : list value) (s : jsstring) : parsed :=
  match fuel with
  | O => Exhausted
  | S f =>
      match parseValue f s with
      | Ok v r =>
          match skipWs r with
          | c :: r' =>
              if c =? ch "," then parseElements f (v :: acc) r'
              else if c =? ch "]" then Ok (Array (rev (v :: acc))) r'
              else Bad
          | [] => Bad
          end
      | Bad => Bad
      | Exhausted => Exhausted
      end
  end

with parseMembers (fuel : nat) (acc : list (jsstring * value)) (s : jsstring)
    : parsed :=
  match fuel with
  | O => Exhausted
  | S f =>
      match skipWs s with
      | q :: r0 =>
          if q =? dquote then
            match parseString r0 with
            | Some (key, r1) =>
                match skipWs r1 with
                | colon :: r2 =>
                    if colon =? ch ":" then
                      match parseValue f r2 with
                      | Ok v r3 =>
                          match skipWs r3 with
                          | c :: r' =>
                              if c =? ch "," then parseMembers f ((key, v) :: acc) r'
                              else if c =? ch "}"
                              then Ok (Object (rev ((key, v) :: acc))) r'
                              else Bad
                          | [] => Bad
                          end
                      | Bad => Bad
                      | Exhausted => Exhausted
                      end
                    else Bad
                | [] => Bad
                end
            | None => Bad
            end
          else Bad
      | [] => Bad
      end
  end.

Definition parseFuel (text : jsstring) : nat := 2 * List.length text + 2.

(** [JSON.parse(text)]: the value, or [None] where it throws a
    [SyntaxError]. *)
Definition parse (text : jsstring) : option value :=
  match parseValue (parseFuel text) text with
  | Ok v rest =>
      match skipWs rest with
      | [] => Some v
      | _ :: _ => None
      end
  | Bad => None
  | Exhausted => None
  end.

(** [Array.isArray(v)] *)
Definition isArray (v : value) : bool :=
  match v with Array _ => true | _ => false end.

(** [typeof v === 'string'] *)
Definition isString (v : value) : bool :=
  match v with Str _ => true | _ => false end.

End Json.


(* ===================================================================== *)
(** ** The generative-service client ([services/geminiService.ts]) *)
(* ===================================================================== *)

(** Values thrown and caught.  An [Error] carries its message and, when
    the transport attached one, the text of a response
    ([error.response.text]); a [SyntaxError] is what [JSON.parse] throws
    on the given input (its message is the engine's). *)
Inductive JsError :=
| Error (message : jsstring) (responseText : option jsstring)
| SyntaxError (input : jsstring).

(** What a call to [ai.models.generateContent] settles to. *)
Inductive ContentReply :=
| ContentResponse (text : jsstring)
| ContentRejected (cause : JsError).

(** What the asynchronous iterator of a stream yields at one step. *)
Inductive StreamItem :=
| StreamChunk (text : jsstring)
| StreamBroken (cause : JsError).

(** What a call to [ai.models.generateContentStream] settles to: a
    rejection, or an iterator; the iterator is done when its items are
    exhausted. *)
Inductive StreamReply :=
| StreamRejected (cause : JsError)
| StreamOpened (items : list StreamItem).

(** The external service behind [ai.models], as a function of the
    prompt. *)
Record GoogleGenAI := {
  generateContent : jsstring -> ContentReply;
  generateContentStream : jsstring -> StreamReply
}.

(** [const ai = API_KEY ? new GoogleGenAI(...) : null] is an
    [option GoogleGenAI]; [isAIServiceAvailable] is [!!ai]. *)
Definition isAIServiceAvailable (ai : option GoogleGenAI) : bool :=
  match ai with Some _ => true | None => false end.

Module Fence.

(** [\w] without the [i] and [u] flags. *)
Definition isWordChar (c : N) : bool :=
  ((97 <=? c) && (c <=? 122)) || ((65 <=? c) && (c <=? 90))
  || ((48 <=? c) && (c <=? 57)) || (c =? 95).

(** [.] under the [s] flag. *)
Definition anyChar (_ : N) : bool := true.

(** The captures of [fenceRegex]. *)
Record groups := mkGroups {
  group1 : option jsstring;
  group2 : jsstring
}.

(** Backtracking matchers in continuation-passing style: a matcher
    hands what it consumed and the remaining input to its continuation
    and, when the continuation fails, tries its next alternative. *)
Section Backtracking.
Context {R : Type}.

(** [p*], longest first. *)
Fixpoint greedyStar (p : N -> bool) (s : jsstring)
    (k : jsstring -> jsstring -> option R) : option R :=
  match s with
  | c :: r =>
      if p c then
        match greedyStar p r (fun m rest => k (c :: m) rest) with
        | Some x => Some x
        | None => k [] s
        end
      else k [] s
  | [] => k [] s
  end.

(** [p*?], shortest first. *)
Fixpoint lazyStar (p : N -> bool) (s : jsstring)
    (k : jsstring -> jsstring -> option R) : option R :=
  match k [] s with
  | Some x => Some x
  | None =>
      match s with
      | c :: r => if p c then lazyStar p r (fun m rest => k (c :: m) rest) else None
      | [] => None
      end
  end.

(** [c?], greedy. *)
Definition optChar (c0 : N) (s : jsstring) (k : jsstring -> option R) : option R :=
  match s with
  | c :: r =>
      if c =? c0 then
        match k r with
        | Some x => Some x
        | None => k s
        end
      else k s
  | [] => k s
  end.

(** A literal. *)
Definition lit (l : jsstring) (s : jsstring) (k : jsstring -> option R) : option R :=
  match Json.stripPrefix l s with
  | Some rest => k rest
  | None => None
  end.

(** The optional first group, a greedy run of word characters: the
    group is tried first, an iteration that consumed nothing is
    rejected, and the group is then skipped with its capture
    undefined. *)
Definition optWordGroup (s : jsstring)
    (k : option jsstring -> jsstring -> option R) : option R :=
  match greedyStar isWordChar s
          (fun m rest => match m with [] => None | _ :: _ => k (Some m) rest end) with
  | Some x => Some x
  | None => k None s
  end.

End Backtracking.

Definition backticks : jsstring := js "```".

(** [jsonStr.match(fenceRegex)].  The pattern reads, in order: start
    of input, three backticks, the optional word group (capture 1),
    greedy whitespace, an optional line feed, a lazy run of any
    characters (capture 2, flag [s]), an optional line feed, greedy
    whitespace, three backticks, end of input.  It is anchored at the
    start, so only index 0 is tried. *)
Definition matchFence (jsonStr : jsstring) : option groups :=
  lit backticks jsonStr (fun s1 =>
  optWordGroup s1 (fun g1 s2 =>
  greedyStar isWhiteSpace s2 (fun _ s3 =>
  optChar 10 s3 (fun s4 =>
  lazyStar anyChar s4 (fun g2 s5 =>
  optChar 10 s5 (fun s6 =>
  greedyStar isWhiteSpace s6 (fun _ s7 =>
  lit backticks s7 (fun s8 =>
  match s8 with
  | [] => Some (mkGroups g1 g2)
  | _ :: _ => None
  end)))))))).

End Fence.

(** The outcome of an asynchronous function: its promise fulfils with a
    value or rejects with what was thrown. *)
Inductive Outcome (A E : Type) :=
| Returned (a : A)
| Threw (e : E).
Arguments Returned {A E} a.
Arguments Threw {A E} e.

(** The error [generateJson] throws from its [catch]: its message is the
    template with these two interpolations,
    [(error as any)?.response?.text || 'N/A'] and the caught error (whose
    message is shown). *)
Record GenerateJsonError := mkGenerateJsonError {
  rawTextIfAvailable : jsstring;
  originalError : JsError
}.

Definition notAvailable : jsstring := js "N/A".

(** [(error as any)?.response?.text || 'N/A'] *)
Definition rawTextOf (error : JsError) : jsstring :=
  match error with
  | Error _ (Some t) => or_else t notAvailable
  | Error _ None => notAvailable
  | SyntaxError _ => notAvailable
  end.

(** The [catch] block of [generateJson]. *)
Definition rethrow (error : JsError) : Outcome Json.value GenerateJsonError :=
  Threw (mkGenerateJsonError (rawTextOf error) error).

Definition emptyJsonError : JsError :=
  Error (js "Received empty JSON string from AI.") None.

(** The string handed to [JSON.parse]: the trimmed response text, or the
    trimmed second capture when the fence pattern matches with a
    non-empty second capture. *)
Definition payloadOf (responseText : jsstring) : jsstring :=
  let jsonStr := trim responseText in
  match Fence.matchFence jsonStr with
  | Some m => if truthy (Fence.group2 m) then trim (Fence.group2 m) else jsonStr
  | None => jsonStr
  end.

(** The body of the [try] block after the response has arrived. *)
Definition parseResponse (responseText : jsstring)
    : Outcome Json.value GenerateJsonError :=
  let jsonStr := payloadOf responseText in
  if negb (truthy jsonStr) then rethrow emptyJsonError
  else
    match Json.parse jsonStr with
    | Some v => Returned v
    | None => rethrow (SyntaxError jsonStr)
    end.

(** [generateJson(prompt)]: without a service it returns [null]. *)
Definition generateJson (ai : option GoogleGenAI) (prompt : jsstring)
    : Outcome Json.value GenerateJsonError :=
  match ai with
  | None => Returned Json.Null
  | Some service =>
      match generateContent service prompt with
      | ContentResponse text => parseResponse text
      | ContentRejected cause => rethrow cause
      end
  end.

Definition unavailableError : JsError :=
  Error (js "AI service is unavailable (API key missing).") None.

(** [generateTextStream(prompt, onChunk, onError, onComplete)], over any
    state the callbacks act on.  [request] is the effect of calling
    [ai.models.generateContentStream]; [suspend] is the effect of an
    [await] (control returns to the event loop).  The callbacks return
    normally, as those of the component do; the promise an [async]
    callback returns is not awaited. *)
Section GenerateTextStream.
Context {St : Type}.
Variable onChunk : jsstring -> St -> St.
Variable onError : JsError -> St -> St.
Variable onComplete : St -> St.
Variable request : jsstring -> St -> St.
Variable suspend : St -> St.

(** [for await (const chunk of responseStream) onChunk(chunk.text)]:
    the state when the loop is left, and what it threw, if anything. *)
Fixpoint forAwait (items : list StreamItem) (st : St) : St * option JsError :=
  match items with
  | [] => (suspend st, None)
  | StreamChunk text :: rest => forAwait rest (onChunk text (suspend st))
  | StreamBroken cause :: _ => (suspend st, Some cause)
  end.

Definition generateTextStream (ai : option GoogleGenAI) (prompt : jsstring)
    (st : St) : St :=
  match ai with
  | None => onComplete (onError unavailableError st)
  | Some service =>
      let st1 := suspend (request prompt st) in
      match generateContentStream service prompt with
      | StreamRejected cause => onComplete (onError cause st1)
      | StreamOpened items =>
          match forAwait items st1 with
          | (st2, Some cause) => onComplete (onError cause st2)
          | (st2, None) => onComplete st2
          end
      end
  end.

End GenerateTextStream.

(** The calls a run of [generateTextStream] makes, in order. *)
Inductive Call :=
| CallRequest (prompt : jsstring)
| CallAwait
| CallOnChunk (text : jsstring)
| CallOnError (cause : JsError)
| CallOnComplete.

(** [generateTextStream] with callbacks that record their invocation. *)
Definition streamCalls (ai : option GoogleGenAI) (prompt : jsstring) : list Call :=
  generateTextStream
    (fun text log => log ++ [CallOnChunk text])
    (fun cause log => log ++ [CallOnError cause])
    (fun log => log ++ [CallOnComplete])
    (fun p log => log ++ [CallRequest p])
    (fun log => log ++ [CallAwait])
    ai prompt [].

Definition isOnComplete (c : Call) : bool :=
  match c with CallOnComplete => true | _ => false end.
Definition isOnError (c : Call) : bool :=
  match c with CallOnError _ => true | _ => false end.
Definition isOnChunk (c : Call) : bool :=
  match c with CallOnChunk _ => true | _ => false end.
Definition isCallback (c : Call) : bool :=
  isOnComplete c || isOnError c || isOnChunk c.

(** The texts an iteration over [items] delivers: those before the
    first break. *)
Fixpoint deliveredChunks (items : list StreamItem) : list jsstring :=
  match items with
  | StreamChunk text :: rest => text :: deliveredChunks rest
  | _ => []
  end.

(** The cause an iteration over [items] throws, if it throws. *)
Fixpoint streamFailure (items : list StreamItem) : option JsError :=
  match items with
  | StreamChunk _ :: rest => streamFailure rest
  | StreamBroken cause :: _ => Some cause
  | [] => None
  end.

(** The calls of the [for await] loop over [items]. *)
Fixpoint iterationCalls (items : list StreamItem) : list Call :=
  match items with
  | StreamChunk text :: rest => CallAwait :: CallOnChunk text :: iterationCalls rest
  | _ => [CallAwait]
  end.

(** How a stream ends for the caller: the failure of the request or of
    the iteration, if any. *)
Definition transportFailure (reply : StreamReply) : option JsError :=
  match reply with
  | StreamRejected cause => Some cause
  | StreamOpened items => streamFailure items
  end.

(** The chunk texts a reply delivers to [onChunk]. *)
Definition deliveredTexts (reply : StreamReply) : list jsstring :=
  match reply with
  | StreamRejected _ => []
  | StreamOpened items => deliveredChunks items
  end.

(* ===================================================================== *)
(** ** The chat component ([AIQueryAgent]) *)
(* ===================================================================== *)

(** What the component does to the outside, in order. *)
Inductive Effect :=
| Alert (message : jsstring)
| RecognitionStop
| StreamRequest (prompt : jsstring)
| JsonRequest (prompt : jsstring).

(** The React state of the component, the [let accumulatedAnswer] of the
    submission in flight, and the effects so far.  State updaters are
    applied in the order of the [set...] calls. *)
Record World := mkWorld {
  chatHistory : list ChatMessage.t;
  currentQuestion : jsstring;
  isLoading : bool;
  isRecording : bool;
  speechRecognitionRef : bool;
  accumulatedAnswer : jsstring;
  effects : list Effect
}.

Definition setChatHistory (f : list ChatMessage.t -> list ChatMessage.t)
    (w : World) : World :=
  mkWorld (f (chatHistory w)) (currentQuestion w) (isLoading w) (isRecording w)
          (speechRecognitionRef w) (accumulatedAnswer w) (effects w).

Definition setCurrentQuestion (q : jsstring) (w : World) : World :=
  mkWorld (chatHistory w) q (isLoading w) (isRecording w)
          (speechRecognitionRef w) (accumulatedAnswer w) (effects w).

Definition setIsLoading (b : bool) (w : World) : World :=
  mkWorld (chatHistory w) (currentQuestion w) b (isRecording w)
          (speechRecognitionRef w) (accumulatedAnswer w) (effects w).

Definition setAccumulatedAnswer (a : jsstring) (w : World) : World :=
  mkWorld (chatHistory w) (currentQuestion w) (isLoading w) (isRecording w)
          (speechRecognitionRef w) a (effects w).

Definition perform (es : list Effect) (w : World) : World :=
  mkWorld (chatHistory w) (currentQuestion w) (isLoading w) (isRecording w)
          (speechRecognitionRef w) (accumulatedAnswer w) (effects w ++ es).

(** *** [fetchSourceAttribution] *)

Definition attributionPrompt (userQuery context aiAnswer : jsstring) : jsstring :=
  js "Given the User Question, the Context from documents, and the AI's Answer, list the names of the original documents from the Context that were most relevant for generating this answer. Only list document names that appear in the provided context. If no specific documents were clearly primary sources, respond with an empty list."
  ++ NL ++ NL ++ js "User Question: " ++ quoted userQuery
  ++ NL ++ NL ++ js "Context Used:" ++ NL ++ js "---" ++ NL ++ context ++ NL ++ js "---"
  ++ NL ++ NL ++ js "AI Answer: " ++ quoted aiAnswer
  ++ NL ++ NL ++ js "Relevant Document Names (as a JSON array of strings, e.g., ["
  ++ quoted (js "doc1.pdf") ++ js ", " ++ quoted (js "policy_update.docx") ++ js "]):".

(** The string held by an entry that passed [typeof name === 'string']. *)
Definition asString (v : Json.value) : jsstring :=
  match v with Json.Str s => s | _ => [] end.

(** [result.filter(name => typeof name === 'string')] *)
Definition stringEntries (items : list Json.value) : list jsstring :=
  map asString (filter Json.isString items).

(** What [fetchSourceAttribution] returns for an outcome of
    [generateJson]: the filtered array when [result && Array.isArray(result)]
    holds (a falsy result is never an array), [undefined] otherwise and
    when the call threw. *)
Definition sourcesOf (result : Outcome Json.value GenerateJsonError)
    : option (list jsstring) :=
  match result with
  | Returned (Json.Array items) => Some (stringEntries items)
  | Returned _ => None
  | Threw _ => None
  end.

(** The requests a call of [generateJson] issues. *)
Definition generateJsonRequests (ai : option GoogleGenAI) (prompt : jsstring)
    : list Effect :=
  match ai with Some _ => [JsonRequest prompt] | None => [] end.

(** [fetchSourceAttribution(userQuery, context, aiAnswer)]: what its
    promise fulfils with, and the requests it issued. *)
Definition fetchSourceAttribution (ai : option GoogleGenAI)
    (userQuery context aiAnswer : jsstring)
    : option (list jsstring) * list Effect :=
  if negb (truthy (trim aiAnswer)) || negb (isAIServiceAvailable ai)
  then (None, [])
  else
    let prompt := attributionPrompt userQuery context aiAnswer in
    (sourcesOf (generateJson ai prompt), generateJsonRequests ai prompt).

(** *** [handleSendMessage] *)

(** The readings of the clock during one call, in call order:
    [Date.now()] for the three identifiers and [new Date()] for the two
    timestamps. *)
Record Clock := mkClock {
  nowUser : N;
  dateUser : N;
  nowLoading : N;
  dateAi : N;
  nowFinal : N
}.

(** The constants the callbacks of one submission close over. *)
Record Submission := mkSubmission {
  loadingAiMessageId : jsstring;
  finalAiMessageId : jsstring;
  questionToSubmit : jsstring;
  context : jsstring
}.

(** [msg.id === loadingAiMessageId && msg.isLoading] *)
Definition isLoadingEntry (loadingId : jsstring) (msg : ChatMessage.t) : bool :=
  eqb (ChatMessage.id msg) loadingId && ChatMessage.loading msg.

Definition userMessage (clock : Clock) (query : jsstring) : ChatMessage.t :=
  ChatMessage.mk (toString (nowUser clock) ++ js "_user") Sender.user query
                 (dateUser clock) None None.

Definition loadingMessage (loadingId : jsstring) (date : N) : ChatMessage.t :=
  ChatMessage.mk loadingId Sender.ai [] date (Some true) None.

(** [prev => [...prev, userMessage, { ...loading entry... }]] *)
Definition appendTurn (userMsg : ChatMessage.t) (loadingId : jsstring) (date : N)
    (prev : list ChatMessage.t) : list ChatMessage.t :=
  prev ++ [userMsg; loadingMessage loadingId date].

(** The updater of [onChunk]: [{ ...msg, text: accumulatedAnswer }]. *)
Definition chunkUpdate (loadingId acc : jsstring)
    (prev : list ChatMessage.t) : list ChatMessage.t :=
  map (fun msg =>
         if isLoadingEntry loadingId msg
         then ChatMessage.mk (ChatMessage.id msg) (ChatMessage.sender msg) acc
                (ChatMessage.timestamp msg) (ChatMessage.isLoading msg)
                (ChatMessage.sources msg)
         else msg) prev.

Definition streamErrorText : jsstring :=
  js "Sorry, an error occurred while generating the answer.".

(** The updater of [onError]. *)
Definition errorUpdate (loadingId finalId : jsstring)
    (prev : list ChatMessage.t) : list ChatMessage.t :=
  map (fun msg =>
         if isLoadingEntry loadingId msg
         then ChatMessage.mk finalId (ChatMessage.sender msg) streamErrorText
                (ChatMessage.timestamp msg) (Some false) (ChatMessage.sources msg)
         else msg) prev.

Definition noFurtherResponse : jsstring := js "No further response.".

(** The updater of [onComplete]. *)
Definition completeUpdate (loadingId finalId acc : jsstring)
    (sources : option (list jsstring))
    (prev : list ChatMessage.t) : list ChatMessage.t :=
  map (fun msg =>
         if isLoadingEntry loadingId msg
         then ChatMessage.mk finalId (ChatMessage.sender msg)
                (or_else acc noFurtherResponse)
                (ChatMessage.timestamp msg) (Some false) sources
         else msg) prev.

Definition onChunk (sub : Submission) (chunk : jsstring) (w : World) : World :=
  let acc := accumulatedAnswer w ++ chunk in
  setChatHistory (chunkUpdate (loadingAiMessageId sub) acc)
    (setAccumulatedAnswer acc w).

Definition onError (sub : Submission) (error : JsError) (w : World) : World :=
  setIsLoading false
    (setChatHistory (errorUpdate (loadingAiMessageId sub) (finalAiMessageId sub)) w).

(** [onComplete] up to its [await]: [fetchSourceAttribution] has been
    called and has issued its request, if any. *)
Definition onComplete_call (ai : option GoogleGenAI) (sub : Submission)
    (w : World) : World :=
  perform (snd (fetchSourceAttribution ai (questionToSubmit sub) (context sub)
                  (accumulatedAnswer w))) w.

(** [onComplete] from its [await] on: the attribution has settled. *)
Definition onComplete_resume (ai : option GoogleGenAI) (sub : Submission)
    (w : World) : World :=
  let sources := fst (fetchSourceAttribution ai (questionToSubmit sub) (context sub)
                        (accumulatedAnswer w)) in
  setIsLoading false
    (setChatHistory
       (completeUpdate (loadingAiMessageId sub) (finalAiMessageId sub)
          (accumulatedAnswer w) sources) w).

Definition unavailableAlert : jsstring :=
  js "AI Service is not available. Please check API key configuration.".

(** [message || currentQuestion] *)
Definition queryOf (message : option jsstring) (w : World) : jsstring :=
  match message with
  | Some m => or_else m (currentQuestion w)
  | None => currentQuestion w
  end.

(** [if (speechRecognitionRef.current && isRecording) speechRecognitionRef.current.stop()] *)
Definition stopEffects (w : World) : list Effect :=
  if speechRecognitionRef w && isRecording w then [RecognitionStop] else [].

(** The identifiers, question and context of the submission of [query]. *)
Definition submissionOf (documents : list Document.t) (clock : Clock)
    (query : jsstring) : Submission :=
  mkSubmission (toString (nowLoading clock) ++ js "_ai_loading")
               (toString (nowFinal clock) ++ js "_ai_final")
               query
               (contextSnippets documents).

(** [handleSendMessage] up to the call of [generateTextStream]: the
    state, and the submission when one is started. *)
Definition submit (ai : option GoogleGenAI) (documents : list Document.t)
    (clock : Clock) (message : option jsstring) (w : World)
    : World * option Submission :=
  let query := queryOf message w in
  let w1 := perform (stopEffects w) w in
  if negb (truthy (trim query)) then (w1, None)
  else if negb (isAIServiceAvailable ai)
  then (perform [Alert unavailableAlert] w1, None)
  else
    let sub := submissionOf documents clock query in
    let w2 := setChatHistory
                (appendTurn (userMessage clock query) (loadingAiMessageId sub)
                   (dateAi clock)) w1 in
    let w3 := if negb (truthy_opt message) then setCurrentQuestion [] w2 else w2 in
    let w4 := setIsLoading true w3 in
    (setAccumulatedAnswer [] w4, Some sub).

(** The stream of a submission, run to the point where the completion
    callback is suspended on the attribution. *)
Definition runStream (ai : option GoogleGenAI) (documents : list Document.t)
    (sub : Submission) (w : World) : World :=
  generateTextStream (onChunk sub) (onError sub) (onComplete_call ai sub)
    (fun prompt => perform [StreamRequest prompt]) (fun st => st)
    ai (groundingPrompt documents (questionToSubmit sub)) w.

(** [handleSendMessage(message)] and the stream it starts, up to the
    last suspension: the completion callback awaits the attribution. *)
Definition handleSendMessage (ai : option GoogleGenAI) (documents : list Document.t)
    (clock : Clock) (message : option jsstring) (w : World) : World :=
  match submit ai documents clock message w with
  | (w', Some sub) => runStream ai documents sub w'
  | (w', None) => w'
  end.

(** The state once the completion callback has run to its end. *)
Definition handleSendMessage_settled (ai : option GoogleGenAI)
    (documents : list Document.t) (clock : Clock) (message : option jsstring)
    (w : World) : World :=
  match submit ai documents clock message w with
  | (w', Some sub) => onComplete_resume ai sub (runStream ai documents sub w')
  | (w', None) => w'
  end.

(** The state of the component when it mounts. *)
Definition initialWorld : World := mkWorld [] [] false false false [] [].

(** *** The transcript as a transition system *)

(** One [setChatHistory] call of the component, for any values of the
    variables its updater closes over. *)
Inductive TranscriptStep : list ChatMessage.t -> list ChatMessage.t -> Prop :=
| StepSubmit clock query loadingId date h :
    TranscriptStep h (appendTurn (userMessage clock query) loadingId date h)
| StepChunk loadingId acc h :
    TranscriptStep h (chunkUpdate loadingId acc h)
| StepError loadingId finalId h :
    TranscriptStep h (errorUpdate loadingId finalId h)
| StepComplete loadingId finalId acc sources h :
    TranscriptStep h (completeUpdate loadingId finalId acc sources h).

(** The transcripts the component can hold, from the empty one. *)
Inductive Reachable : list ChatMessage.t -> Prop :=
| ReachInit : Reachable []
| ReachStep h h' : Reachable h -> TranscriptStep h h' -> Reachable h'.

(** *** Vocabulary of the properties *)

(** The last transcript entry: the AI entry of the latest submission. *)
Definition lastEntry (w : World) : option ChatMessage.t :=
  nth_error (chatHistory w) (List.length (chatHistory w) - 1).

(** The answer a reply accumulates: its delivered chunks, concatenated. *)
Definition answerOf (reply : StreamReply) : jsstring :=
  List.concat (deliveredTexts reply).

(** The transcript ends with the user entry [u] and the AI entry [e] of
    the latest submission. *)
Definition endsWith (u e : ChatMessage.t) (w : World) : Prop :=
  exists older, chatHistory w = older ++ [u; e].

(** The AI entry of a submission while it streams: loading, showing the
    accumulated answer. *)
Definition streamingEntry (sub : Submission) (date : N) (acc : jsstring)
    : ChatMessage.t :=
  ChatMessage.mk (loadingAiMessageId sub) Sender.ai acc date (Some true) None.

(** The AI entry of a submission once its stream completed: final, with
    the answer (or the fallback text) and the attributed sources. *)
Definition answeredEntry (sub : Submission) (date : N) (acc : jsstring)
    (sources : option (list jsstring)) : ChatMessage.t :=
  ChatMessage.mk (finalAiMessageId sub) Sender.ai (or_else acc noFurtherResponse)
                 date (Some false) sources.

(** The AI entry of a submission whose stream failed. *)
Definition failedEntry (sub : Submission) (date : N) : ChatMessage.t :=
  ChatMessage.mk (finalAiMessageId sub) Sender.ai streamErrorText date
                 (Some false) None.

(** A payload as a well-formed fence holds it: not empty, with no
    whitespace at either end. *)
Definition isTrimmed (s : jsstring) : bool :=
  match s with
  | [] => false
  | c :: _ => negb (isWhiteSpace c) && negb (isWhiteSpace (last s c))
  end.

(** A well-formed fence around [payload]: the opening backticks, an
    optional language tag, the rest of the tag line, the payload, then
    the closing backticks on their own line or right after the payload. *)
Definition fenced (tag lineEnd payload beforeClose : jsstring) : jsstring :=
  Fence.backticks ++ tag ++ lineEnd ++ payload ++ beforeClose ++ Fence.backticks.

(** A message that carries a sources list is not loading. *)
Definition sourcesImplyFinal (m : ChatMessage.t) : Prop :=
  ChatMessage.sources m <> None -> ChatMessage.isLoading m = Some false.

(** One use of the chat input: the text typed, then a submission (by the
    send button or Enter when [direct] is [None], by a suggested prompt
    otherwise), followed to its end. *)
Record Use := mkUse {
  typed : jsstring;
  direct : option jsstring;
  clockOf : Clock
}.

Definition useChat (ai : option GoogleGenAI) (documents : list Document.t)
    (w : World) (u : Use) : World :=
  handleSendMessage_settled ai documents (clockOf u) (direct u)
    (setCurrentQuestion (typed u) w).

(** A session: uses of the chat one after the other. *)
Definition session (ai : option GoogleGenAI) (documents : list Document.t)
    (uses : list Use) (w : World) : World :=
  fold_left (useChat ai documents) uses w.

(** *** The claims on the order of finalization and attribution, and on
    the final text, as the specification words them *)

(** Whenever the attribution request of a turn has been issued, the AI
    entry of the turn is already final and shows the accumulated
    answer. *)
Definition finalizedBeforeAttribution (ai : option GoogleGenAI)
    (documents : list Document.t) (clock : Clock) (message : option jsstring)
    (w : World) : Prop :=
  let w' := handleSendMessage ai documents clock message w in
  forall prompt,
    In (JsonRequest prompt) (effects w') ->
    exists m, lastEntry w' = Some m
              /\ ChatMessage.isLoading m = Some false
              /\ ChatMessage.text m = accumulatedAnswer w'.

(** After the delivery of [chunks] the text of the AI entry is their
    concatenation. *)
Definition finalTextIsConcatenation (ai : option GoogleGenAI)
    (documents : list Document.t) (clock : Clock) (message : option jsstring)
    (w : World) (chunks : list jsstring) : Prop :=
  exists m, lastEntry (handleSendMessage_settled ai documents clock message w) = Some m
            /\ ChatMessage.text m = List.concat chunks.

(** *** Scenarios *)

(** A service that streams [items] and answers every structured request
    with [jsonText]. *)
Definition scriptedService (items : list StreamItem) (jsonText : jsstring)
    : GoogleGenAI :=
  {| generateContent := fun _ => ContentResponse jsonText;
     generateContentStream := fun _ => StreamOpened items |}.

Definition policyDocument : Document.t :=
  Document.mk (js "1") (js "policy.pdf") (js "PDF") [js "policy"]
              (js "Remote work rules") (Some (js "Full policy text...")) None false.

Definition policyQuestion : jsstring := js "What is the remote work policy?".

Definition policyChunks : list jsstring :=
  [js "Per "; js "policy.pdf, "; js "remote work is allowed 3 days/week."].

Definition policyService : GoogleGenAI :=
  scriptedService (map StreamChunk policyChunks) (js "[" ++ quoted (js "policy.pdf") ++ js "]").

(** The stream breaks after the first two chunks. *)
Definition brokenService : GoogleGenAI :=
  scriptedService
    [StreamChunk (js "Per "); StreamChunk (js "policy.pdf, ");
     StreamBroken (Error (js "network error") None)]
    (js "[" ++ quoted (js "policy.pdf") ++ js "]").

(** The stream ends without a non-empty chunk. *)
Definition silentService : GoogleGenAI :=
  scriptedService [StreamChunk []] (js "[]").

(** Raw response texts of the structured completion. *)
Definition fencedAB : jsstring :=
  js "```json" ++ NL
  ++ js "[" ++ quoted (js "a") ++ js "," ++ quoted (js "b") ++ js "]"
  ++ NL ++ js "```".

(** A fence around nothing. *)
Definition emptyFence : jsstring := js "```json" ++ NL ++ js "```".

Definition mixedAttribution : jsstring :=
  js "[" ++ quoted (js "doc1.pdf") ++ js ", 42, null, "
  ++ quoted (js "report.docx") ++ js "]".

Definition sampleClock : Clock :=
  mkClock 1700000000000 1700000000000 1700000000000 1700000000001 1700000000002.

(* ===================================================================== *)
(** ** Voice input ([AIQueryAgent], the recognition handlers) *)
(* ===================================================================== *)

(** One entry of [event.results]: its [isFinal] flag and the transcript
    of its first alternative. *)
Record SpeechResult := mkSpeechResult {
  isFinal : bool;
  transcript : jsstring
}.

(** The loop of [onresult]: [finalTranscript] after the results from
    [event.resultIndex] on have been visited. *)
Definition finalTranscriptOf (resultIndex : nat) (results : list SpeechResult)
    : jsstring :=
  fold_left (fun finalTranscript r =>
               if isFinal r then finalTranscript ++ transcript r else finalTranscript)
            (skipn resultIndex results) [].

(** The updater of [onresult]:
    [prev => (prev.trim() ? prev + ' ' : '') + finalTranscript.trim()]. *)
Definition dictate (finalTranscript prev : jsstring) : jsstring :=
  (if truthy (trim prev) then prev ++ js " " else []) ++ trim finalTranscript.

(** [recognitionInstance.onresult] *)
Definition onresult (resultIndex : nat) (results : list SpeechResult)
    (w : World) : World :=
  let finalTranscript := finalTranscriptOf resultIndex results in
  if truthy finalTranscript
  then setCurrentQuestion (dictate finalTranscript (currentQuestion w)) w
  else w.

(** The send button is enabled for a question: the service is available,
    no turn is loading and the question is not blank. *)
Definition canSend (ai : option GoogleGenAI) (w : World) : bool :=
  isAIServiceAvailable ai && negb (isLoading w)
  && truthy (trim (currentQuestion w)).

(* ===================================================================== *)
(** ** The transcript over several steps *)
(* ===================================================================== *)

(** Any number of [setChatHistory] calls, one after the other. *)
Inductive TranscriptSteps : list ChatMessage.t -> list ChatMessage.t -> Prop :=
| StepsRefl h : TranscriptSteps h h
| StepsNext h h' h'' :
    TranscriptSteps h h' -> TranscriptStep h' h'' -> TranscriptSteps h h''.

(** The query a use of the chat submits: [message || currentQuestion]
    with the typed text as the current question. *)
Definition queryOfUse (u : Use) : jsstring :=
  match direct u with
  | Some m => or_else m (typed u)
  | None => typed u
  end.

(** The use submits a non-blank query. *)
Definition startsTurn (u : Use) : bool := truthy (trim (queryOfUse u)).

(* ===================================================================== *)
(** ** The document form ([DocumentManager]) and the repository ([App]) *)
(* ===================================================================== *)

Module Text.

(** [s.split(sep)] for a separator of one code unit. *)
Fixpoint split (sep : N) (s : jsstring) : list jsstring :=
  match s with
  | [] => [[]]
  | c :: r =>
      if c =? sep then [] :: split sep r
      else
        match split sep r with
        | piece :: pieces => (c :: piece) :: pieces
        | [] => [[c]]
        end
  end.

End Text.

Definition comma : N := 44.

(** [formState.tags.split(',').map(tag => tag.trim()).filter(tag => tag)]
    in [handleSubmit]. *)
Definition parseTags (tags : jsstring) : list jsstring :=
  filter truthy (map trim (Text.split comma tags)).

(** [DocumentFormState] *)
Record FormState := mkFormState {
  formName : jsstring;
  formType : jsstring;
  formTags : jsstring;
  formContentSnippet : jsstring;
  formFullContent : option jsstring;
  formSourceUrl : option jsstring
}.

Definition setFormTags (tags : jsstring) (f : FormState) : FormState :=
  mkFormState (formName f) (formType f) tags (formContentSnippet f)
              (formFullContent f) (formSourceUrl f).

(** The text [Array.prototype.join] and a template literal give for an
    element of a parsed array: [null] gives the empty text in a join, a
    nested array its own join with a comma, an object the fixed text.
    [numberText] is the platform's text of a number. *)
Section ElementText.
Variable numberText : jsstring -> jsstring.

Fixpoint elementText (v : Json.value) : jsstring :=
  match v with
  | Json.Null => []
  | Json.Bool true => js "true"
  | Json.Bool false => js "false"
  | Json.Number lexeme => numberText lexeme
  | Json.Str s => s
  | Json.Array items => join [comma] (map elementText items)
  | Json.Object _ => js "[object Object]"
  end.

(** [result.join(', ')] *)
Definition joinTags (items : list Json.value) : jsstring :=
  join (js ", ") (map elementText items).

End ElementText.

(** What [handleSuggestTags] shows with [alert]. *)
Inductive Notice :=
| NoticeText (text : jsstring)
| NoticeError (prefix : jsstring) (error : GenerateJsonError).

(** The part of the state of [DocumentManager] that [handleSuggestTags]
    and [handleSubmit] touch, with the alerts and requests so far. *)
Record Manager := mkManager {
  formState : FormState;
  isSuggestingTags : bool;
  isUploadModalOpen : bool;
  notices : list Notice;
  tagRequests : list jsstring
}.

Definition suggestTagsPrompt (fullContent : jsstring) : jsstring :=
  js "Analyze the following document content and suggest 3-5 relevant keyword tags. Return the tags as a JSON array of strings (e.g., ["
  ++ quoted (js "tag1") ++ js ", " ++ quoted (js "tag2") ++ js ", "
  ++ quoted (js "tag3") ++ js "]). Content:"
  ++ NL ++ NL ++ js "---" ++ NL ++ fullContent ++ NL ++ NL ++ js "---" ++ NL
  ++ js "Suggested Tags:".

Definition tagsGuardNotice : jsstring :=
  js "Full content is required to suggest tags. AI service must be available.".

Definition tagsFormatNotice : jsstring :=
  js "Could not suggest tags. AI response was not in the expected format.".

(** [handleSuggestTags], followed to its end. *)
Definition handleSuggestTags (numberText : jsstring -> jsstring)
    (ai : option GoogleGenAI) (m : Manager) : Manager :=
  let form := formState m in
  if negb (truthy_opt (formFullContent form)) || negb (isAIServiceAvailable ai)
  then mkManager form (isSuggestingTags m) (isUploadModalOpen m)
                 (notices m ++ [NoticeText tagsGuardNotice]) (tagRequests m)
  else
    let prompt :=
      suggestTagsPrompt (match formFullContent form with Some c => c | None => [] end) in
    let requests := tagRequests m ++ [prompt] in
    match generateJson ai prompt with
    | Returned (Json.Array items) =>
        mkManager (setFormTags (joinTags numberText items) form) false
                  (isUploadModalOpen m) (notices m) requests
    | Returned _ =>
        mkManager form false (isUploadModalOpen m)
                  (notices m ++ [NoticeText tagsFormatNotice]) requests
    | Threw error =>
        mkManager form false (isUploadModalOpen m)
                  (notices m ++ [NoticeError (js "Error suggesting tags: ") error])
                  requests
    end.

(** A generated question and answer. *)
Record FAQ := mkFAQ {
  question : jsstring;
  answer : jsstring
}.

(** A [Document] of the repository: the fields the chat reads, the
    upload date and the generated FAQs. *)
Record Stored := mkStored {
  document : Document.t;
  uploadedAt : N;
  generatedFaqs : list FAQ
}.

Definition storedId (d : Stored) : jsstring := Document.id (document d).

(** [{ ...doc, isFavorite: b }] *)
Definition withFavorite (b : bool) (d : Stored) : Stored :=
  let doc := document d in
  mkStored (Document.mk (Document.id doc) (Document.name doc) (Document.type doc)
              (Document.tags doc) (Document.contentSnippet doc)
              (Document.fullContent doc) (Document.sourceUrl doc) b)
           (uploadedAt d) (generatedFaqs d).

(** [addDocument(docData)] in [App]: the new document gets its id from
    the clock, is not a favourite, has no FAQs, and goes first. *)
Definition addDocument (now date : N) (name type : jsstring) (tags : list jsstring)
    (contentSnippet : jsstring) (fullContent sourceUrl : option jsstring)
    (documents : list Stored) : list Stored :=
  mkStored (Document.mk (toString now) name type tags contentSnippet fullContent
              sourceUrl false) date []
  :: documents.

(** [updateDocument(updatedDoc)] in [App]. *)
Definition updateDocument (updatedDoc : Stored) (documents : list Stored)
    : list Stored :=
  map (fun doc => if eqb (storedId doc) (storedId updatedDoc) then updatedDoc else doc)
      documents.

(** [handleToggleFavorite(docId)] in [DocumentManager], with the
    [updateDocument] of [App]. *)
Definition handleToggleFavorite (docId : jsstring) (documents : list Stored)
    : list Stored :=
  match find (fun d => eqb (storedId d) docId) documents with
  | Some doc =>
      updateDocument (withFavorite (negb (Document.isFavorite (document doc))) doc)
                     documents
  | None => documents
  end.

(** [initialFormState]; [textType] is the run-time value of
    [DocumentType.TEXT]. *)
Definition initialFormState (textType : jsstring) : FormState :=
  mkFormState [] textType [] [] (Some []) (Some []).

(** [handleSubmit]: the form goes to [addDocument] with its tags parsed,
    the form is reset and the modal closed. *)
Definition handleSubmit (textType : jsstring) (now date : N) (m : Manager)
    (documents : list Stored) : Manager * list Stored :=
  let form := formState m in
  (mkManager (initialFormState textType) (isSuggestingTags m) false (notices m)
             (tagRequests m),
   addDocument now date (formName form) (formType form) (parseTags (formTags form))
     (formContentSnippet form) (formFullContent form) (formSourceUrl form) documents).

(** The documents the chat receives from the repository. *)
Definition documentsOf (documents : list Stored) : list Document.t :=
  map document documents.

(* ===================================================================== *)
(** ** What a use of the chat adds to the transcript *)
(* ===================================================================== *)

(** The AI entry a turn ends with: the answer with its sources when the
    stream succeeded, the error entry when it failed. *)
Definition settledEntry (service : GoogleGenAI) (documents : list Document.t)
    (u : Use) : ChatMessage.t :=
  let query := queryOfUse u in
  let sub := submissionOf documents (clockOf u) query in
  let reply := generateContentStream service (groundingPrompt documents query) in
  match transportFailure reply with
  | None =>
      answeredEntry sub (dateAi (clockOf u)) (answerOf reply)
        (fst (fetchSourceAttribution (Some service) query (contextSnippets documents)
                (answerOf reply)))
  | Some _ => failedEntry sub (dateAi (clockOf u))
  end.

(** The entries of a use: none for a blank query, else the user entry
    and the settled AI entry. *)
Definition turnEntries (service : GoogleGenAI) (documents : list Document.t)
    (u : Use) : list ChatMessage.t :=
  if startsTurn u
  then [userMessage (clockOf u) (queryOfUse u); settledEntry service documents u]
  else [].


(** The requests of a use: none for a blank query, else the stream
    request and, when the streamed text is not blank, the attribution
    request. *)
Definition turnRequests (service : GoogleGenAI) (documents : list Document.t)
    (u : Use) : list Effect :=
  if startsTurn u
  then
    let query := queryOfUse u in
    let prompt := groundingPrompt documents query in
    let reply := generateContentStream service prompt in
    StreamRequest prompt
    :: (if truthy (trim (answerOf reply))
        then [JsonRequest (attributionPrompt query (contextSnippets documents)
                             (answerOf reply))]
        else [])
  else [].

(* ===================================================================== *)
(** ** The totals of the analytics view ([AnalyticsReportView]) *)
(* ===================================================================== *)

(** [documents.length] *)
Definition totalDocuments (documents : list Stored) : nat := List.length documents.

(** [documents.filter(doc => doc.isFavorite).length] *)
Definition totalBookmarks (documents : list Stored) : nat :=
  List.length (filter (fun doc => Document.isFavorite (document doc)) documents).

(** The tags a form text gives are well formed: not empty, no whitespace
    at either end, no comma. *)
Definition wellFormedTag (t : jsstring) : Prop :=
  isTrimmed t = true /\ ~ In comma t.

(* ===================================================================== *)
(** ** Scenarios of the form and the repository *)
(* ===================================================================== *)

(** A form as typed: the tags with stray spaces and an empty piece. *)
Definition notesForm : FormState :=
  mkFormState (js "notes.txt") (js "text") (js " alpha, beta ,,gamma ")
              (js "Meeting notes") (Some (js "Full notes of the meeting")) (Some []).

Definition notesManager : Manager := mkManager notesForm false true [] [].

(** A service that answers the tag request with two tags. *)
Definition tagService : GoogleGenAI :=
  scriptedService []
    (js "[" ++ quoted (js "alpha") ++ js ", " ++ quoted (js "beta") ++ js "]").

(** A repository of two documents, the second a favourite. *)
Definition handbookDocument : Document.t :=
  Document.mk (js "2") (js "handbook.docx") (js "WORD") [js "hr"]
              (js "Employee handbook") None None true.

Definition sampleRepository : list Stored :=
  [mkStored policyDocument 1700000000000 []; mkStored handbookDocument 1700000000500 []].

(** A recognition event: one result from before [resultIndex], an
    interim result and a final one. *)
Definition sampleResults : list SpeechResult :=
  [mkSpeechResult true (js "old words "); mkSpeechResult false (js "hel");
   mkSpeechResult true (js " hello world ")].

(** The platform's text of a number whose lexeme is already that text. *)
Definition lexemeText (lexeme : jsstring) : jsstring := lexeme.

(** A chat that already holds one user entry. *)
Definition greetedWorld : World :=
  mkWorld [userMessage sampleClock (js "Hello")] [] false false false [] [].

(** A repository of seven documents: the second has neither snippet nor
    content, the other six qualify; the third has full content and a
    source URL but no snippet. *)
Definition shelf : list Document.t :=
  [Document.mk (js "1") (js "a.txt") (js "TEXT") [] (js "alpha") None None false;
   Document.mk (js "2") (js "blank.txt") (js "TEXT") [] [] (Some []) (Some []) false;
   Document.mk (js "3") (js "b.pdf") (js "PDF") [] [] (Some (js "bravo content"))
     (Some (js "https://example.org/b")) false;
   Document.mk (js "4") (js "c.txt") (js "TEXT") [] (js "charlie") None None false;
   Document.mk (js "5") (js "d.txt") (js "TEXT") [] (js "delta") None None false;
   Document.mk (js "6") (js "e.txt") (js "TEXT") [] (js "echo") None None false;
   Document.mk (js "7") (js "f.txt") (js "TEXT") [] (js "foxtrot") None None false].

(** A repository in which no document qualifies. *)
Definition blankShelf : list Document.t :=
  [Document.mk (js "2") (js "blank.txt") (js "TEXT") [] [] (Some []) (Some []) false;
   Document.mk (js "8") (js "bare.txt") (js "TEXT") [] [] None None false].

(* ===================================================================== *)
(** ** The JSON grammar *)
(* ===================================================================== *)

(** The texts [JSON.parse] accepts, and the value each denotes, as the
    JSON grammar (ECMA-404) gives them; written as relations on code
    units, with none of the functions of the parser above. *)
Module Grammar.

(** Whitespace: space, horizontal tab, line feed, carriage return. *)
Definition Ws (s : jsstring) : Prop :=
  Forall (fun c => c = 32 \/ c = 9 \/ c = 10 \/ c = 13) s.

Definition Digit (c : N) : Prop := 48 <= c /\ c <= 57.

Definition Digits (s : jsstring) : Prop := Forall Digit s.

(** A number: an optional minus, an integer part without a leading
    zero, an optional fraction, an optional exponent. *)
Inductive Sign : jsstring -> Prop :=
| NoSign : Sign []
| Minus : Sign [45].

Inductive IntPart : jsstring -> Prop :=
| Zero : IntPart [48]
| NonZero d ds : 49 <= d -> d <= 57 -> Digits ds -> IntPart (d :: ds).

Inductive Fraction : jsstring -> Prop :=
| NoFraction : Fraction []
| Point d ds : Digit d -> Digits ds -> Fraction (46 :: d :: ds).

Inductive ExpSign : jsstring -> Prop :=
| NoExpSign : ExpSign []
| ExpPlus : ExpSign [43]
| ExpMinus : ExpSign [45].

Inductive Exponent : jsstring -> Prop :=
| NoExponent : Exponent []
| Power e sign d ds :
    e = 101 \/ e = 69 -> ExpSign sign -> Digit d -> Digits ds ->
    Exponent (e :: sign ++ d :: ds).

Inductive Number : jsstring -> Prop :=
| NumberOf sign int frac exp :
    Sign sign -> IntPart int -> Fraction frac -> Exponent exp ->
    Number (sign ++ int ++ frac ++ exp).

(** The single-letter escapes: the letter after the backslash and the
    code unit it stands for. *)
Inductive Escape : N -> N -> Prop :=
| EscapeQuote : Escape 34 34
| EscapeBackslash : Escape 92 92
| EscapeSlash : Escape 47 47
| EscapeB : Escape 98 8
| EscapeF : Escape 102 12
| EscapeN : Escape 110 10
| EscapeR : Escape 114 13
| EscapeT : Escape 116 9.

(** A hexadecimal digit and its value. *)
Inductive Hex : N -> N -> Prop :=
| HexDecimal c : 48 <= c -> c <= 57 -> Hex c (c - 48)
| HexLower c : 97 <= c -> c <= 102 -> Hex c (c - 87)
| HexUpper c : 65 <= c -> c <= 70 -> Hex c (c - 55).

(** The characters between the quotes of a string, and the code units
    they denote: any code unit from 32 on but the quote and the
    backslash, a single-letter escape, or a backslash, a [u] and four
    hexadecimal digits. *)
Inductive Chars : jsstring -> jsstring -> Prop :=
| CharsEnd : Chars [] []
| CharsPlain c src dec :
    32 <= c -> c <> 34 -> c <> 92 -> Chars src dec -> Chars (c :: src) (c :: dec)
| CharsEscape e d src dec :
    Escape e d -> Chars src dec -> Chars (92 :: e :: src) (d :: dec)
| CharsUnicode a b c d x y z w src dec :
    Hex a x -> Hex b y -> Hex c z -> Hex d w -> Chars src dec ->
    Chars (92 :: 117 :: a :: b :: c :: d :: src)
          ((((x * 16 + y) * 16 + z) * 16 + w) :: dec).

(** A value without whitespace around it; the elements of an array and
    the members of an object, each with whitespace around it and commas
    between them. *)
Inductive Value : jsstring -> Json.value -> Prop :=
| ValueNull : Value (js "null") Json.Null
| ValueTrue : Value (js "true") (Json.Bool true)
| ValueFalse : Value (js "false") (Json.Bool false)
| ValueNumber lexeme : Number lexeme -> Value lexeme (Json.Number lexeme)
| ValueString src dec : Chars src dec -> Value (34 :: src ++ [34]) (Json.Str dec)
| ValueEmptyArray w : Ws w -> Value (91 :: w ++ [93]) (Json.Array [])
| ValueArray src items :
    Elements src items -> Value (91 :: src ++ [93]) (Json.Array items)
| ValueEmptyObject w : Ws w -> Value (123 :: w ++ [125]) (Json.Object [])
| ValueObject src members :
    Members src members -> Value (123 :: src ++ [125]) (Json.Object members)

with Elements : jsstring -> list Json.value -> Prop :=
| ElementsLast w1 src w2 v :
    Ws w1 -> Value src v -> Ws w2 -> Elements (w1 ++ src ++ w2) [v]
| ElementsNext w1 src w2 v rest items :
    Ws w1 -> Value src v -> Ws w2 -> Elements rest items ->
    Elements (w1 ++ src ++ w2 ++ 44 :: rest) (v :: items)

with Members : jsstring -> list (jsstring * Json.value) -> Prop :=
| MembersLast w1 ksrc key w2 w3 src w4 v :
    Ws w1 -> Chars ksrc key -> Ws w2 -> Ws w3 -> Value src v -> Ws w4 ->
    Members (w1 ++ 34 :: ksrc ++ 34 :: w2 ++ 58 :: w3 ++ src ++ w4) [(key, v)]
| MembersNext w1 ksrc key w2 w3 src w4 v rest members :
    Ws w1 -> Chars ksrc key -> Ws w2 -> Ws w3 -> Value src v -> Ws w4 ->
    Members rest members ->
    Members (w1 ++ 34 :: ksrc ++ 34 :: w2 ++ 58 :: w3 ++ src ++ w4 ++ 44 :: rest)
            ((key, v) :: members).

(** A JSON text: a value with whitespace around it. *)
Definition Text (s : jsstring) (v : Json.value) : Prop :=
  exists w1 src w2, s = w1 ++ src ++ w2 /\ Ws w1 /\ Value src v /\ Ws w2.

(** What may follow a value in a text: nothing, whitespace, a comma or
    a closing bracket or brace. *)
Definition Delimited (r : jsstring) : Prop :=
  match r with
  | [] => True
  | c :: _ => c = 32 \/ c = 9 \/ c = 10 \/ c = 13 \/ c = 44 \/ c = 93 \/ c = 125
  end.

End Grammar.

(** The descent gives this value and rest, unless it is cut short. *)
Definition agrees (p : Json.parsed) (v : Json.value) (r : jsstring) : Prop :=
  p = Json.Ok v r \/ p = Json.Exhausted.

(** The claim on the raw text as the specification words it: an error
    raised once a response has arrived carries the text of that
    response. *)
Definition errorCarriesRawText (service : GoogleGenAI) (prompt : jsstring) : Prop :=
  forall text e,
    generateContent service prompt = ContentResponse text ->
    generateJson (Some service) prompt = Threw e ->
    rawTextIfAvailable e = text.

(** Raw response texts: an array cut short, an array with spaces inside
    a fence, and an array followed by prose. *)
Definition truncatedArray : jsstring := js "[1, 2".

Definition spacedFence : jsstring :=
  js " ```json" ++ [10] ++ js "[1, 2]" ++ [10] ++ js "``` ".

Definition arrayThenProse : jsstring := js "[] Sorry, I could not find sources.".

(* ===================================================================== *)
(** * Properties *)
(* ===================================================================== *)

(** ** Strings *)

Lemma truthy_nonempty (s : jsstring) : truthy s = true <-> s <> [].
Proof. destruct s; simpl; split; congruence. Qed.

Lemma or_else_nonempty (a b : jsstring) : a <> [] -> or_else a b = a.
Proof. destruct a; [congruence | reflexivity]. Qed.

Lemma eqb_refl (a : jsstring) : eqb a a = true.
Proof. induction a as [|x a IH]; simpl; [|rewrite N.eqb_refl, IH]; reflexivity. Qed.

Lemma join_cons_nonempty (sep b : jsstring) (bs : list jsstring) :
  b <> [] -> join sep (b :: bs) <> [].
Proof.
  intros Hb. destruct bs as [|b' bs]; simpl; [exact Hb|].
  destruct b; [congruence | discriminate].
Qed.

(** ** Context assembly *)

Lemma renderBlock_nonempty (doc : Document.t) : renderBlock doc <> [].
Proof. unfold renderBlock. simpl. discriminate. Qed.

Lemma qualifies_spec (doc : Document.t) :
  qualifies doc = true <->
  (Document.contentSnippet doc <> []
   \/ exists full, Document.fullContent doc = Some full /\ full <> []).
Proof.
  unfold qualifies, truthy_opt. rewrite orb_true_iff, truthy_nonempty. split.
  - intros [H | H]; [left; exact H | right].
    destruct (Document.fullContent doc) as [full|]; [|discriminate].
    exists full. split; [reflexivity | apply truthy_nonempty; exact H].
  - intros [H | (full & Hf & Hne)]; [left; exact H | right].
    rewrite Hf. apply truthy_nonempty; exact Hne.
Qed.

Lemma contextSnippets_empty_iff (documents : list Document.t) :
  contextSnippets documents = [] <-> filter qualifies documents = [].
Proof.
  unfold contextSnippets, selectedDocuments.
  destruct (filter qualifies documents) as [|d ds]; simpl.
  - split; reflexivity.
  - split; [|discriminate]. intros H. exfalso.
    exact (join_cons_nonempty blockSeparator (renderBlock d)
             (map renderBlock (firstn 4 ds)) (renderBlock_nonempty d) H).
Qed.

Lemma join_separated (sep b : jsstring) (bs : list jsstring) :
  join sep (b :: bs) = b ++ flat_map (fun block => sep ++ block) bs.
Proof.
  revert b. induction bs as [|b' bs IH]; intros b.
  - simpl. rewrite app_nil_r. reflexivity.
  - change (join sep (b :: b' :: bs)) with (b ++ sep ++ join sep (b' :: bs)).
    rewrite IH. simpl. rewrite <- app_assoc. reflexivity.
Qed.

(** C4.  The context of a submission is built from the documents with a
    non-empty snippet or non-empty full content; the first five of them,
    in repository order, give one block each, and the context is the
    first block followed by each further block after the delimiter: two
    line feeds, three hyphens, two line feeds.  A block shows the name,
    the type, the source URL line when the document has a source URL,
    the snippet and, only when the document has full content, its first
    100 code units followed by three dots.  When no document qualifies
    the joined text is empty and the prompt shows the fixed marker in its
    place, under its heading. *)
Theorem C4_context_assembly (documents : list Document.t) :
  let qualifying := filter qualifies documents in
  let selected := selectedDocuments documents in
  (forall d, In d qualifying <->
             In d documents /\
             (Document.contentSnippet d <> []
              \/ exists full, Document.fullContent d = Some full /\ full <> []))
  /\ (exists rest, qualifying = selected ++ rest)
  /\ List.length selected = Nat.min 5 (List.length qualifying)
  /\ ((List.length qualifying <= 5)%nat -> selected = qualifying)
  /\ contextSnippets documents
     = match map renderBlock selected with
       | [] => []
       | first :: others =>
           first ++ flat_map (fun block => [10; 10] ++ js "---" ++ [10; 10] ++ block)
                             others
       end
  /\ (forall d,
        renderBlock d =
          js "Document Name: " ++ Document.name d
          ++ [10] ++ js "Type: " ++ Document.type d
          ++ match Document.sourceUrl d with
             | Some (c :: u) => [10] ++ js "Source URL: " ++ c :: u
             | _ => []
             end
          ++ [10] ++ js "Content Snippet: " ++ Document.contentSnippet d
          ++ match Document.fullContent d with
             | Some (c :: full) =>
                 [10] ++ js "Full Content Hint: " ++ firstn 100 (c :: full) ++ js "..."
             | _ => []
             end)
  /\ (qualifying = [] ->
      contextSnippets documents = []
      /\ knowledgeBase documents = js "No documents available in the knowledge base.")
  /\ (qualifying <> [] ->
      contextSnippets documents <> []
      /\ knowledgeBase documents = contextSnippets documents)
  /\ (forall question,
        groundingPrompt documents question
        = js "You are a helpful AI assistant for the HEREANDNOW AI RESEARCH INSTITUTE. Your knowledge base consists of the following documents. Answer the user's question based ONLY on this information. If the answer is not found in the provided documents, state that clearly. Do not make up information. Be concise and professional."
          ++ [10; 10] ++ js "Knowledge Base:" ++ [10]
          ++ knowledgeBase documents
          ++ [10; 10] ++ js "User Question: " ++ question
          ++ [10; 10] ++ js "Answer:").
Proof.
  cbv zeta.
  split; [|split; [|split; [|split; [|split; [|split; [|split; [|split]]]]]]].
  - intros d. rewrite filter_In, qualifies_spec. reflexivity.
  - exists (skipn 5 (filter qualifies documents)). symmetry. apply firstn_skipn.
  - apply length_firstn.
  - intros H. apply firstn_all2. exact H.
  - unfold contextSnippets.
    destruct (map renderBlock (selectedDocuments documents)) as [|b bs];
      [reflexivity|].
    apply join_separated.
  - intros d. unfold renderBlock, sourceUrlLine, fullContentHint.
    destruct (Document.sourceUrl d) as [[|c u]|];
      destruct (Document.fullContent d) as [[|c' full]|]; reflexivity.
  - intros H. assert (Hc : contextSnippets documents = [])
      by (apply contextSnippets_empty_iff; exact H).
    split; [exact Hc|]. unfold knowledgeBase. rewrite Hc. reflexivity.
  - intros H.
    assert (Hc : contextSnippets documents <> []).
    { intros E. apply contextSnippets_empty_iff in E. contradiction. }
    split; [exact Hc|]. unfold knowledgeBase.
    destruct (contextSnippets documents); [congruence | reflexivity].
  - intros question. reflexivity.
Qed.
(** ** The streaming completion *)

Section StreamCalls.

Let logChunk := fun (text : jsstring) (log : list Call) => log ++ [CallOnChunk text].
Let logError := fun (cause : JsError) (log : list Call) => log ++ [CallOnError cause].
Let logAwait := fun (log : list Call) => log ++ [CallAwait].

Lemma forAwait_calls (items : list StreamItem) (log : list Call) :
  forAwait logChunk logAwait items log
  = (log ++ iterationCalls items, streamFailure items).
Proof.
  revert log. induction items as [|item rest IH]; intros log.
  - reflexivity.
  - destruct item as [text | cause]; simpl.
    + rewrite IH. unfold logChunk, logAwait.
      rewrite <- !app_assoc. reflexivity.
    + reflexivity.
Qed.

End StreamCalls.

Lemma streamCalls_available (service : GoogleGenAI) (prompt : jsstring) :
  streamCalls (Some service) prompt
  = [CallRequest prompt; CallAwait]
    ++ match generateContentStream service prompt with
       | StreamRejected cause => [CallOnError cause; CallOnComplete]
       | StreamOpened items =>
           iterationCalls items
           ++ match streamFailure items with
              | Some cause => [CallOnError cause; CallOnComplete]
              | None => [CallOnComplete]
              end
       end.
Proof.
  unfold streamCalls, generateTextStream.
  destruct (generateContentStream service prompt) as [cause | items].
  - reflexivity.
  - rewrite forAwait_calls.
    destruct (streamFailure items); simpl; rewrite <- ?app_assoc; reflexivity.
Qed.

Lemma iterationCalls_callbacks (items : list StreamItem) :
  filter isCallback (iterationCalls items)
  = map CallOnChunk (deliveredChunks items).
Proof.
  induction items as [|[text | cause] rest IH]; simpl; [reflexivity | | reflexivity].
  rewrite IH. reflexivity.
Qed.

Lemma iterationCalls_quiet (items : list StreamItem) :
  Forall (fun c => isOnError c = false /\ isOnComplete c = false)
         (iterationCalls items).
Proof.
  induction items as [|[text | cause] rest IH]; simpl; repeat constructor; auto.
Qed.

(** The shape of every run: calls that are neither [onError] nor
    [onComplete], then at most one [onError], then [onComplete]. *)
Lemma streamCalls_shape (ai : option GoogleGenAI) (prompt : jsstring) :
  exists before closing,
    streamCalls ai prompt = before ++ closing
    /\ Forall (fun c => isOnError c = false /\ isOnComplete c = false) before
    /\ (closing = [CallOnComplete]
        \/ exists cause, closing = [CallOnError cause; CallOnComplete]).
Proof.
  destruct ai as [service|].
  - rewrite streamCalls_available.
    destruct (generateContentStream service prompt) as [cause | items].
    + exists [CallRequest prompt; CallAwait], [CallOnError cause; CallOnComplete].
      split; [reflexivity|]. split; [repeat constructor; auto|].
      right. exists cause. reflexivity.
    + exists ([CallRequest prompt; CallAwait] ++ iterationCalls items).
      destruct (streamFailure items) as [cause|].
      * exists [CallOnError cause; CallOnComplete].
        split; [rewrite <- app_assoc; reflexivity|].
        split; [|right; exists cause; reflexivity].
        apply Forall_app. split; [repeat constructor; auto|].
        apply iterationCalls_quiet.
      * exists [CallOnComplete].
        split; [rewrite <- app_assoc; reflexivity|].
        split; [|left; reflexivity].
        apply Forall_app. split; [repeat constructor; auto|].
        apply iterationCalls_quiet.
  - exists [], [CallOnError unavailableError; CallOnComplete].
    split; [reflexivity|]. split; [constructor|].
    right. exists unavailableError. reflexivity.
Qed.

Lemma quiet_no_complete (l : list Call) :
  Forall (fun c => isOnError c = false /\ isOnComplete c = false) l ->
  filter isOnComplete l = [] /\ filter isOnError l = [].
Proof.
  induction 1 as [|c l [He Hc] _ [IH1 IH2]]; simpl; [split; reflexivity|].
  rewrite He, Hc. split; assumption.
Qed.

Lemma error_split_unique (before pre post : list Call) (cause cause' : JsError) :
  Forall (fun c => isOnError c = false /\ isOnComplete c = false) before ->
  before ++ [CallOnError cause'; CallOnComplete] = pre ++ CallOnError cause :: post ->
  pre = before /\ post = [CallOnComplete].
Proof.
  intros Hquiet. revert pre.
  induction Hquiet as [|b bs [Hb _] _ IH]; intros pre Heq.
  - destruct pre as [|a pre]; simpl in Heq.
    + injection Heq as _ <-. split; reflexivity.
    + injection Heq as <- Heq.
      destruct pre as [|a' pre]; simpl in Heq; [discriminate|].
      injection Heq as _ Heq. destruct pre; discriminate.
  - destruct pre as [|a pre]; simpl in Heq.
    + injection Heq as -> _. discriminate.
    + injection Heq as <- Heq. destruct (IH pre Heq) as [-> ->].
      split; reflexivity.
Qed.

(** C3.  In every run of the streaming completion [onComplete] is called
    exactly once and is the last call, after every [onChunk] and after
    [onError]; [onError] is called at most once and only [onComplete]
    follows it.  On a transport failure [onError] is called exactly once,
    after the chunks delivered before the failure; on success every chunk
    is delivered in order and [onError] is not called.  When the service
    is unavailable the calls are [onError] then [onComplete], with no
    request and no suspension. *)
Theorem C3_stream_callbacks (ai : option GoogleGenAI) (prompt : jsstring) :
  let calls := streamCalls ai prompt in
  List.length (filter isOnComplete calls) = 1%nat
  /\ (exists before,
        calls = before ++ [CallOnComplete]
        /\ filter isOnComplete before = []
        /\ (List.length (filter isOnError before) <= 1)%nat)
  /\ (forall before cause after,
        calls = before ++ CallOnError cause :: after ->
        after = [CallOnComplete] /\ filter isOnError before = [])
  /\ (ai = None -> calls = [CallOnError unavailableError; CallOnComplete])
  /\ (forall service, ai = Some service ->
        let reply := generateContentStream service prompt in
        filter isCallback calls
        = map CallOnChunk (deliveredTexts reply)
          ++ match transportFailure reply with
             | Some cause => [CallOnError cause; CallOnComplete]
             | None => [CallOnComplete]
             end).
Proof.
  cbv zeta.
  destruct (streamCalls_shape ai prompt) as (before & closing & Hcalls & Hquiet & Hclosing).
  destruct (quiet_no_complete before Hquiet) as [Hnc Hne].
  split; [|split; [|split; [|split]]].
  - rewrite Hcalls, filter_app, Hnc.
    destruct Hclosing as [-> | [cause ->]]; reflexivity.
  - destruct Hclosing as [-> | [cause ->]].
    + exists before. rewrite Hne. repeat split; auto.
    + exists (before ++ [CallOnError cause]).
      rewrite Hcalls, <- app_assoc, !filter_app, Hnc, Hne. repeat split; auto.
  - intros pre cause post Heq. rewrite Hcalls in Heq.
    destruct Hclosing as [-> | [cause' ->]].
    + exfalso.
      assert (Hf : filter isOnError (pre ++ CallOnError cause :: post) = []).
      { rewrite <- Heq, filter_app, Hne. reflexivity. }
      rewrite filter_app in Hf. simpl in Hf.
      destruct (filter isOnError pre); discriminate.
    + destruct (error_split_unique before pre post cause cause' Hquiet Heq) as [-> ->].
      split; [reflexivity | exact Hne].
  - intros ->. reflexivity.
  - intros service ->. rewrite streamCalls_available.
    destruct (generateContentStream service prompt) as [cause | items]; simpl.
    + reflexivity.
    + rewrite filter_app, iterationCalls_callbacks.
      destruct (streamFailure items); reflexivity.
Qed.

(** ** One chat turn *)

Lemma isLoadingEntry_streaming (sub : Submission) (date : N) (acc : jsstring) :
  isLoadingEntry (loadingAiMessageId sub) (streamingEntry sub date acc) = true.
Proof. unfold isLoadingEntry. simpl. rewrite eqb_refl. reflexivity. Qed.

Lemma isLoadingEntry_not_loading (loadingId : jsstring) (m : ChatMessage.t) :
  ChatMessage.loading m = false -> isLoadingEntry loadingId m = false.
Proof. intros H. unfold isLoadingEntry. rewrite H. apply andb_false_r. Qed.

Lemma lastEntry_endsWith (u e : ChatMessage.t) (w : World) :
  endsWith u e w -> lastEntry w = Some e.
Proof.
  intros [older H]. unfold lastEntry. rewrite H, length_app. simpl.
  rewrite nth_error_app2 by lia.
  replace (List.length older + 2 - 1 - List.length older)%nat with 1%nat by lia.
  reflexivity.
Qed.

Lemma onChunk_streaming (sub : Submission) (u : ChatMessage.t) (date : N)
    (chunk : jsstring) (w : World) :
  ChatMessage.loading u = false ->
  endsWith u (streamingEntry sub date (accumulatedAnswer w)) w ->
  let w' := onChunk sub chunk w in
  endsWith u (streamingEntry sub date (accumulatedAnswer w')) w'
  /\ accumulatedAnswer w' = accumulatedAnswer w ++ chunk
  /\ effects w' = effects w /\ isLoading w' = isLoading w.
Proof.
  intros Hu [older H]. cbv zeta. unfold endsWith, onChunk. simpl.
  split; [|auto].
  exists (chunkUpdate (loadingAiMessageId sub) (accumulatedAnswer w ++ chunk) older).
  rewrite H. unfold chunkUpdate. rewrite map_app. simpl.
  rewrite (isLoadingEntry_not_loading _ u Hu), isLoadingEntry_streaming.
  reflexivity.
Qed.

Lemma forAwait_streaming (sub : Submission) (u : ChatMessage.t) (date : N)
    (items : list StreamItem) (w : World) :
  ChatMessage.loading u = false ->
  endsWith u (streamingEntry sub date (accumulatedAnswer w)) w ->
  let w' := fst (forAwait (onChunk sub) (fun st => st) items w) in
  endsWith u (streamingEntry sub date (accumulatedAnswer w')) w'
  /\ accumulatedAnswer w' = accumulatedAnswer w ++ List.concat (deliveredChunks items)
  /\ effects w' = effects w /\ isLoading w' = isLoading w
  /\ snd (forAwait (onChunk sub) (fun st => st) items w) = streamFailure items.
Proof.
  intros Hu. revert w. induction items as [|[text | cause] rest IH]; intros w Hw; simpl.
  - rewrite app_nil_r. auto.
  - destruct (onChunk_streaming sub u date text w Hu Hw) as (H1 & H2 & H3 & H4).
    destruct (IH _ H1) as (K1 & K2 & K3 & K4 & K5).
    split; [exact K1|]. rewrite K2, K3, K4, H2, H3, H4, <- app_assoc. auto.
  - rewrite app_nil_r. auto.
Qed.

Lemma onError_streaming (sub : Submission) (u : ChatMessage.t) (date : N)
    (error : JsError) (w : World) :
  ChatMessage.loading u = false ->
  endsWith u (streamingEntry sub date (accumulatedAnswer w)) w ->
  let w' := onError sub error w in
  endsWith u (ChatMessage.mk (finalAiMessageId sub) Sender.ai streamErrorText date
                (Some false) None) w'
  /\ accumulatedAnswer w' = accumulatedAnswer w
  /\ effects w' = effects w /\ isLoading w' = false.
Proof.
  intros Hu [older H]. cbv zeta. unfold endsWith, onError. simpl.
  split; [|auto].
  exists (errorUpdate (loadingAiMessageId sub) (finalAiMessageId sub) older).
  rewrite H. unfold errorUpdate. rewrite map_app. simpl.
  rewrite (isLoadingEntry_not_loading _ u Hu), isLoadingEntry_streaming.
  reflexivity.
Qed.

Lemma onComplete_resume_streaming (ai : option GoogleGenAI) (sub : Submission)
    (u : ChatMessage.t) (date : N) (w : World) :
  ChatMessage.loading u = false ->
  endsWith u (streamingEntry sub date (accumulatedAnswer w)) w ->
  let w' := onComplete_resume ai sub w in
  endsWith u (ChatMessage.mk (finalAiMessageId sub) Sender.ai
                (or_else (accumulatedAnswer w) noFurtherResponse) date (Some false)
                (fst (fetchSourceAttribution ai (questionToSubmit sub) (context sub)
                        (accumulatedAnswer w)))) w'
  /\ effects w' = effects w /\ isLoading w' = false.
Proof.
  intros Hu [older H]. cbv zeta. unfold endsWith, onComplete_resume. simpl.
  split; [|auto].
  eexists. rewrite H. unfold completeUpdate. rewrite map_app. simpl.
  rewrite (isLoadingEntry_not_loading _ u Hu), isLoadingEntry_streaming.
  reflexivity.
Qed.

Lemma onComplete_resume_finalized (ai : option GoogleGenAI) (sub : Submission)
    (u e : ChatMessage.t) (w : World) :
  ChatMessage.loading u = false -> ChatMessage.loading e = false ->
  endsWith u e w ->
  let w' := onComplete_resume ai sub w in
  endsWith u e w' /\ effects w' = effects w /\ isLoading w' = false.
Proof.
  intros Hu He [older H]. cbv zeta. unfold endsWith, onComplete_resume. simpl.
  split; [|auto].
  eexists. rewrite H. unfold completeUpdate. rewrite map_app. simpl.
  rewrite (isLoadingEntry_not_loading _ u Hu), (isLoadingEntry_not_loading _ e He).
  reflexivity.
Qed.

Lemma userMessage_not_loading (clock : Clock) (query : jsstring) :
  ChatMessage.loading (userMessage clock query) = false.
Proof. reflexivity. Qed.

(** A submission with a non-blank query and an available service starts
    a turn: the user entry and an empty loading entry are appended. *)
Lemma submit_started (service : GoogleGenAI) (documents : list Document.t)
    (clock : Clock) (message : option jsstring) (w : World) :
  truthy (trim (queryOf message w)) = true ->
  let query := queryOf message w in
  let sub := submissionOf documents clock query in
  exists w',
    submit (Some service) documents clock message w = (w', Some sub)
    /\ chatHistory w'
       = chatHistory w ++ [userMessage clock query; streamingEntry sub (dateAi clock) []]
    /\ accumulatedAnswer w' = []
    /\ effects w' = effects w ++ stopEffects w
    /\ isLoading w' = true.
Proof.
  intros Hq. cbv zeta. unfold submit. rewrite Hq. simpl.
  eexists. split; [reflexivity|].
  destruct (negb (truthy_opt message)); simpl; auto.
Qed.

(** The state of a started turn when its stream has ended and the
    completion callback is suspended on the attribution. *)
Lemma runStream_state (service : GoogleGenAI) (documents : list Document.t)
    (sub : Submission) (u : ChatMessage.t) (date : N) (w : World) :
  ChatMessage.loading u = false ->
  accumulatedAnswer w = [] ->
  endsWith u (streamingEntry sub date []) w ->
  let prompt := groundingPrompt documents (questionToSubmit sub) in
  let reply := generateContentStream service prompt in
  let w' := runStream (Some service) documents sub w in
  accumulatedAnswer w' = answerOf reply
  /\ effects w'
     = effects w ++ [StreamRequest prompt]
       ++ snd (fetchSourceAttribution (Some service) (questionToSubmit sub)
                 (context sub) (answerOf reply))
  /\ match transportFailure reply with
     | None =>
         endsWith u (streamingEntry sub date (answerOf reply)) w'
         /\ isLoading w' = isLoading w
     | Some _ =>
         endsWith u (failedEntry sub date) w'
         /\ isLoading w' = false
     end.
Proof.
  intros Hu Hacc Hw. cbv zeta. unfold runStream, generateTextStream, answerOf.
  set (prompt := groundingPrompt documents (questionToSubmit sub)).
  set (w1 := perform [StreamRequest prompt] w).
  assert (Hw1 : endsWith u (streamingEntry sub date (accumulatedAnswer w1)) w1).
  { unfold w1. simpl. rewrite Hacc. exact Hw. }
  destruct (generateContentStream service prompt) as [cause | items]; simpl.
  - destruct (onError_streaming sub u date cause w1 Hu Hw1) as (E1 & E2 & E3 & E4).
    unfold onComplete_call. simpl. rewrite Hacc.
    split; [reflexivity|]. split; [rewrite <- app_assoc; reflexivity|].
    split; [|reflexivity].
    destruct E1 as [older E1]. exists older. exact E1.
  - destruct (forAwait_streaming sub u date items w1 Hu Hw1) as (F1 & F2 & F3 & F4 & F5).
    destruct (forAwait (onChunk sub) (fun st => st) items w1) as [w2 r] eqn:Efor.
    simpl in F1, F2, F3, F4, F5. subst r.
    assert (Hans : accumulatedAnswer w2 = List.concat (deliveredChunks items)).
    { rewrite F2. unfold w1. simpl. rewrite Hacc. reflexivity. }
    destruct (streamFailure items) as [cause|].
    + destruct (onError_streaming sub u date cause w2 Hu F1) as (E1 & E2 & E3 & E4).
      unfold onComplete_call. simpl. rewrite Hans.
      split; [reflexivity|].
      split; [rewrite F3; unfold w1; simpl; rewrite <- app_assoc; reflexivity|].
      split; [|reflexivity].
      destruct E1 as [older E1]. exists older. exact E1.
    + unfold onComplete_call. simpl. rewrite Hans.
      split; [reflexivity|].
      split; [rewrite F3; unfold w1; simpl; rewrite <- app_assoc; reflexivity|].
      split; [|rewrite F4; reflexivity].
      rewrite Hans in F1. destruct F1 as [older F1]. exists older. exact F1.
Qed.

(** A whole turn, to the point where the completion callback awaits the
    attribution. *)
Lemma turn_inflight (service : GoogleGenAI) (documents : list Document.t)
    (clock : Clock) (message : option jsstring) (w : World) :
  truthy (trim (queryOf message w)) = true ->
  let query := queryOf message w in
  let sub := submissionOf documents clock query in
  let u := userMessage clock query in
  let prompt := groundingPrompt documents query in
  let reply := generateContentStream service prompt in
  let w' := handleSendMessage (Some service) documents clock message w in
  accumulatedAnswer w' = answerOf reply
  /\ effects w'
     = effects w ++ stopEffects w ++ [StreamRequest prompt]
       ++ snd (fetchSourceAttribution (Some service) query (contextSnippets documents)
                 (answerOf reply))
  /\ match transportFailure reply with
     | None =>
         endsWith u (streamingEntry sub (dateAi clock) (answerOf reply)) w'
         /\ isLoading w' = true
     | Some _ =>
         endsWith u (failedEntry sub (dateAi clock)) w' /\ isLoading w' = false
     end.
Proof.
  intros Hq. cbv zeta. unfold handleSendMessage.
  destruct (submit_started service documents clock message w Hq)
    as (w0 & Hsub & Hhist & Hacc & Heff & Hload).
  rewrite Hsub.
  assert (Hends : endsWith (userMessage clock (queryOf message w))
                    (streamingEntry (submissionOf documents clock (queryOf message w))
                       (dateAi clock) []) w0).
  { exists (chatHistory w). exact Hhist. }
  destruct (runStream_state service documents _ _ (dateAi clock) w0
              (userMessage_not_loading clock (queryOf message w)) Hacc Hends)
    as (R1 & R2 & R3).
  change (questionToSubmit (submissionOf documents clock (queryOf message w)))
    with (queryOf message w) in R1, R2, R3.
  change (context (submissionOf documents clock (queryOf message w)))
    with (contextSnippets documents) in R1, R2, R3.
  split; [exact R1|]. split.
  - rewrite R2, Heff, <- app_assoc. reflexivity.
  - destruct (transportFailure _); [exact R3|].
    destruct R3 as [R3 R4]. split; [exact R3 | congruence].
Qed.

(** A whole turn, once the completion callback has run to its end. *)
Lemma turn_settled (service : GoogleGenAI) (documents : list Document.t)
    (clock : Clock) (message : option jsstring) (w : World) :
  truthy (trim (queryOf message w)) = true ->
  let query := queryOf message w in
  let sub := submissionOf documents clock query in
  let u := userMessage clock query in
  let reply := generateContentStream service (groundingPrompt documents query) in
  let w' := handleSendMessage (Some service) documents clock message w in
  let w'' := handleSendMessage_settled (Some service) documents clock message w in
  effects w'' = effects w' /\ isLoading w'' = false
  /\ match transportFailure reply with
     | None =>
         endsWith u (answeredEntry sub (dateAi clock) (answerOf reply)
                       (fst (fetchSourceAttribution (Some service) query
                               (contextSnippets documents) (answerOf reply)))) w''
     | Some _ => endsWith u (failedEntry sub (dateAi clock)) w''
     end.
Proof.
  intros Hq. cbv zeta.
  destruct (turn_inflight service documents clock message w Hq) as (T1 & T2 & T3).
  revert T1 T2 T3. unfold handleSendMessage, handleSendMessage_settled.
  destruct (submit_started service documents clock message w Hq)
    as (w0 & Hsub & _).
  rewrite Hsub. intros T1 T2 T3.
  set (w1 := runStream (Some service) documents
               (submissionOf documents clock (queryOf message w)) w0) in *.
  destruct (transportFailure _).
  - destruct T3 as [T3 _].
    destruct (onComplete_resume_finalized (Some service)
                (submissionOf documents clock (queryOf message w))
                (userMessage clock (queryOf message w))
                (failedEntry (submissionOf documents clock (queryOf message w))
                   (dateAi clock)) w1
                (userMessage_not_loading clock (queryOf message w)) eq_refl T3)
      as (S1 & S2 & S3).
    auto.
  - destruct T3 as [T3 _]. rewrite <- T1 in T3.
    destruct (onComplete_resume_streaming (Some service)
                (submissionOf documents clock (queryOf message w)) _ (dateAi clock) w1
                (userMessage_not_loading clock (queryOf message w)) T3)
      as (S1 & S2 & S3).
    rewrite T1 in S1. auto.
Qed.

Lemma fetchSourceAttribution_available (service : GoogleGenAI)
    (userQuery ctx aiAnswer : jsstring) :
  fetchSourceAttribution (Some service) userQuery ctx aiAnswer
  = if truthy (trim aiAnswer)
    then (sourcesOf (generateJson (Some service)
                       (attributionPrompt userQuery ctx aiAnswer)),
          [JsonRequest (attributionPrompt userQuery ctx aiAnswer)])
    else (None, []).
Proof.
  unfold fetchSourceAttribution. simpl. rewrite orb_false_r.
  destruct (truthy (trim aiAnswer)); reflexivity.
Qed.

Lemma deliveredChunks_all (chunks : list jsstring) :
  deliveredChunks (map StreamChunk chunks) = chunks.
Proof. induction chunks as [|c cs IH]; simpl; [|rewrite IH]; reflexivity. Qed.

Lemma streamFailure_none (chunks : list jsstring) :
  streamFailure (map StreamChunk chunks) = None.
Proof. induction chunks as [|c cs IH]; simpl; [reflexivity | exact IH]. Qed.

(** C1 (as stated) fails: in the policy scenario the attribution request
    has been issued while the AI entry is still loading. *)
Lemma C1_counterexample :
  ~ finalizedBeforeAttribution (Some policyService) [policyDocument] sampleClock
      (Some policyQuestion) initialWorld.
Proof.
  unfold finalizedBeforeAttribution. cbv zeta. intros H.
  destruct (H (attributionPrompt policyQuestion (contextSnippets [policyDocument])
                 (List.concat policyChunks))) as (m & Hm & Hload & _).
  - vm_compute. right. left. reflexivity.
  - vm_compute in Hm. injection Hm as <-. discriminate Hload.
Qed.

(** C1 (amended).  After a successful stream the completion callback
    first calls the attribution resolver with the accumulated answer,
    which issues the attribution request when the answer is not blank;
    while it is awaited the AI entry is still loading and shows the
    accumulated answer.  Only when the attribution has settled is the
    entry finalized, in one update that sets [isLoading] to false, the
    text and the sources; no request follows the finalization. *)
Theorem C1_attribution_precedes_finalization (service : GoogleGenAI)
    (documents : list Document.t) (clock : Clock) (message : option jsstring)
    (w : World) :
  truthy (trim (queryOf message w)) = true ->
  let query := queryOf message w in
  let prompt := groundingPrompt documents query in
  let reply := generateContentStream service prompt in
  transportFailure reply = None ->
  let answer := answerOf reply in
  let sub := submissionOf documents clock query in
  let attribution := attributionPrompt query (contextSnippets documents) answer in
  let waiting := handleSendMessage (Some service) documents clock message w in
  let settled := handleSendMessage_settled (Some service) documents clock message w in
  lastEntry waiting = Some (streamingEntry sub (dateAi clock) answer)
  /\ effects waiting
     = effects w ++ stopEffects w ++ [StreamRequest prompt]
       ++ (if truthy (trim answer) then [JsonRequest attribution] else [])
  /\ lastEntry settled
     = Some (answeredEntry sub (dateAi clock) answer
               (if truthy (trim answer)
                then sourcesOf (generateJson (Some service) attribution)
                else None))
  /\ effects settled = effects waiting.
Proof.
  intros Hq. cbv zeta. intros Hok.
  destruct (turn_inflight service documents clock message w Hq) as (T1 & T2 & T3).
  destruct (turn_settled service documents clock message w Hq) as (S1 & S2 & S3).
  rewrite Hok in T3, S3. destruct T3 as [T3 _].
  rewrite fetchSourceAttribution_available in T2, S3.
  split; [apply (lastEntry_endsWith _ _ _ T3)|].
  split.
  - rewrite T2. destruct (truthy (trim (answerOf _))); reflexivity.
  - split; [|exact S1].
    rewrite (lastEntry_endsWith _ _ _ S3). destruct (truthy (trim (answerOf _))); reflexivity.
Qed.

(** C2, at the failing input: the stream breaks after two chunks.  The
    AI entry then shows the fixed error text, is no longer loading and
    has no sources, yet the effects of the turn contain an attribution
    request after the stream request. *)
Theorem C2_attribution_requested_after_error :
  let settled := handleSendMessage_settled (Some brokenService) [policyDocument]
                   sampleClock (Some policyQuestion) initialWorld in
  lastEntry settled
  = Some (failedEntry (submissionOf [policyDocument] sampleClock policyQuestion)
            (dateAi sampleClock))
  /\ effects settled
     = [StreamRequest (groundingPrompt [policyDocument] policyQuestion);
        JsonRequest (attributionPrompt policyQuestion (contextSnippets [policyDocument])
                       (js "Per policy.pdf, "))].
Proof. cbv zeta. split; vm_compute; reflexivity. Qed.

(** The error path in general: the entry shows the fixed error text and
    never gets sources; the attribution request is issued exactly when
    the text accumulated before the error is not blank. *)
Lemma error_turn (service : GoogleGenAI) (documents : list Document.t)
    (clock : Clock) (message : option jsstring) (w : World) (cause : JsError) :
  truthy (trim (queryOf message w)) = true ->
  let query := queryOf message w in
  let prompt := groundingPrompt documents query in
  let reply := generateContentStream service prompt in
  transportFailure reply = Some cause ->
  let settled := handleSendMessage_settled (Some service) documents clock message w in
  lastEntry settled = Some (failedEntry (submissionOf documents clock query) (dateAi clock))
  /\ effects settled
     = effects w ++ stopEffects w ++ [StreamRequest prompt]
       ++ (if truthy (trim (answerOf reply))
           then [JsonRequest (attributionPrompt query (contextSnippets documents)
                                (answerOf reply))]
           else []).
Proof.
  intros Hq. cbv zeta. intros Hfail.
  destruct (turn_inflight service documents clock message w Hq) as (T1 & T2 & T3).
  destruct (turn_settled service documents clock message w Hq) as (S1 & S2 & S3).
  rewrite Hfail in S3. rewrite fetchSourceAttribution_available in T2.
  split; [apply (lastEntry_endsWith _ _ _ S3)|].
  rewrite S1, T2. destruct (truthy (trim (answerOf _))); reflexivity.
Qed.

(** C5 (as stated) fails: when the only chunk is empty the final text is
    the fallback text, not the (empty) concatenation. *)
Lemma C5_counterexample :
  generateContentStream silentService
    (groundingPrompt [] (js "anything")) = StreamOpened (map StreamChunk [[]])
  /\ ~ finalTextIsConcatenation (Some silentService) [] sampleClock
         (Some (js "anything")) initialWorld [[]].
Proof.
  split; [reflexivity|].
  intros (m & Hm & Htext). vm_compute in Hm. injection Hm as <-.
  discriminate Htext.
Qed.

(** C5 (amended).  For every sequence of streamed chunks, after the last
    chunk the AI entry shows their concatenation; once the turn is
    finalized its text is that concatenation when it is not empty (the
    fallback text otherwise); and two streams that split the same total
    text differently end with the same final text. *)
Theorem C5_text_is_concatenation (service : GoogleGenAI)
    (documents : list Document.t) (clock : Clock) (message : option jsstring)
    (w : World) (chunks : list jsstring) :
  truthy (trim (queryOf message w)) = true ->
  let prompt := groundingPrompt documents (queryOf message w) in
  generateContentStream service prompt = StreamOpened (map StreamChunk chunks) ->
  let waiting := handleSendMessage (Some service) documents clock message w in
  let settled := handleSendMessage_settled (Some service) documents clock message w in
  (exists m, lastEntry waiting = Some m
             /\ ChatMessage.text m = List.concat chunks
             /\ ChatMessage.isLoading m = Some true)
  /\ (exists m, lastEntry settled = Some m
                /\ ChatMessage.text m = or_else (List.concat chunks) noFurtherResponse
                /\ ChatMessage.isLoading m = Some false)
  /\ (List.concat chunks <> [] ->
      exists m, lastEntry settled = Some m /\ ChatMessage.text m = List.concat chunks)
  /\ (forall service' chunks',
        generateContentStream service' prompt = StreamOpened (map StreamChunk chunks') ->
        List.concat chunks' = List.concat chunks ->
        option_map ChatMessage.text
          (lastEntry (handleSendMessage_settled (Some service') documents clock message w))
        = option_map ChatMessage.text (lastEntry settled)).
Proof.
  intros Hq. cbv zeta. intros Hreply.
  assert (Hsettled : forall svc cs,
             generateContentStream svc (groundingPrompt documents (queryOf message w))
             = StreamOpened (map StreamChunk cs) ->
             exists m, lastEntry (handleSendMessage_settled (Some svc) documents clock
                                    message w) = Some m
                       /\ ChatMessage.text m = or_else (List.concat cs) noFurtherResponse
                       /\ ChatMessage.isLoading m = Some false).
  { intros svc cs Hr.
    destruct (turn_settled svc documents clock message w Hq) as (_ & _ & S3).
    rewrite Hr in S3. unfold answerOf in S3. simpl in S3.
    rewrite streamFailure_none, deliveredChunks_all in S3.
    eexists. split; [apply (lastEntry_endsWith _ _ _ S3)|]. split; reflexivity. }
  split; [|split; [|split]].
  - destruct (turn_inflight service documents clock message w Hq) as (_ & _ & T3).
    rewrite Hreply in T3. unfold answerOf in T3. simpl in T3.
    rewrite streamFailure_none, deliveredChunks_all in T3. destruct T3 as [T3 _].
    eexists. split; [apply (lastEntry_endsWith _ _ _ T3)|]. split; reflexivity.
  - apply Hsettled. exact Hreply.
  - intros Hne. destruct (Hsettled service chunks Hreply) as (m & Hm & Ht & _).
    exists m. split; [exact Hm|]. rewrite Ht. apply or_else_nonempty. exact Hne.
  - intros service' chunks' Hreply' Hsame.
    destruct (Hsettled service chunks Hreply) as (m & Hm & Ht & _).
    destruct (Hsettled service' chunks' Hreply') as (m' & Hm' & Ht' & _).
    rewrite Hm, Hm'. simpl. rewrite Ht, Ht', Hsame. reflexivity.
Qed.

(** C10.  When the stream completes without error and the accumulated
    answer is empty (no chunk, or only empty chunks), the finalized AI
    entry shows "No further response.". *)
Theorem C10_empty_answer_fallback (service : GoogleGenAI)
    (documents : list Document.t) (clock : Clock) (message : option jsstring)
    (w : World) :
  truthy (trim (queryOf message w)) = true ->
  let reply := generateContentStream service
                 (groundingPrompt documents (queryOf message w)) in
  transportFailure reply = None ->
  answerOf reply = [] ->
  exists m,
    lastEntry (handleSendMessage_settled (Some service) documents clock message w)
    = Some m
    /\ ChatMessage.text m = js "No further response."
    /\ ChatMessage.isLoading m = Some false
    /\ ChatMessage.sources m = None.
Proof.
  intros Hq. cbv zeta. intros Hok Hempty.
  destruct (turn_settled service documents clock message w Hq) as (_ & _ & S3).
  rewrite Hok, Hempty in S3.
  eexists. split; [apply (lastEntry_endsWith _ _ _ S3)|].
  repeat split; reflexivity.
Qed.

Lemma answerOf_empty_chunks (chunks : list jsstring) :
  Forall (fun c => c = []) chunks ->
  answerOf (StreamOpened (map StreamChunk chunks)) = []
  /\ transportFailure (StreamOpened (map StreamChunk chunks)) = None.
Proof.
  intros H. unfold answerOf. simpl.
  rewrite deliveredChunks_all, streamFailure_none. split; [|reflexivity].
  induction H as [|c cs -> _ IH]; simpl; [reflexivity | exact IH].
Qed.

(** ** Unavailable service *)

Lemma session_unavailable (documents : list Document.t) (uses : list Use) (w : World) :
  chatHistory (session None documents uses w) = chatHistory w
  /\ isLoading (session None documents uses w) = isLoading w.
Proof.
  revert w. unfold session.
  induction uses as [|u uses IH]; intros w; simpl; [auto|].
  destruct (IH (useChat None documents w u)) as [H1 H2].
  rewrite H1, H2. unfold useChat, handleSendMessage_settled, submit. simpl.
  destruct (negb (truthy (trim _))); simpl; auto.
Qed.

(** C8.  With the service unavailable a submission is decided before
    anything is appended to the transcript or any loading state is
    entered: the transcript, the loading flag and the input are left as
    they were, no request is issued, nothing stays pending, and a
    non-blank query ends in the fixed alert.  Hence no session leaves a
    loading entry in the transcript. *)
Theorem C8_unavailable_never_loading (documents : list Document.t)
    (clock : Clock) (message : option jsstring) (w : World) :
  let w' := handleSendMessage None documents clock message w in
  submit None documents clock message w = (w', None)
  /\ handleSendMessage_settled None documents clock message w = w'
  /\ chatHistory w' = chatHistory w
  /\ isLoading w' = isLoading w
  /\ currentQuestion w' = currentQuestion w
  /\ effects w'
     = effects w ++ stopEffects w
       ++ (if truthy (trim (queryOf message w)) then [Alert unavailableAlert] else [])
  /\ (forall uses,
        chatHistory (session None documents uses initialWorld) = []
        /\ isLoading (session None documents uses initialWorld) = false).
Proof.
  cbv zeta. unfold handleSendMessage, handleSendMessage_settled, submit. simpl.
  destruct (truthy (trim (queryOf message w))); simpl.
  - repeat split; try reflexivity.
    + rewrite <- app_assoc. reflexivity.
    + apply (session_unavailable documents uses initialWorld).
    + apply (session_unavailable documents uses initialWorld).
  - repeat split; try reflexivity.
    + rewrite app_nil_r. reflexivity.
    + apply (session_unavailable documents uses initialWorld).
    + apply (session_unavailable documents uses initialWorld).
Qed.

(** ** The transcript invariant *)

Lemma step_preserves_sourcesImplyFinal (h h' : list ChatMessage.t) :
  TranscriptStep h h' -> Forall sourcesImplyFinal h -> Forall sourcesImplyFinal h'.
Proof.
  intros Hstep Hinv. destruct Hstep.
  - unfold appendTurn. apply Forall_app. split; [exact Hinv|].
    repeat constructor; intros H; exfalso; apply H; reflexivity.
  - unfold chunkUpdate. apply Forall_map.
    apply (Forall_impl _ (P := sourcesImplyFinal)); [|exact Hinv].
    intros m Hm. destruct (isLoadingEntry loadingId m); exact Hm.
  - unfold errorUpdate. apply Forall_map.
    apply (Forall_impl _ (P := sourcesImplyFinal)); [|exact Hinv].
    intros m Hm. destruct (isLoadingEntry loadingId m); [|exact Hm].
    intros _. reflexivity.
  - unfold completeUpdate. apply Forall_map.
    apply (Forall_impl _ (P := sourcesImplyFinal)); [|exact Hinv].
    intros m Hm. destruct (isLoadingEntry loadingId m); [|exact Hm].
    intros _. reflexivity.
Qed.

(** C9.  In every reachable transcript, a message that carries a sources
    list has [isLoading] false. *)
Theorem C9_sources_only_on_final (h : list ChatMessage.t) :
  Reachable h ->
  Forall (fun m => ChatMessage.sources m <> None ->
                   ChatMessage.isLoading m = Some false) h.
Proof.
  induction 1 as [|h h' _ IH Hstep]; [constructor|].
  exact (step_preserves_sourcesImplyFinal h h' Hstep IH).
Qed.

(** The transcripts of the component are reachable ones: every callback
    of a turn is a step of the transition system. *)
Lemma forAwait_reachable (sub : Submission) (items : list StreamItem) (w : World) :
  Reachable (chatHistory w) ->
  Reachable (chatHistory (fst (forAwait (onChunk sub) (fun st => st) items w))).
Proof.
  revert w. induction items as [|[text | cause] rest IH]; intros w Hw; simpl; auto.
  apply IH. unfold onChunk. simpl.
  eapply ReachStep; [exact Hw | apply StepChunk].
Qed.

Lemma runStream_reachable (ai : option GoogleGenAI) (documents : list Document.t)
    (sub : Submission) (w : World) :
  Reachable (chatHistory w) ->
  Reachable (chatHistory (runStream ai documents sub w)).
Proof.
  intros Hw. unfold runStream, generateTextStream.
  assert (Herr : forall cause w0, Reachable (chatHistory w0) ->
                   Reachable (chatHistory (onComplete_call ai sub (onError sub cause w0)))).
  { intros cause w0 H0. unfold onComplete_call, onError. simpl.
    eapply ReachStep; [exact H0 | apply StepError]. }
  destruct ai as [service|]; [|apply Herr; exact Hw].
  destruct (generateContentStream service _) as [cause | items].
  - apply Herr. exact Hw.
  - pose proof (forAwait_reachable sub items
                  (perform [StreamRequest (groundingPrompt documents (questionToSubmit sub))] w)
                  Hw) as Hfor.
    destruct (forAwait _ _ items _) as [w2 [cause|]]; simpl in Hfor.
    + apply Herr. exact Hfor.
    + exact Hfor.
Qed.

Lemma session_reachable (ai : option GoogleGenAI) (documents : list Document.t)
    (uses : list Use) (w : World) :
  Reachable (chatHistory w) ->
  Reachable (chatHistory (session ai documents uses w)).
Proof.
  revert w. unfold session.
  induction uses as [|u uses IH]; intros w Hw; simpl; [exact Hw|].
  apply IH. unfold useChat, handleSendMessage_settled, submit.
  destruct (negb (truthy (trim _))); [exact Hw|].
  destruct (negb (isAIServiceAvailable ai)); [exact Hw|].
  unfold onComplete_resume. simpl.
  eapply ReachStep; [|apply StepComplete].
  apply runStream_reachable. simpl.
  destruct (negb (truthy_opt (direct u))); simpl;
    (eapply ReachStep; [exact Hw | apply StepSubmit]).
Qed.

(** ** Fence stripping *)

Lemma eqb_eq (a b : jsstring) : eqb a b = true <-> a = b.
Proof.
  revert b. induction a as [|x a IH]; intros [|y b]; simpl; split; try congruence.
  - rewrite andb_true_iff, N.eqb_eq, IH. intros [-> ->]. reflexivity.
  - intros H. injection H as -> ->. rewrite N.eqb_refl, eqb_refl. reflexivity.
Qed.

Lemma trimStart_ws_prefix (ws s : jsstring) :
  forallb isWhiteSpace ws = true -> trimStart (ws ++ s) = trimStart s.
Proof.
  induction ws as [|c ws IH]; simpl; [reflexivity|].
  rewrite andb_true_iff. intros [Hc Hws]. rewrite Hc. exact (IH Hws).
Qed.

Lemma trimStart_head (c : N) (s : jsstring) :
  isWhiteSpace c = false -> trimStart (c :: s) = c :: s.
Proof. intros H. simpl. rewrite H. reflexivity. Qed.

Lemma trimStart_length_suffix (q r : jsstring) (x : N) :
  isWhiteSpace x = false ->
  (List.length r < List.length (trimStart (q ++ x :: r)))%nat.
Proof.
  intros Hx. induction q as [|c q IH]; simpl.
  - rewrite Hx. simpl. lia.
  - destruct (isWhiteSpace c); [exact IH|]. simpl. rewrite length_app. simpl. lia.
Qed.

Lemma isTrimmed_ends (s : jsstring) :
  isTrimmed s = true ->
  (exists a r, s = a :: r /\ isWhiteSpace a = false)
  /\ (exists r b, s = r ++ [b] /\ isWhiteSpace b = false).
Proof.
  destruct s as [|c s]; simpl; [discriminate|].
  rewrite andb_true_iff, !negb_true_iff. intros [Hc Hl]. split.
  - exists c, s. auto.
  - destruct (exists_last (l := c :: s)) as (r & b & Hrb); [discriminate|].
    exists r, b. split; [exact Hrb|].
    assert (Hlast : last (c :: s) c = b).
    { change (match s with [] => c | _ :: _ => last s c end) with (last (c :: s) c).
      rewrite Hrb. apply last_last. }
    change (match s with [] => c | _ :: _ => last s c end) with (last (c :: s) c) in Hl.
    rewrite Hlast in Hl. exact Hl.
Qed.

Lemma forallb_rev_ws (l : jsstring) :
  forallb isWhiteSpace (rev l) = forallb isWhiteSpace l.
Proof.
  induction l as [|c l IH]; simpl; [reflexivity|].
  rewrite forallb_app, IH. simpl. rewrite andb_true_r. apply andb_comm.
Qed.

Lemma trim_framed (ws1 core ws2 : jsstring) :
  forallb isWhiteSpace ws1 = true -> forallb isWhiteSpace ws2 = true ->
  isTrimmed core = true ->
  trim (ws1 ++ core ++ ws2) = core.
Proof.
  intros H1 H2 Hcore.
  destruct (isTrimmed_ends core Hcore) as [(a & r & Ha & Hwa) (r' & b & Hb & Hwb)].
  unfold trim, trimEnd. rewrite (trimStart_ws_prefix ws1 _ H1).
  rewrite Ha at 1. simpl app. rewrite (trimStart_head a _ Hwa).
  change (a :: r ++ ws2) with ((a :: r) ++ ws2). rewrite <- Ha.
  rewrite rev_app_distr.
  rewrite trimStart_ws_prefix by (rewrite forallb_rev_ws; exact H2).
  rewrite Hb, rev_app_distr. simpl. rewrite Hwb. simpl.
  rewrite rev_involutive. reflexivity.
Qed.

Section FenceMatching.
Context {R : Type}.

Lemma lit_end (l s : jsstring) (x : R) :
  Fence.lit l s (fun s8 => match s8 with [] => Some x | _ :: _ => None end)
  = if eqb s l then Some x else None.
Proof.
  unfold Fence.lit. revert s. induction l as [|k l IH]; intros [|c s]; simpl;
    try reflexivity.
  destruct (c =? k); simpl; [apply IH | reflexivity].
Qed.

Lemma lit_prefix (l s : jsstring) (k : jsstring -> option R) :
  Fence.lit l (l ++ s) k = k s.
Proof.
  unfold Fence.lit. induction l as [|c l IH]; simpl; [reflexivity|].
  rewrite N.eqb_refl. exact IH.
Qed.

(** A greedy run followed by a successful continuation: the whole run
    is taken. *)
Lemma greedyStar_takes (p : N -> bool) (m r : jsstring)
    (k : jsstring -> jsstring -> option R) (x : R) :
  forallb p m = true ->
  match r with c :: _ => p c = false | [] => True end ->
  k m r = Some x ->
  Fence.greedyStar p (m ++ r) k = Some x.
Proof.
  revert k. induction m as [|a m IH]; intros k Hm Hr Hk; simpl.
  - destruct r as [|c r]; simpl; [exact Hk|]. rewrite Hr. exact Hk.
  - simpl in Hm. apply andb_true_iff in Hm. destruct Hm as [Ha Hm]. rewrite Ha.
    rewrite (IH (fun m0 rest => k (a :: m0) rest) Hm Hr Hk). reflexivity.
Qed.

(** The tail of the pattern, an optional line feed, whitespace, the
    closing backticks and the end of input: it matches exactly the
    strings that are the backticks after leading whitespace. *)
Lemma closing_spec (s : jsstring) (x : R) :
  Fence.optChar 10 s (fun s6 =>
    Fence.greedyStar isWhiteSpace s6 (fun _ s7 =>
      Fence.lit Fence.backticks s7 (fun s8 =>
        match s8 with [] => Some x | _ :: _ => None end)))
  = if eqb (trimStart s) Fence.backticks then Some x else None.
Proof.
  assert (Hws : forall s6,
             Fence.greedyStar isWhiteSpace s6 (fun _ s7 =>
               Fence.lit Fence.backticks s7 (fun s8 =>
                 match s8 with [] => Some x | _ :: _ => None end))
             = if eqb (trimStart s6) Fence.backticks then Some x else None).
  { induction s6 as [|c r IH]; [reflexivity|].
    cbn [Fence.greedyStar trimStart].
    destruct (isWhiteSpace c) eqn:Hc.
    - rewrite IH. destruct (eqb (trimStart r) Fence.backticks); [reflexivity|].
      rewrite lit_end.
      destruct (eqb (c :: r) Fence.backticks) eqn:E; [|reflexivity].
      apply eqb_eq in E. injection E as -> _. discriminate Hc.
    - apply lit_end. }
  unfold Fence.optChar. destruct s as [|c r]; [apply Hws|].
  destruct (c =? 10) eqn:Hc; [|apply Hws].
  apply N.eqb_eq in Hc. subst c. rewrite !Hws. simpl.
  destruct (eqb (trimStart r) Fence.backticks); reflexivity.
Qed.

(** A lazy run stops at the first split its continuation accepts. *)
Lemma lazyStar_first (pre post : jsstring)
    (k : jsstring -> jsstring -> option R) (x : R) :
  (forall p q, pre = p ++ q -> q <> [] -> k p (q ++ post) = None) ->
  k pre post = Some x ->
  Fence.lazyStar Fence.anyChar (pre ++ post) k = Some x.
Proof.
  revert k. induction pre as [|a pre IH]; intros k Hnone Hk.
  - simpl. destruct post; simpl; rewrite Hk; reflexivity.
  - assert (H0 : k [] ((a :: pre) ++ post) = None)
      by (apply (Hnone [] (a :: pre) eq_refl); discriminate).
    simpl in H0 |- *. rewrite H0.
    apply IH; [|exact Hk].
    intros p q -> Hq. apply (Hnone (a :: p) q eq_refl Hq).
Qed.

End FenceMatching.

Lemma whitespace_not_word (c : N) : isWhiteSpace c = true -> Fence.isWordChar c = false.
Proof.
  unfold isWhiteSpace, Fence.isWordChar. intros H.
  apply not_true_is_false. intros Hw.
  repeat first [ rewrite orb_true_iff in H | rewrite andb_true_iff in H
               | rewrite N.eqb_eq in H | rewrite N.leb_le in H ].
  repeat first [ rewrite orb_true_iff in Hw | rewrite andb_true_iff in Hw
               | rewrite N.eqb_eq in Hw | rewrite N.leb_le in Hw ].
  lia.
Qed.

Lemma backticks_trimStart : trimStart Fence.backticks = Fence.backticks.
Proof. reflexivity. Qed.

(** The pattern after the optional word group, on the rest of a
    well-formed fence: the second capture is the payload. *)
Lemma afterTag_fenced (g1 : option jsstring) (lineEnd payload beforeClose : jsstring) :
  forallb isWhiteSpace lineEnd = true ->
  isTrimmed payload = true ->
  forallb isWhiteSpace beforeClose = true ->
  Fence.greedyStar isWhiteSpace (lineEnd ++ payload ++ beforeClose ++ Fence.backticks)
    (fun _ s3 =>
     Fence.optChar 10 s3 (fun s4 =>
     Fence.lazyStar Fence.anyChar s4 (fun g2 s5 =>
     Fence.optChar 10 s5 (fun s6 =>
     Fence.greedyStar isWhiteSpace s6 (fun _ s7 =>
     Fence.lit Fence.backticks s7 (fun s8 =>
     match s8 with
     | [] => Some (Fence.mkGroups g1 g2)
     | _ :: _ => None
     end))))))
  = Some (Fence.mkGroups g1 payload).
Proof.
  intros Hline Hpay Hclose.
  destruct (isTrimmed_ends payload Hpay) as [(a & r & Ha & Hwa) (r' & b & Hb & Hwb)].
  apply greedyStar_takes; [exact Hline | rewrite Ha; exact Hwa |].
  assert (Ha10 : (a =? 10) = false).
  { destruct (a =? 10) eqn:E; [|reflexivity].
    apply N.eqb_eq in E. subst a. discriminate Hwa. }
  cbv beta. unfold Fence.optChar at 1.
  assert (Hhead : payload ++ beforeClose ++ Fence.backticks
                  = a :: r ++ beforeClose ++ Fence.backticks)
    by (rewrite Ha; reflexivity).
  rewrite Hhead, Ha10, <- Hhead.
  apply lazyStar_first.
  - intros p q Hsplit Hq. rewrite closing_spec.
    destruct (eqb _ Fence.backticks) eqn:E; [|reflexivity].
    exfalso. apply eqb_eq in E.
    assert (Hq' : exists q', q = q' ++ [b]).
    { destruct (exists_last Hq) as (q' & b' & Hq'). exists q'.
      rewrite Hq' in Hsplit. rewrite Hb, app_assoc in Hsplit.
      apply app_inj_tail in Hsplit. destruct Hsplit as [_ ->]. exact Hq'. }
    destruct Hq' as [q' ->].
    pose proof (trimStart_length_suffix q' (beforeClose ++ Fence.backticks) b Hwb) as Hlen.
    rewrite <- app_assoc in E. simpl in E. rewrite E in Hlen.
    rewrite length_app in Hlen. simpl in Hlen. lia.
  - rewrite closing_spec, (trimStart_ws_prefix beforeClose _ Hclose), backticks_trimStart.
    reflexivity.
Qed.

(** The fence pattern on a well-formed fence: the first capture is the
    language tag (undefined when there is none), the second the
    payload. *)
Lemma matchFence_fenced (tag lineEnd payload beforeClose : jsstring) :
  forallb Fence.isWordChar tag = true ->
  forallb isWhiteSpace lineEnd = true -> lineEnd <> [] ->
  isTrimmed payload = true ->
  forallb isWhiteSpace beforeClose = true ->
  Fence.matchFence (fenced tag lineEnd payload beforeClose)
  = Some (Fence.mkGroups (match tag with [] => None | _ :: _ => Some tag end) payload).
Proof.
  intros Htag Hline Hne Hpay Hclose.
  unfold Fence.matchFence, fenced. rewrite lit_prefix.
  destruct lineEnd as [|l lineEnd]; [congruence|].
  assert (Hl : Fence.isWordChar l = false).
  { simpl in Hline. apply andb_true_iff in Hline. apply whitespace_not_word, Hline. }
  unfold Fence.optWordGroup.
  destruct tag as [|t tag].
  - simpl app at 1. cbn [Fence.greedyStar]. rewrite Hl.
    apply (afterTag_fenced None (l :: lineEnd) payload beforeClose Hline Hpay Hclose).
  - rewrite (greedyStar_takes Fence.isWordChar (t :: tag) _ _
               (Fence.mkGroups (Some (t :: tag)) payload) Htag).
    + reflexivity.
    + exact Hl.
    + apply (afterTag_fenced (Some (t :: tag)) (l :: lineEnd) payload beforeClose
               Hline Hpay Hclose).
Qed.

Lemma isTrimmed_trim (s : jsstring) : isTrimmed s = true -> trim s = s /\ s <> [].
Proof.
  intros H. split.
  - pose proof (trim_framed [] s [] eq_refl eq_refl H) as E.
    rewrite app_nil_r in E. exact E.
  - destruct s; [discriminate | discriminate].
Qed.

Lemma isTrimmed_ends_with (a b : N) (m : jsstring) :
  isTrimmed ((a :: m) ++ [b]) = negb (isWhiteSpace a) && negb (isWhiteSpace b).
Proof.
  unfold isTrimmed. change ((a :: m) ++ [b]) with (a :: (m ++ [b])) at 1.
  cbv iota. rewrite last_last. reflexivity.
Qed.

Lemma isTrimmed_fenced (tag lineEnd payload beforeClose : jsstring) :
  isTrimmed (fenced tag lineEnd payload beforeClose) = true.
Proof.
  unfold fenced.
  replace (Fence.backticks ++ tag ++ lineEnd ++ payload ++ beforeClose ++ Fence.backticks)
    with ((96 :: ([96; 96] ++ tag ++ lineEnd ++ payload ++ beforeClose ++ [96; 96]))
          ++ [96]).
  - rewrite isTrimmed_ends_with. reflexivity.
  - change Fence.backticks with [96; 96; 96]. simpl.
    rewrite <- !app_assoc. reflexivity.
Qed.

(** The payload of a fenced response, whatever whitespace surrounds the
    fence. *)
Lemma payloadOf_fenced (before tag lineEnd payload beforeClose after : jsstring) :
  forallb isWhiteSpace before = true -> forallb isWhiteSpace after = true ->
  forallb Fence.isWordChar tag = true ->
  forallb isWhiteSpace lineEnd = true -> lineEnd <> [] ->
  isTrimmed payload = true ->
  forallb isWhiteSpace beforeClose = true ->
  payloadOf (before ++ fenced tag lineEnd payload beforeClose ++ after) = payload.
Proof.
  intros Hb Ha Htag Hline Hne Hpay Hclose. unfold payloadOf.
  pose proof (isTrimmed_fenced tag lineEnd payload beforeClose) as Hcore.
  rewrite (trim_framed before _ after Hb Ha Hcore).
  rewrite (matchFence_fenced tag lineEnd payload beforeClose Htag Hline Hne Hpay Hclose).
  cbn [Fence.group2].
  destruct (isTrimmed_trim payload Hpay) as [Ht Hn].
  rewrite Ht. destruct payload; [congruence | reflexivity].
Qed.

(** Without opening backticks nothing is stripped. *)
Lemma payloadOf_unfenced (text : jsstring) :
  Json.stripPrefix Fence.backticks (trim text) = None ->
  payloadOf text = trim text.
Proof.
  intros H. unfold payloadOf, Fence.matchFence, Fence.lit. rewrite H. reflexivity.
Qed.

(** ** JSON parsing *)

Lemma skipWs_length (s : jsstring) : (List.length (Json.skipWs s) <= List.length s)%nat.
Proof.
  induction s as [|c s IH]; simpl; [lia|].
  destruct (Json.isWs c); simpl; lia.
Qed.

Lemma skipWs_cons_length (s r : jsstring) (c : N) :
  Json.skipWs s = c :: r -> (List.length r < List.length s)%nat.
Proof.
  intros H. pose proof (skipWs_length s) as L. rewrite H in L. simpl in L. lia.
Qed.

Lemma stripPrefix_length (kw s r : jsstring) :
  Json.stripPrefix kw s = Some r -> (List.length r <= List.length s)%nat.
Proof.
  revert s. induction kw as [|k kw IH]; intros [|c s]; simpl; intros H;
    try (injection H as <-; simpl; lia); try discriminate.
  destruct (c =? k); [|discriminate]. apply IH in H. lia.
Qed.

Lemma consTo_some (c : N) (o : option (jsstring * jsstring)) (b r : jsstring) :
  Json.consTo c o = Some (b, r) -> exists b', o = Some (b', r).
Proof.
  destruct o as [[b' r']|]; simpl; [|discriminate].
  intros H. injection H as _ <-. exists b'. reflexivity.
Qed.

Lemma parseString_length (s b r : jsstring) :
  Json.parseString s = Some (b, r) -> (List.length r < List.length s)%nat.
Proof.
  remember (List.length s) as n eqn:Hn.
  assert (Hle : (List.length s <= n)%nat) by lia. clear Hn.
  revert s b r Hle.
  induction n as [|n IH]; intros s b r Hle H.
  - destruct s; simpl in *; [discriminate | lia].
  - destruct s as [|c s]; [discriminate|]. simpl in Hle.
    cbn [Json.parseString] in H.
    destruct (c =? dquote).
    + injection H as _ <-. simpl. lia.
    + destruct (c =? ch "\").
      * destruct s as [|e s]; [discriminate|].
        destruct (e =? ch "u").
        -- destruct s as [|h1 [|h2 [|h3 [|h4 s]]]]; try discriminate.
           destruct (Json.hex4 h1 h2 h3 h4); [|discriminate].
           apply consTo_some in H. destruct H as [b' H].
           apply IH in H; simpl in *; lia.
        -- destruct (Json.unescape e); [|discriminate].
           apply consTo_some in H. destruct H as [b' H].
           apply IH in H; simpl in *; lia.
      * destruct (c <? 32); [discriminate|].
        apply consTo_some in H. destruct H as [b' H].
        apply IH in H; simpl in *; lia.
Qed.

Lemma takeDigits_length (s ds r : jsstring) :
  Json.takeDigits s = (ds, r) -> (List.length r <= List.length s)%nat.
Proof.
  revert ds r. induction s as [|c s IH]; intros ds r H; simpl in H.
  - injection H as _ <-. simpl. lia.
  - destruct (Json.isDigit c).
    + destruct (Json.takeDigits s) as [ds' r'] eqn:E. injection H as _ <-.
      specialize (IH ds' r' eq_refl). simpl. lia.
    + injection H as _ <-. simpl. lia.
Qed.

Lemma takeSign_length (s sign r : jsstring) :
  Json.takeSign s = (sign, r) -> (List.length r <= List.length s)%nat.
Proof.
  unfold Json.takeSign. destruct s as [|c s]; [intros H; injection H as _ <-; lia|].
  destruct (c =? ch "-"); intros H; injection H as _ <-; simpl; lia.
Qed.

Lemma takeInt_length (s part r : jsstring) :
  Json.takeInt s = Some (part, r) -> (List.length r < List.length s)%nat.
Proof.
  unfold Json.takeInt. destruct s as [|d s]; [discriminate|].
  destruct (d =? ch "0"); [intros H; injection H as _ <-; simpl; lia|].
  destruct (Json.isDigit d); [|discriminate].
  destruct (Json.takeDigits s) as [ds rest] eqn:E. apply takeDigits_length in E.
  intros H; injection H as _ <-. simpl. lia.
Qed.

Lemma takeFraction_length (s part r : jsstring) :
  Json.takeFraction s = Some (part, r) -> (List.length r <= List.length s)%nat.
Proof.
  unfold Json.takeFraction. destruct s as [|c s]; [intros H; injection H as _ <-; lia|].
  destruct (c =? ch "."); [|intros H; injection H as _ <-; simpl; lia].
  destruct (Json.takeDigits s) as [ds rest] eqn:E. apply takeDigits_length in E.
  destruct ds; [discriminate|]. intros H; injection H as _ <-. simpl. lia.
Qed.

Lemma takeExponent_length (s part r : jsstring) :
  Json.takeExponent s = Some (part, r) -> (List.length r <= List.length s)%nat.
Proof.
  unfold Json.takeExponent. destruct s as [|c s]; [intros H; injection H as _ <-; lia|].
  destruct ((c =? ch "e") || (c =? ch "E")); [|intros H; injection H as _ <-; simpl; lia].
  destruct s as [|g s'].
  - simpl. discriminate.
  - destruct ((g =? ch "+") || (g =? ch "-")).
    + destruct (Json.takeDigits s') as [ds rest] eqn:E. apply takeDigits_length in E.
      destruct ds; [discriminate|]. intros H; injection H as _ <-. simpl. lia.
    + destruct (Json.takeDigits (g :: s')) as [ds rest] eqn:E.
      apply takeDigits_length in E.
      destruct ds; [discriminate|]. intros H; injection H as _ <-. simpl in *. lia.
Qed.

Lemma parseNumber_length (s lexeme r : jsstring) :
  Json.parseNumber s = Some (lexeme, r) -> (List.length r < List.length s)%nat.
Proof.
  unfold Json.parseNumber.
  destruct (Json.takeSign s) as [sign s1] eqn:E1. apply takeSign_length in E1.
  destruct (Json.takeInt s1) as [[i s2]|] eqn:E2; [|discriminate].
  apply takeInt_length in E2.
  destruct (Json.takeFraction s2) as [[f s3]|] eqn:E3; [|discriminate].
  apply takeFraction_length in E3.
  destruct (Json.takeExponent s3) as [[e s4]|] eqn:E4; [|discriminate].
  apply takeExponent_length in E4.
  intros H. injection H as _ <-. lia.
Qed.

(** A parsed value consumed at least one character. *)
Lemma parse_consumes (fuel : nat) :
  (forall s v r, Json.parseValue fuel s = Json.Ok v r ->
                 (List.length r < List.length s)%nat)
  /\ (forall acc s v r, Json.parseElements fuel acc s = Json.Ok v r ->
                        (List.length r < List.length s)%nat)
  /\ (forall acc s v r, Json.parseMembers fuel acc s = Json.Ok v r ->
                        (List.length r < List.length s)%nat).
Proof.
  induction fuel as [|f (IHv & IHe & IHm)]; [repeat split; intros; discriminate|].
  split; [|split].
  - intros s v r. cbn [Json.parseValue].
    destruct (Json.skipWs s) as [|c t] eqn:Es; [discriminate|].
    apply skipWs_cons_length in Es.
    destruct (c =? ch "[").
    { destruct (Json.skipWs t) as [|c2 t2] eqn:Et; [discriminate|].
      apply skipWs_cons_length in Et.
      destruct (c2 =? ch "]"); intros H.
      - injection H as _ <-. lia.
      - apply IHe in H. lia. }
    destruct (c =? ch "{").
    { destruct (Json.skipWs t) as [|c2 t2] eqn:Et; [discriminate|].
      apply skipWs_cons_length in Et.
      destruct (c2 =? ch "}"); intros H.
      - injection H as _ <-. lia.
      - apply IHm in H. lia. }
    destruct (c =? dquote).
    { destruct (Json.parseString t) as [[b rest]|] eqn:E; [|discriminate].
      apply parseString_length in E. intros H. injection H as _ <-. lia. }
    destruct (c =? ch "t").
    { destruct (Json.stripPrefix (js "rue") t) as [rest|] eqn:E; [|discriminate].
      apply stripPrefix_length in E. intros H. injection H as _ <-. lia. }
    destruct (c =? ch "f").
    { destruct (Json.stripPrefix (js "alse") t) as [rest|] eqn:E; [|discriminate].
      apply stripPrefix_length in E. intros H. injection H as _ <-. lia. }
    destruct (c =? ch "n").
    { destruct (Json.stripPrefix (js "ull") t) as [rest|] eqn:E; [|discriminate].
      apply stripPrefix_length in E. intros H. injection H as _ <-. lia. }
    destruct (Json.parseNumber (c :: t)) as [[lexeme rest]|] eqn:E; [|discriminate].
    apply parseNumber_length in E. simpl in E. intros H. injection H as _ <-. lia.
  - intros acc s v r. cbn [Json.parseElements].
    destruct (Json.parseValue f s) as [v0 r0| |] eqn:Ev; try discriminate.
    apply IHv in Ev.
    destruct (Json.skipWs r0) as [|c t] eqn:Es; [discriminate|].
    apply skipWs_cons_length in Es.
    destruct (c =? ch ","); intros H.
    + apply IHe in H. lia.
    + destruct (c =? ch "]"); [|discriminate]. injection H as _ <-. lia.
  - intros acc s v r. cbn [Json.parseMembers].
    destruct (Json.skipWs s) as [|q t] eqn:Es; [discriminate|].
    apply skipWs_cons_length in Es.
    destruct (q =? dquote); [|discriminate].
    destruct (Json.parseString t) as [[key r1]|] eqn:Ek; [|discriminate].
    apply parseString_length in Ek.
    destruct (Json.skipWs r1) as [|colon r2] eqn:E1; [discriminate|].
    apply skipWs_cons_length in E1.
    destruct (colon =? ch ":"); [|discriminate].
    destruct (Json.parseValue f r2) as [v0 r3| |] eqn:Ev; try discriminate.
    apply IHv in Ev.
    destruct (Json.skipWs r3) as [|c t'] eqn:E3; [discriminate|].
    apply skipWs_cons_length in E3.
    destruct (c =? ch ","); intros H.
    + apply IHm in H. lia.
    + destruct (c =? ch "}"); [|discriminate]. injection H as _ <-. lia.
Qed.

(** With fuel above twice the input length the descent is never cut
    short. *)
Lemma parse_fuel (fuel : nat) :
  (forall s, (2 * List.length s + 1 <= fuel)%nat ->
             Json.parseValue fuel s <> Json.Exhausted)
  /\ (forall acc s, (2 * List.length s + 2 <= fuel)%nat ->
                    Json.parseElements fuel acc s <> Json.Exhausted)
  /\ (forall acc s, (2 * List.length s + 2 <= fuel)%nat ->
                    Json.parseMembers fuel acc s <> Json.Exhausted).
Proof.
  induction fuel as [|f (IHv & IHe & IHm)]; [repeat split; intros; lia|].
  split; [|split].
  - intros s Hf. cbn [Json.parseValue].
    destruct (Json.skipWs s) as [|c t] eqn:Es; [discriminate|].
    apply skipWs_cons_length in Es.
    destruct (c =? ch "[").
    { destruct (Json.skipWs t) as [|c2 t2]; [discriminate|].
      destruct (c2 =? ch "]"); [discriminate|]. apply IHe. lia. }
    destruct (c =? ch "{").
    { destruct (Json.skipWs t) as [|c2 t2]; [discriminate|].
      destruct (c2 =? ch "}"); [discriminate|]. apply IHm. lia. }
    destruct (c =? dquote).
    { destruct (Json.parseString t) as [[b rest]|]; discriminate. }
    destruct (c =? ch "t").
    { destruct (Json.stripPrefix (js "rue") t); discriminate. }
    destruct (c =? ch "f").
    { destruct (Json.stripPrefix (js "alse") t); discriminate. }
    destruct (c =? ch "n").
    { destruct (Json.stripPrefix (js "ull") t); discriminate. }
    destruct (Json.parseNumber (c :: t)) as [[lexeme rest]|]; discriminate.
  - intros acc s Hf. cbn [Json.parseElements].
    destruct (Json.parseValue f s) as [v0 r0| |] eqn:Ev.
    + apply (proj1 (parse_consumes f)) in Ev.
      destruct (Json.skipWs r0) as [|c t] eqn:Es; [discriminate|].
      apply skipWs_cons_length in Es.
      destruct (c =? ch ","); [apply IHe; lia|].
      destruct (c =? ch "]"); discriminate.
    + discriminate.
    + exfalso. revert Ev. apply IHv. lia.
  - intros acc s Hf. cbn [Json.parseMembers].
    destruct (Json.skipWs s) as [|q t] eqn:Es; [discriminate|].
    apply skipWs_cons_length in Es.
    destruct (q =? dquote); [|discriminate].
    destruct (Json.parseString t) as [[key r1]|] eqn:Ek; [|discriminate].
    apply parseString_length in Ek.
    destruct (Json.skipWs r1) as [|colon r2] eqn:E1; [discriminate|].
    apply skipWs_cons_length in E1.
    destruct (colon =? ch ":"); [|discriminate].
    destruct (Json.parseValue f r2) as [v0 r3| |] eqn:Ev.
    + apply (proj1 (parse_consumes f)) in Ev.
      destruct (Json.skipWs r3) as [|c t'] eqn:E3; [discriminate|].
      apply skipWs_cons_length in E3.
      destruct (c =? ch ","); [apply IHm; lia|].
      destruct (c =? ch "}"); discriminate.
    + discriminate.
    + exfalso. revert Ev. apply IHv. lia.
Qed.

(** [JSON.parse] is never cut short: it returns a value or reports a
    syntax error. *)
Lemma parse_fuel_suffices (text : jsstring) :
  Json.parseValue (Json.parseFuel text) text <> Json.Exhausted.
Proof. apply (proj1 (parse_fuel (Json.parseFuel text))). unfold Json.parseFuel. lia. Qed.

(** ** [JSON.parse] and the JSON grammar *)

(** *** Whitespace *)

Lemma isWs_spec (c : N) :
  Json.isWs c = true <-> (c = 32 \/ c = 9 \/ c = 10 \/ c = 13).
Proof.
  unfold Json.isWs. rewrite !orb_true_iff, !N.eqb_eq. tauto.
Qed.

Lemma skipWs_split (s : jsstring) :
  exists w, s = w ++ Json.skipWs s /\ Grammar.Ws w.
Proof.
  induction s as [|c s (w & Hs & Hw)]; simpl.
  - exists []. split; [reflexivity | constructor].
  - destruct (Json.isWs c) eqn:Ec.
    + exists (c :: w). split; [simpl; congruence|].
      constructor; [apply isWs_spec; exact Ec | exact Hw].
    + exists []. split; [reflexivity | constructor].
Qed.

Lemma skipWs_ws_app (w x : jsstring) :
  Grammar.Ws w -> Json.skipWs (w ++ x) = Json.skipWs x.
Proof.
  induction 1 as [|c w Hc _ IH]; [reflexivity|].
  simpl. apply isWs_spec in Hc. rewrite Hc. exact IH.
Qed.

Lemma skipWs_ws (w : jsstring) : Grammar.Ws w -> Json.skipWs w = [].
Proof.
  intros H. rewrite <- (app_nil_r w). rewrite (skipWs_ws_app w [] H). reflexivity.
Qed.

Lemma skipWs_nil_ws (s : jsstring) : Json.skipWs s = [] -> Grammar.Ws s.
Proof.
  intros H. destruct (skipWs_split s) as (w & Hs & Hw).
  rewrite H, app_nil_r in Hs. subst w. exact Hw.
Qed.

Lemma skipWs_stop (c : N) (s : jsstring) :
  Json.isWs c = false -> Json.skipWs (c :: s) = c :: s.
Proof. intros H. simpl. rewrite H. reflexivity. Qed.

Lemma parseValue_ws (fuel : nat) (w x : jsstring) :
  Grammar.Ws w -> Json.parseValue fuel (w ++ x) = Json.parseValue fuel x.
Proof.
  intros H. destruct fuel as [|f]; [reflexivity|].
  cbn [Json.parseValue]. rewrite (skipWs_ws_app w x H). reflexivity.
Qed.

(** *** Keywords *)

Lemma stripPrefix_split (kw s r : jsstring) :
  Json.stripPrefix kw s = Some r -> s = kw ++ r.
Proof.
  revert s. induction kw as [|k kw IH]; intros [|c s]; simpl; intros H;
    try (injection H as <-; reflexivity); try discriminate.
  destruct (c =? k) eqn:E; [|discriminate].
  apply N.eqb_eq in E. subst c. f_equal. apply IH. exact H.
Qed.

(** *** Strings *)

Lemma hexVal_spec (c x : N) : Json.hexVal c = Some x <-> Grammar.Hex c x.
Proof.
  unfold Json.hexVal, Json.isDigit. split.
  - destruct ((48 <=? c) && (c <=? 57)) eqn:E1.
    { intros H. injection H as <-. apply andb_true_iff in E1.
      destruct E1 as [A B]. apply N.leb_le in A, B. constructor; assumption. }
    destruct ((97 <=? c) && (c <=? 102)) eqn:E2.
    { intros H. injection H as <-. apply andb_true_iff in E2.
      destruct E2 as [A B]. apply N.leb_le in A, B. constructor; assumption. }
    destruct ((65 <=? c) && (c <=? 70)) eqn:E3; [|discriminate].
    intros H. injection H as <-. apply andb_true_iff in E3.
    destruct E3 as [A B]. apply N.leb_le in A, B. constructor; assumption.
  - intros [c' A B | c' A B | c' A B].
    + replace ((48 <=? c') && (c' <=? 57)) with true; [reflexivity|].
      symmetry. apply andb_true_iff. split; apply N.leb_le; assumption.
    + replace ((48 <=? c') && (c' <=? 57)) with false.
      * replace ((97 <=? c') && (c' <=? 102)) with true; [reflexivity|].
        symmetry. apply andb_true_iff. split; apply N.leb_le; assumption.
      * symmetry. apply andb_false_iff. right. apply N.leb_gt. lia.
    + replace ((48 <=? c') && (c' <=? 57)) with false.
      * replace ((97 <=? c') && (c' <=? 102)) with false.
        -- replace ((65 <=? c') && (c' <=? 70)) with true; [reflexivity|].
           symmetry. apply andb_true_iff. split; apply N.leb_le; assumption.
        -- symmetry. apply andb_false_iff. left. apply N.leb_gt. lia.
      * symmetry. apply andb_false_iff. right. apply N.leb_gt. lia.
Qed.

Lemma hex4_spec (a b c d u : N) :
  Json.hex4 a b c d = Some u <->
  exists x y z w, Grammar.Hex a x /\ Grammar.Hex b y /\ Grammar.Hex c z
                  /\ Grammar.Hex d w /\ u = ((x * 16 + y) * 16 + z) * 16 + w.
Proof.
  unfold Json.hex4. split.
  - destruct (Json.hexVal a) as [x|] eqn:Ea; [|discriminate].
    destruct (Json.hexVal b) as [y|] eqn:Eb; [|discriminate].
    destruct (Json.hexVal c) as [z|] eqn:Ec; [|discriminate].
    destruct (Json.hexVal d) as [w|] eqn:Ed; [|discriminate].
    intros H. injection H as <-. exists x, y, z, w.
    rewrite <- !hexVal_spec. auto.
  - intros (x & y & z & w & Ha & Hb & Hc & Hd & ->).
    apply hexVal_spec in Ha, Hb, Hc, Hd. rewrite Ha, Hb, Hc, Hd. reflexivity.
Qed.

Lemma unescape_spec (e d : N) : Json.unescape e = Some d <-> Grammar.Escape e d.
Proof.
  unfold Json.unescape. split.
  - destruct (e =? dquote) eqn:E1.
    { apply N.eqb_eq in E1. subst e. intros H. injection H as <-. constructor. }
    destruct (e =? ch "\") eqn:E2.
    { apply N.eqb_eq in E2. subst e. intros H. injection H as <-. constructor. }
    destruct (e =? ch "/") eqn:E3.
    { apply N.eqb_eq in E3. subst e. intros H. injection H as <-. constructor. }
    destruct (e =? ch "b") eqn:E4.
    { apply N.eqb_eq in E4. subst e. intros H. injection H as <-. constructor. }
    destruct (e =? ch "f") eqn:E5.
    { apply N.eqb_eq in E5. subst e. intros H. injection H as <-. constructor. }
    destruct (e =? ch "n") eqn:E6.
    { apply N.eqb_eq in E6. subst e. intros H. injection H as <-. constructor. }
    destruct (e =? ch "r") eqn:E7.
    { apply N.eqb_eq in E7. subst e. intros H. injection H as <-. constructor. }
    destruct (e =? ch "t") eqn:E8; [|discriminate].
    apply N.eqb_eq in E8. subst e. intros H. injection H as <-. constructor.
  - intros []; reflexivity.
Qed.

Lemma escape_not_u (e d : N) : Grammar.Escape e d -> (e =? ch "u") = false.
Proof. intros []; reflexivity. Qed.

Lemma parseString_sound (s dec r : jsstring) :
  Json.parseString s = Some (dec, r) ->
  exists src, s = src ++ 34 :: r /\ Grammar.Chars src dec.
Proof.
  remember (List.length s) as n eqn:Hn.
  assert (Hle : (List.length s <= n)%nat) by lia. clear Hn.
  revert s dec r Hle.
  induction n as [|n IH]; intros s dec r Hle H.
  - destruct s; simpl in *; [discriminate | lia].
  - destruct s as [|c s]; [discriminate|]. simpl in Hle.
    cbn [Json.parseString] in H.
    destruct (c =? dquote) eqn:Eq.
    { apply N.eqb_eq in Eq. subst c. injection H as <- <-.
      exists []. split; [reflexivity | constructor]. }
    destruct (c =? ch "\") eqn:Eb.
    + apply N.eqb_eq in Eb. subst c.
      destruct s as [|e s]; [discriminate|].
      destruct (e =? ch "u") eqn:Eu.
      * apply N.eqb_eq in Eu. subst e.
        destruct s as [|h1 [|h2 [|h3 [|h4 s]]]]; try discriminate.
        destruct (Json.hex4 h1 h2 h3 h4) as [u|] eqn:Eh; [|discriminate].
        apply hex4_spec in Eh. destruct Eh as (x & y & z & w & Ha & Hb & Hc & Hd & ->).
        destruct (Json.parseString s) as [[body rest]|] eqn:Ep; [|discriminate].
        injection H as <- <-.
        apply IH in Ep; [|simpl in Hle; lia].
        destruct Ep as (src & -> & Hsrc).
        exists (92 :: 117 :: h1 :: h2 :: h3 :: h4 :: src).
        split; [reflexivity|]. constructor; assumption.
      * destruct (Json.unescape e) as [d|] eqn:Ee; [|discriminate].
        apply unescape_spec in Ee.
        destruct (Json.parseString s) as [[body rest]|] eqn:Ep; [|discriminate].
        injection H as <- <-.
        apply IH in Ep; [|simpl in Hle; lia].
        destruct Ep as (src & -> & Hsrc).
        exists (92 :: e :: src). split; [reflexivity|]. constructor; assumption.
    + destruct (c <? 32) eqn:Ec; [discriminate|].
      destruct (Json.parseString s) as [[body rest]|] eqn:Ep; [|discriminate].
      injection H as <- <-.
      apply IH in Ep; [|lia].
      destruct Ep as (src & -> & Hsrc).
      exists (c :: src). split; [reflexivity|].
      apply N.ltb_ge in Ec. apply N.eqb_neq in Eq, Eb.
      constructor; assumption.
Qed.

Lemma parseString_complete (src dec r : jsstring) :
  Grammar.Chars src dec -> Json.parseString (src ++ 34 :: r) = Some (dec, r).
Proof.
  induction 1 as [|c src dec Hc Hq Hb _ IH|e d src dec He _ IH
                 |a b c d x y z w src dec Ha Hb Hc Hd _ IH].
  - reflexivity.
  - cbn [app Json.parseString].
    replace (c =? dquote) with false by (symmetry; apply N.eqb_neq; exact Hq).
    replace (c =? ch "\") with false by (symmetry; apply N.eqb_neq; exact Hb).
    replace (c <? 32) with false by (symmetry; apply N.ltb_ge; exact Hc).
    rewrite IH. reflexivity.
  - cbn [app Json.parseString].
    change (92 =? dquote) with false. change (92 =? ch "\") with true. cbv iota.
    rewrite (escape_not_u e d He).
    apply unescape_spec in He. rewrite He, IH. reflexivity.
  - cbn [app Json.parseString].
    change (92 =? dquote) with false. change (92 =? ch "\") with true. cbv iota.
    change (117 =? ch "u") with true. cbv iota.
    replace (Json.hex4 a b c d) with (Some ((((x * 16 + y) * 16 + z) * 16 + w))).
    + rewrite IH. reflexivity.
    + symmetry. apply hex4_spec. exists x, y, z, w. auto.
Qed.
(** *** Numbers *)

Lemma isDigit_spec (c : N) : Json.isDigit c = true <-> Grammar.Digit c.
Proof.
  unfold Json.isDigit, Grammar.Digit. rewrite andb_true_iff, !N.leb_le. tauto.
Qed.

Lemma isDigit_false (c : N) : Json.isDigit c = false <-> ~ Grammar.Digit c.
Proof.
  rewrite <- isDigit_spec. destruct (Json.isDigit c); split; congruence.
Qed.

Lemma takeDigits_sound (s ds r : jsstring) :
  Json.takeDigits s = (ds, r) -> s = ds ++ r /\ Grammar.Digits ds.
Proof.
  revert ds r. induction s as [|c s IH]; intros ds r H; simpl in H.
  - injection H as <- <-. split; [reflexivity | constructor].
  - destruct (Json.isDigit c) eqn:Ec.
    + destruct (Json.takeDigits s) as [ds' r'] eqn:E. injection H as <- <-.
      destruct (IH ds' r' eq_refl) as [-> Hds].
      split; [reflexivity|]. constructor; [apply isDigit_spec; exact Ec | exact Hds].
    + injection H as <- <-. split; [reflexivity | constructor].
Qed.

Lemma takeDigits_complete (ds x : jsstring) :
  Grammar.Digits ds -> (forall c t, x = c :: t -> ~ Grammar.Digit c) ->
  Json.takeDigits (ds ++ x) = (ds, x).
Proof.
  intros Hds Hx. induction Hds as [|d ds Hd _ IH]; simpl.
  - destruct x as [|c t]; [reflexivity|]. simpl.
    replace (Json.isDigit c) with false; [reflexivity|].
    symmetry. apply isDigit_false. exact (Hx c t eq_refl).
  - apply isDigit_spec in Hd. rewrite Hd, IH. reflexivity.
Qed.

Lemma takeSign_sound (s sign r : jsstring) :
  Json.takeSign s = (sign, r) -> s = sign ++ r /\ Grammar.Sign sign.
Proof.
  unfold Json.takeSign. destruct s as [|c s].
  - intros H. injection H as <- <-. split; [reflexivity | constructor].
  - destruct (c =? ch "-") eqn:E; intros H; injection H as <- <-.
    + apply N.eqb_eq in E. subst c. split; [reflexivity | constructor].
    + split; [reflexivity | constructor].
Qed.

Lemma takeInt_sound (s part r : jsstring) :
  Json.takeInt s = Some (part, r) -> s = part ++ r /\ Grammar.IntPart part.
Proof.
  unfold Json.takeInt. destruct s as [|d s]; [discriminate|].
  destruct (d =? ch "0") eqn:E0.
  - intros H. injection H as <- <-. apply N.eqb_eq in E0. subst d.
    split; [reflexivity | constructor].
  - destruct (Json.isDigit d) eqn:Ed; [|discriminate].
    destruct (Json.takeDigits s) as [ds rest] eqn:E. intros H. injection H as <- <-.
    destruct (takeDigits_sound s ds rest E) as [-> Hds].
    split; [reflexivity|].
    apply isDigit_spec in Ed. destruct Ed as [A B]. apply N.eqb_neq in E0.
    change (ch "0") with 48 in E0.
    constructor; [lia | exact B | exact Hds].
Qed.

Lemma takeFraction_sound (s part r : jsstring) :
  Json.takeFraction s = Some (part, r) -> s = part ++ r /\ Grammar.Fraction part.
Proof.
  unfold Json.takeFraction. destruct s as [|c s].
  - intros H. injection H as <- <-. split; [reflexivity | constructor].
  - destruct (c =? ch ".") eqn:E.
    + destruct (Json.takeDigits s) as [ds rest] eqn:Ed.
      destruct ds as [|d ds]; [discriminate|].
      intros H. injection H as <- <-. apply N.eqb_eq in E. subst c.
      destruct (takeDigits_sound s (d :: ds) rest Ed) as [-> Hds].
      split; [reflexivity|]. inversion Hds; subst. constructor; assumption.
    + intros H. injection H as <- <-. split; [reflexivity | constructor].
Qed.

Lemma takeExponent_sound (s part r : jsstring) :
  Json.takeExponent s = Some (part, r) -> s = part ++ r /\ Grammar.Exponent part.
Proof.
  unfold Json.takeExponent. destruct s as [|c s].
  - intros H. injection H as <- <-. split; [reflexivity | constructor].
  - destruct ((c =? ch "e") || (c =? ch "E")) eqn:E.
    + assert (Hc : c = 101 \/ c = 69).
      { apply orb_true_iff in E. destruct E as [E | E]; apply N.eqb_eq in E; auto. }
      assert (Hsign : exists esign r1,
                 (match s with
                  | g :: r' =>
                      if (g =? ch "+") || (g =? ch "-") then ([g], r') else ([], s)
                  | [] => ([], s)
                  end) = (esign, r1)
                 /\ s = esign ++ r1 /\ Grammar.ExpSign esign).
      { destruct s as [|g r'].
        - exists [], []. repeat split; constructor.
        - destruct ((g =? ch "+") || (g =? ch "-")) eqn:Eg.
          + exists [g], r'. split; [reflexivity|]. split; [reflexivity|].
            apply orb_true_iff in Eg.
            destruct Eg as [Eg | Eg]; apply N.eqb_eq in Eg; subst g; constructor.
          + exists [], (g :: r'). repeat split; constructor. }
      destruct Hsign as (esign & r1 & -> & Hs & Hsg).
      destruct (Json.takeDigits r1) as [ds rest] eqn:Ed.
      destruct ds as [|d ds]; [discriminate|].
      intros H. injection H as <- <-.
      destruct (takeDigits_sound r1 (d :: ds) rest Ed) as [-> Hds].
      subst s. split; [simpl; rewrite <- app_assoc; reflexivity|].
      inversion Hds; subst. constructor; assumption.
    + intros H. injection H as <- <-. split; [reflexivity | constructor].
Qed.

Lemma parseNumber_sound (s lexeme r : jsstring) :
  Json.parseNumber s = Some (lexeme, r) -> s = lexeme ++ r /\ Grammar.Number lexeme.
Proof.
  unfold Json.parseNumber.
  destruct (Json.takeSign s) as [sign s1] eqn:E1.
  destruct (Json.takeInt s1) as [[intPart s2]|] eqn:E2; [|discriminate].
  destruct (Json.takeFraction s2) as [[fracPart s3]|] eqn:E3; [|discriminate].
  destruct (Json.takeExponent s3) as [[expPart s4]|] eqn:E4; [|discriminate].
  intros H. injection H as <- <-.
  apply takeSign_sound in E1. apply takeInt_sound in E2.
  apply takeFraction_sound in E3. apply takeExponent_sound in E4.
  destruct E1 as [-> H1], E2 as [-> H2], E3 as [-> H3], E4 as [-> H4].
  split; [rewrite <- !app_assoc; reflexivity|].
  constructor; assumption.
Qed.

(** What follows each part of a number in a text. *)
Lemma after_exponent (exp r : jsstring) (c : N) (t : jsstring) :
  Grammar.Exponent exp -> Grammar.Delimited r -> exp ++ r = c :: t ->
  c = 101 \/ c = 69 \/ c = 32 \/ c = 9 \/ c = 10 \/ c = 13 \/ c = 44 \/ c = 93
  \/ c = 125.
Proof.
  intros [|e sign d ds He _ _ _] Hr H.
  - simpl in H. subst r. simpl in Hr. tauto.
  - simpl in H. injection H as <- _. tauto.
Qed.

Lemma after_fraction (frac exp r : jsstring) (c : N) (t : jsstring) :
  Grammar.Fraction frac -> Grammar.Exponent exp -> Grammar.Delimited r ->
  frac ++ exp ++ r = c :: t ->
  c = 46 \/ c = 101 \/ c = 69 \/ c = 32 \/ c = 9 \/ c = 10 \/ c = 13 \/ c = 44
  \/ c = 93 \/ c = 125.
Proof.
  intros [|d ds _ _] He Hr H.
  - simpl in H. pose proof (after_exponent exp r c t He Hr H). tauto.
  - simpl in H. injection H as <- _. tauto.
Qed.

Ltac by_tests :=
  repeat match goal with
         | H : (_ || _) = true |- _ => apply orb_true_iff in H; destruct H as [H | H]
         | H : (_ || _) = false |- _ => apply orb_false_iff in H; destruct H
         | H : (_ =? _) = true |- _ => apply N.eqb_eq in H
         | H : (_ =? _) = false |- _ => apply N.eqb_neq in H
         | H : Json.isDigit _ = true |- _ => apply isDigit_spec in H
         | H : Json.isDigit _ = false |- _ => apply isDigit_false in H
         | H : Grammar.Digit _ |- _ => destruct H
         | H : ~ Grammar.Digit _ |- _ => unfold Grammar.Digit in H
         | H : _ \/ _ |- _ => destruct H
         end;
  try lia.

Lemma takeExponent_complete (exp r : jsstring) :
  Grammar.Exponent exp -> Grammar.Delimited r ->
  Json.takeExponent (exp ++ r) = Some (exp, r).
Proof.
  intros Hexp Hr.
  assert (Hdigits : forall c t, r = c :: t -> ~ Grammar.Digit c).
  { intros c t -> [A B]. simpl in Hr. lia. }
  destruct Hexp as [|e sign d ds He Hsign Hd Hds].
  - simpl. destruct r as [|c t]; [reflexivity|]. simpl in Hr |- *.
    destruct ((c =? 101) || (c =? 69)) eqn:E; [exfalso; by_tests | reflexivity].
  - assert (Htake : Json.takeDigits ((d :: ds) ++ r) = (d :: ds, r)).
    { apply takeDigits_complete; [constructor; assumption | exact Hdigits]. }
    simpl. simpl in Htake.
    destruct ((e =? 101) || (e =? 69)) eqn:E; [|exfalso; by_tests].
    destruct Hsign; simpl.
    + destruct ((d =? 43) || (d =? 45)) eqn:Eg; [exfalso; by_tests|].
      simpl. rewrite Htake. reflexivity.
    + rewrite Htake. reflexivity.
    + rewrite Htake. reflexivity.
Qed.

Lemma takeFraction_complete (frac x : jsstring) :
  Grammar.Fraction frac ->
  (forall c t, x = c :: t -> ~ Grammar.Digit c /\ c <> 46) ->
  Json.takeFraction (frac ++ x) = Some (frac, x).
Proof.
  intros [|d ds Hd Hds] Hx.
  - simpl. destruct x as [|c t]; [reflexivity|]. simpl.
    destruct (c =? 46) eqn:E; [|reflexivity].
    exfalso. apply N.eqb_eq in E. exact (proj2 (Hx c t eq_refl) E).
  - assert (Htake : Json.takeDigits ((d :: ds) ++ x) = (d :: ds, x)).
    { apply takeDigits_complete; [constructor; assumption|].
      intros c t E. exact (proj1 (Hx c t E)). }
    simpl. simpl in Htake. rewrite Htake. reflexivity.
Qed.

Lemma takeInt_complete (part x : jsstring) :
  Grammar.IntPart part ->
  (forall c t, x = c :: t -> ~ Grammar.Digit c) ->
  Json.takeInt (part ++ x) = Some (part, x).
Proof.
  intros [|d ds A B Hds] Hx.
  - reflexivity.
  - simpl.
    destruct (d =? 48) eqn:E0; [exfalso; by_tests|].
    destruct (Json.isDigit d) eqn:Ed; [|exfalso; by_tests].
    rewrite takeDigits_complete; [reflexivity | exact Hds | exact Hx].
Qed.

Lemma parseNumber_complete (lexeme r : jsstring) :
  Grammar.Number lexeme -> Grammar.Delimited r ->
  Json.parseNumber (lexeme ++ r) = Some (lexeme, r).
Proof.
  intros [sign int frac exp Hsign Hint Hfrac Hexp] Hr.
  unfold Json.parseNumber. rewrite <- !app_assoc.
  assert (Hs : Json.takeSign (sign ++ int ++ frac ++ exp ++ r)
               = (sign, int ++ frac ++ exp ++ r)).
  { destruct Hsign; [|reflexivity].
    destruct Hint as [|d ds A B _]; [reflexivity|]. simpl.
    destruct (d =? 45) eqn:E; [exfalso; by_tests | reflexivity]. }
  rewrite Hs.
  rewrite (takeInt_complete int (frac ++ exp ++ r) Hint).
  2:{ intros c t E [A B].
      pose proof (after_fraction frac exp r c t Hfrac Hexp Hr E). lia. }
  rewrite (takeFraction_complete frac (exp ++ r) Hfrac).
  2:{ intros c t E. pose proof (after_exponent exp r c t Hexp Hr E).
      split; [intros [A B]; lia | lia]. }
  rewrite (takeExponent_complete exp r Hexp Hr). reflexivity.
Qed.

Lemma number_head (lexeme : jsstring) :
  Grammar.Number lexeme ->
  exists c t, lexeme = c :: t /\ (c = 45 \/ Grammar.Digit c).
Proof.
  intros [sign int frac exp Hsign Hint _ _].
  destruct Hsign.
  - destruct Hint as [|d ds A B _]; simpl; eexists _, _;
      (split; [reflexivity|]); right; split; lia.
  - simpl. eexists _, _. split; [reflexivity|]. left. reflexivity.
Qed.
(** *** The descent is sound: what it accepts is in the grammar *)

Ltac list_eq := repeat (rewrite <- app_assoc || cbn [app]); reflexivity.

Lemma parse_sound_fuel (fuel : nat) :
  (forall s v r, Json.parseValue fuel s = Json.Ok v r ->
     exists w src, s = w ++ src ++ r /\ Grammar.Ws w /\ Grammar.Value src v)
  /\ (forall acc s v r, Json.parseElements fuel acc s = Json.Ok v r ->
        exists src items,
          s = src ++ 93 :: r /\ Grammar.Elements src items
          /\ v = Json.Array (rev acc ++ items))
  /\ (forall acc s v r, Json.parseMembers fuel acc s = Json.Ok v r ->
        exists src members,
          s = src ++ 125 :: r /\ Grammar.Members src members
          /\ v = Json.Object (rev acc ++ members)).
Proof.
  induction fuel as [|f (IHv & IHe & IHm)]; [repeat split; intros; discriminate|].
  split; [|split].
  - intros s v r. cbn [Json.parseValue].
    destruct (skipWs_split s) as (w & Hs & Hw).
    destruct (Json.skipWs s) as [|c t] eqn:Es; [discriminate|].
    destruct (c =? ch "[") eqn:E1.
    { apply N.eqb_eq in E1. subst c.
      destruct (skipWs_split t) as (w' & Ht & Hw').
      destruct (Json.skipWs t) as [|c2 r2] eqn:Et; [discriminate|].
      destruct (c2 =? ch "]") eqn:E2.
      - intros H. injection H as <- <-. apply N.eqb_eq in E2. subst c2.
        exists w, (91 :: w' ++ [93]).
        split; [|split; [exact Hw | constructor; exact Hw']].
        rewrite Hs, Ht. list_eq.
      - intros H. apply IHe in H. destruct H as (src & items & Ht' & Hel & ->).
        exists w, (91 :: src ++ [93]).
        split; [|split; [exact Hw | constructor; exact Hel]].
        rewrite Hs, Ht'. list_eq. }
    destruct (c =? ch "{") eqn:E2.
    { apply N.eqb_eq in E2. subst c.
      destruct (skipWs_split t) as (w' & Ht & Hw').
      destruct (Json.skipWs t) as [|c2 r2] eqn:Et; [discriminate|].
      destruct (c2 =? ch "}") eqn:E3.
      - intros H. injection H as <- <-. apply N.eqb_eq in E3. subst c2.
        exists w, (123 :: w' ++ [125]).
        split; [|split; [exact Hw | constructor; exact Hw']].
        rewrite Hs, Ht. list_eq.
      - intros H. apply IHm in H. destruct H as (src & members & Ht' & Hm & ->).
        exists w, (123 :: src ++ [125]).
        split; [|split; [exact Hw | constructor; exact Hm]].
        rewrite Hs, Ht'. list_eq. }
    destruct (c =? dquote) eqn:E3.
    { apply N.eqb_eq in E3. subst c.
      destruct (Json.parseString t) as [[body rest]|] eqn:Ep; [|discriminate].
      intros H. injection H as <- <-.
      apply parseString_sound in Ep. destruct Ep as (src & Ht & Hc).
      exists w, (34 :: src ++ [34]).
      split; [|split; [exact Hw | constructor; exact Hc]].
      rewrite Hs, Ht. list_eq. }
    destruct (c =? ch "t") eqn:E4.
    { apply N.eqb_eq in E4. subst c.
      destruct (Json.stripPrefix (js "rue") t) as [rest|] eqn:Ep; [|discriminate].
      intros H. injection H as <- <-. apply stripPrefix_split in Ep.
      exists w, (js "true"). split; [|split; [exact Hw | constructor]].
      rewrite Hs, Ep. reflexivity. }
    destruct (c =? ch "f") eqn:E5.
    { apply N.eqb_eq in E5. subst c.
      destruct (Json.stripPrefix (js "alse") t) as [rest|] eqn:Ep; [|discriminate].
      intros H. injection H as <- <-. apply stripPrefix_split in Ep.
      exists w, (js "false"). split; [|split; [exact Hw | constructor]].
      rewrite Hs, Ep. reflexivity. }
    destruct (c =? ch "n") eqn:E6.
    { apply N.eqb_eq in E6. subst c.
      destruct (Json.stripPrefix (js "ull") t) as [rest|] eqn:Ep; [|discriminate].
      intros H. injection H as <- <-. apply stripPrefix_split in Ep.
      exists w, (js "null"). split; [|split; [exact Hw | constructor]].
      rewrite Hs, Ep. reflexivity. }
    destruct (Json.parseNumber (c :: t)) as [[lexeme rest]|] eqn:Ep; [|discriminate].
    intros H. injection H as <- <-.
    apply parseNumber_sound in Ep. destruct Ep as [Ht Hn].
    exists w, lexeme. split; [|split; [exact Hw | constructor; exact Hn]].
    rewrite Hs, Ht. reflexivity.
  - intros acc s v r. cbn [Json.parseElements].
    destruct (Json.parseValue f s) as [v1 r1| |] eqn:Ev; try discriminate.
    apply IHv in Ev. destruct Ev as (w1 & src1 & Hs & Hw1 & Hv1).
    destruct (skipWs_split r1) as (w2 & Hr1 & Hw2).
    destruct (Json.skipWs r1) as [|c r'] eqn:Er; [discriminate|].
    destruct (c =? ch ",") eqn:E1.
    + apply N.eqb_eq in E1. subst c. intros H. apply IHe in H.
      destruct H as (src & items & Hr' & Hel & ->).
      exists (w1 ++ src1 ++ w2 ++ 44 :: src), (v1 :: items).
      split; [|split].
      * rewrite Hs, Hr1, Hr'. list_eq.
      * constructor; assumption.
      * cbn [rev]. rewrite <- app_assoc. reflexivity.
    + destruct (c =? ch "]") eqn:E2; [|discriminate].
      apply N.eqb_eq in E2. subst c. intros H. injection H as <- <-.
      exists (w1 ++ src1 ++ w2), [v1]. split; [|split].
      * rewrite Hs, Hr1. list_eq.
      * constructor; assumption.
      * reflexivity.
  - intros acc s v r. cbn [Json.parseMembers].
    destruct (skipWs_split s) as (w1 & Hs & Hw1).
    destruct (Json.skipWs s) as [|q r0] eqn:Es; [discriminate|].
    destruct (q =? dquote) eqn:Eq; [|discriminate].
    apply N.eqb_eq in Eq. subst q.
    destruct (Json.parseString r0) as [[key r1]|] eqn:Ek; [|discriminate].
    apply parseString_sound in Ek. destruct Ek as (ksrc & Hr0 & Hkey).
    destruct (skipWs_split r1) as (w2 & Hr1 & Hw2).
    destruct (Json.skipWs r1) as [|colon r2] eqn:Er1; [discriminate|].
    destruct (colon =? ch ":") eqn:Ec; [|discriminate].
    apply N.eqb_eq in Ec. subst colon.
    destruct (Json.parseValue f r2) as [v1 r3| |] eqn:Ev; try discriminate.
    apply IHv in Ev. destruct Ev as (w3 & src1 & Hr2 & Hw3 & Hv1).
    destruct (skipWs_split r3) as (w4 & Hr3 & Hw4).
    destruct (Json.skipWs r3) as [|c r'] eqn:Er3; [discriminate|].
    destruct (c =? ch ",") eqn:E1.
    + apply N.eqb_eq in E1. subst c. intros H. apply IHm in H.
      destruct H as (src & members & Hr' & Hm & ->).
      exists (w1 ++ 34 :: ksrc ++ 34 :: w2 ++ 58 :: w3 ++ src1 ++ w4 ++ 44 :: src),
             ((key, v1) :: members).
      split; [|split].
      * rewrite Hs, Hr0, Hr1, Hr2, Hr3, Hr'. list_eq.
      * constructor; assumption.
      * cbn [rev]. rewrite <- app_assoc. reflexivity.
    + destruct (c =? ch "}") eqn:E2; [|discriminate].
      apply N.eqb_eq in E2. subst c. intros H. injection H as <- <-.
      exists (w1 ++ 34 :: ksrc ++ 34 :: w2 ++ 58 :: w3 ++ src1 ++ w4), [(key, v1)].
      split; [|split].
      * rewrite Hs, Hr0, Hr1, Hr2, Hr3. list_eq.
      * constructor; assumption.
      * reflexivity.
Qed.

Lemma parse_sound (s : jsstring) (v : Json.value) :
  Json.parse s = Some v -> Grammar.Text s v.
Proof.
  unfold Json.parse.
  destruct (Json.parseValue (Json.parseFuel s) s) as [v' rest| |] eqn:E;
    try discriminate.
  destruct (Json.skipWs rest) eqn:Er; [|discriminate].
  intros H. injection H as <-.
  apply (proj1 (parse_sound_fuel _)) in E.
  destruct E as (w & src & Hs & Hw & Hv).
  exists w, src, rest. repeat split; try assumption.
  apply skipWs_nil_ws. exact Er.
Qed.
(** *** The descent is complete: it accepts what is in the grammar *)

Ltac by_codes :=
  repeat match goal with
         | H : (_ =? _) = true |- _ => apply N.eqb_eq in H; simpl in H
         | H : Json.isWs _ = true |- _ => apply isWs_spec in H
         | H : Grammar.Digit _ |- _ => destruct H
         | H : _ /\ _ |- _ => destruct H
         | H : _ \/ _ |- _ => destruct H
         end;
  try lia.

Lemma value_head (src : jsstring) (v : Json.value) :
  Grammar.Value src v ->
  exists c t, src = c :: t /\ Json.isWs c = false /\ c <> 93 /\ c <> 125.
Proof.
  intros [| | |lexeme Hn|body dec _|w _|body items _|w _|body members _];
    try (eexists _, _; split; [reflexivity|]; repeat split; discriminate).
  destruct (number_head lexeme Hn) as (c & t & -> & Hc).
  exists c, t. split; [reflexivity|].
  split; [|split; intros ->; by_codes].
  destruct (Json.isWs c) eqn:E; [exfalso; by_codes | reflexivity].
Qed.

Lemma skipWs_value (src x : jsstring) (v : Json.value) :
  Grammar.Value src v -> Json.skipWs (src ++ x) = src ++ x.
Proof.
  intros H. destruct (value_head src v H) as (c & t & -> & Hc & _).
  apply skipWs_stop. exact Hc.
Qed.

Lemma elements_head (src : jsstring) (items : list Json.value) (x : jsstring) :
  Grammar.Elements src items ->
  exists c t, Json.skipWs (src ++ x) = c :: t /\ c <> 93.
Proof.
  intros [w1 body w2 v Hw1 Hv _|w1 body w2 v rest more Hw1 Hv _ _];
    destruct (value_head body v Hv) as (c & t & -> & Hc & H93 & _);
    rewrite <- !app_assoc, (skipWs_ws_app _ _ Hw1); cbn [app];
    rewrite (skipWs_stop _ _ Hc); eexists _, _; (split; [reflexivity | exact H93]).
Qed.

Lemma members_head (src : jsstring) (members : list (jsstring * Json.value))
    (x : jsstring) :
  Grammar.Members src members ->
  exists t, Json.skipWs (src ++ x) = 34 :: t.
Proof.
  intros [w1 ksrc key w2 w3 body w4 v Hw1 _ _ _ _ _
         |w1 ksrc key w2 w3 body w4 v rest more Hw1 _ _ _ _ _ _];
    rewrite <- !app_assoc, (skipWs_ws_app _ _ Hw1); cbn [app];
    eexists; reflexivity.
Qed.

Lemma delimited_after_ws (w : jsstring) (c : N) (x : jsstring) :
  Grammar.Ws w -> c = 44 \/ c = 93 \/ c = 125 -> Grammar.Delimited (w ++ c :: x).
Proof.
  intros [|c' w' Hc' _] Hc; simpl; tauto.
Qed.

Lemma skipWs_to (w : jsstring) (c : N) (x : jsstring) :
  Grammar.Ws w -> c = 44 \/ c = 93 \/ c = 125 \/ c = 58 ->
  Json.skipWs (w ++ c :: x) = c :: x.
Proof.
  intros Hw Hc. rewrite (skipWs_ws_app _ _ Hw). apply skipWs_stop.
  destruct (Json.isWs c) eqn:E; [exfalso; by_codes | reflexivity].
Qed.

Lemma parse_complete_fuel (fuel : nat) :
  (forall src v r, Grammar.Value src v -> Grammar.Delimited r ->
     agrees (Json.parseValue fuel (src ++ r)) v r)
  /\ (forall acc src items r, Grammar.Elements src items ->
        agrees (Json.parseElements fuel acc (src ++ 93 :: r))
               (Json.Array (rev acc ++ items)) r)
  /\ (forall acc src members r, Grammar.Members src members ->
        agrees (Json.parseMembers fuel acc (src ++ 125 :: r))
               (Json.Object (rev acc ++ members)) r).
Proof.
  induction fuel as [|f (IHv & IHe & IHm)];
    [repeat split; intros; right; reflexivity|].
  split; [|split].
  - intros src v r Hv Hr. cbn [Json.parseValue].
    rewrite (skipWs_value src r v Hv).
    destruct Hv as [| | |lexeme Hn|body dec Hc|w Hw|body items He|w Hw
                   |body members Hm].
    + left. reflexivity.
    + left. reflexivity.
    + left. reflexivity.
    + destruct (number_head lexeme Hn) as (c & t & E & Hc).
      pose proof (parseNumber_complete lexeme r Hn Hr) as Hp.
      rewrite E in Hp |- *. cbn [app] in Hp |- *.
      destruct (c =? ch "[") eqn:E1; [exfalso; by_codes|].
      destruct (c =? ch "{") eqn:E2; [exfalso; by_codes|].
      destruct (c =? dquote) eqn:E3; [exfalso; unfold dquote in E3; by_codes|].
      destruct (c =? ch "t") eqn:E4; [exfalso; by_codes|].
      destruct (c =? ch "f") eqn:E5; [exfalso; by_codes|].
      destruct (c =? ch "n") eqn:E6; [exfalso; by_codes|].
      rewrite Hp. left. reflexivity.
    + cbn [app]. change (34 =? ch "[") with false. change (34 =? ch "{") with false.
      change (34 =? dquote) with true. cbv iota.
      rewrite <- app_assoc. cbn [app].
      rewrite (parseString_complete body dec r Hc). left. reflexivity.
    + cbn [app]. change (91 =? ch "[") with true. cbv iota.
      rewrite <- app_assoc. cbn [app].
      rewrite (skipWs_to w 93 r Hw) by tauto.
      change (93 =? ch "]") with true. cbv iota. left. reflexivity.
    + cbn [app]. change (91 =? ch "[") with true. cbv iota.
      rewrite <- app_assoc. cbn [app].
      destruct (elements_head body items (93 :: r) He) as (c & t & -> & Hc).
      replace (c =? ch "]") with false by (symmetry; apply N.eqb_neq; exact Hc).
      exact (IHe [] body items r He).
    + cbn [app]. change (123 =? ch "[") with false.
      change (123 =? ch "{") with true. cbv iota.
      rewrite <- app_assoc. cbn [app].
      rewrite (skipWs_to w 125 r Hw) by tauto.
      change (125 =? ch "}") with true. cbv iota. left. reflexivity.
    + cbn [app]. change (123 =? ch "[") with false.
      change (123 =? ch "{") with true. cbv iota.
      rewrite <- app_assoc. cbn [app].
      destruct (members_head body members (125 :: r) Hm) as (t & ->).
      change (34 =? ch "}") with false. cbv iota.
      exact (IHm [] body members r Hm).
  - intros acc src items r He. cbn [Json.parseElements].
    destruct He as [w1 body w2 v Hw1 Hv Hw2|w1 body w2 v rest more Hw1 Hv Hw2 Hrest].
    + repeat (rewrite <- app_assoc || cbn [app]).
      rewrite (parseValue_ws f w1 _ Hw1).
      destruct (IHv body v (w2 ++ 93 :: r) Hv) as [-> | ->];
        [apply delimited_after_ws; [exact Hw2 | tauto] | | right; reflexivity].
      rewrite (skipWs_to w2 93 r Hw2) by tauto.
      change (93 =? ch ",") with false. change (93 =? ch "]") with true. cbv iota.
      left. reflexivity.
    + repeat (rewrite <- app_assoc || cbn [app]).
      rewrite (parseValue_ws f w1 _ Hw1).
      destruct (IHv body v (w2 ++ 44 :: rest ++ 93 :: r) Hv) as [-> | ->];
        [apply delimited_after_ws; [exact Hw2 | tauto] | | right; reflexivity].
      rewrite (skipWs_to w2 44 _ Hw2) by tauto.
      change (44 =? ch ",") with true. cbv iota.
      replace (rev acc ++ v :: more) with (rev (v :: acc) ++ more)
        by (cbn [rev]; rewrite <- app_assoc; reflexivity).
      exact (IHe (v :: acc) rest more r Hrest).
  - intros acc src members r Hm. cbn [Json.parseMembers].
    destruct Hm as [w1 ksrc key w2 w3 body w4 v Hw1 Hkey Hw2 Hw3 Hv Hw4
                   |w1 ksrc key w2 w3 body w4 v rest more Hw1 Hkey Hw2 Hw3 Hv Hw4 Hrest].
    + repeat (rewrite <- app_assoc || cbn [app]).
      rewrite (skipWs_ws_app w1 _ Hw1). cbn [Json.skipWs].
      change (Json.isWs 34) with false. cbv iota.
      change (34 =? dquote) with true. cbv iota.
      rewrite (parseString_complete ksrc key _ Hkey).
      rewrite (skipWs_to w2 58 _ Hw2) by tauto.
      change (58 =? ch ":") with true. cbv iota.
      rewrite (parseValue_ws f w3 _ Hw3).
      destruct (IHv body v (w4 ++ 125 :: r) Hv) as [-> | ->];
        [apply delimited_after_ws; [exact Hw4 | tauto] | | right; reflexivity].
      rewrite (skipWs_to w4 125 r Hw4) by tauto.
      change (125 =? ch ",") with false. change (125 =? ch "}") with true. cbv iota.
      left. reflexivity.
    + repeat (rewrite <- app_assoc || cbn [app]).
      rewrite (skipWs_ws_app w1 _ Hw1). cbn [Json.skipWs].
      change (Json.isWs 34) with false. cbv iota.
      change (34 =? dquote) with true. cbv iota.
      rewrite (parseString_complete ksrc key _ Hkey).
      rewrite (skipWs_to w2 58 _ Hw2) by tauto.
      change (58 =? ch ":") with true. cbv iota.
      rewrite (parseValue_ws f w3 _ Hw3).
      destruct (IHv body v (w4 ++ 44 :: rest ++ 125 :: r) Hv) as [-> | ->];
        [apply delimited_after_ws; [exact Hw4 | tauto] | | right; reflexivity].
      rewrite (skipWs_to w4 44 _ Hw4) by tauto.
      change (44 =? ch ",") with true. cbv iota.
      replace (rev acc ++ (key, v) :: more) with (rev ((key, v) :: acc) ++ more)
        by (cbn [rev]; rewrite <- app_assoc; reflexivity).
      exact (IHm ((key, v) :: acc) rest more r Hrest).
Qed.

Lemma parse_complete (s : jsstring) (v : Json.value) :
  Grammar.Text s v -> Json.parse s = Some v.
Proof.
  intros (w1 & src & w2 & Hs & Hw1 & Hv & Hw2).
  unfold Json.parse.
  pose proof (parse_fuel_suffices s) as Hfuel.
  assert (Hd : Grammar.Delimited w2) by (destruct Hw2; simpl; tauto).
  pose proof (proj1 (parse_complete_fuel (Json.parseFuel s)) src v w2 Hv Hd) as Hp.
  rewrite <- (parseValue_ws _ w1 _ Hw1), <- Hs in Hp.
  destruct Hp as [Hp | Hp]; [|contradiction].
  rewrite Hp, (skipWs_ws w2 Hw2). reflexivity.
Qed.

(** [JSON.parse] accepts exactly the JSON texts, with their values. *)
Lemma parse_spec (s : jsstring) (v : Json.value) :
  Json.parse s = Some v <-> Grammar.Text s v.
Proof. split; [apply parse_sound | apply parse_complete]. Qed.
(** ** The structured completion *)

(** C6 (as stated) fails: the response is an array cut short; the error
    raised for it carries the text "N/A", not the text received. *)
Lemma C6_counterexample :
  generateContent (scriptedService [] truncatedArray) [] = ContentResponse truncatedArray
  /\ generateJson (Some (scriptedService [] truncatedArray)) []
     = Threw (mkGenerateJsonError (js "N/A") (SyntaxError truncatedArray))
  /\ ~ errorCarriesRawText (scriptedService [] truncatedArray) [].
Proof.
  split; [reflexivity|]. split; [vm_compute; reflexivity|].
  intros H.
  specialize (H truncatedArray
                (mkGenerateJsonError (js "N/A") (SyntaxError truncatedArray))
                eq_refl).
  assert (Hthrown : generateJson (Some (scriptedService [] truncatedArray)) []
                    = Threw (mkGenerateJsonError (js "N/A") (SyntaxError truncatedArray)))
    by (vm_compute; reflexivity).
  specialize (H Hthrown). discriminate H.
Qed.

(** C6 (amended).  Without a service [generateJson] returns [null] and
    does not throw.  Otherwise the response text is trimmed, a
    well-formed fence (optional language tag, payload on the following
    lines) around the whole trimmed text is stripped to its payload, and
    the payload is parsed as JSON: a payload that is a JSON text, by the
    JSON grammar, gives the value it denotes, and so the fenced text of
    ["a","b"] gives that array and the unfenced text of the empty array
    gives the empty array.  An empty payload, a payload that is not a
    JSON text and a rejected request each throw an error that carries
    the caught error and, as raw text, the response text the caught
    error exposes, or "N/A" when it exposes none; the errors for an empty
    payload and for a payload that is not JSON expose none.  A fence
    around nothing is not stripped and fails in the parse. *)
Theorem C6_generateJson (prompt : jsstring) :
  generateJson None prompt = Returned Json.Null
  /\ (forall service,
        match generateContent service prompt with
        | ContentRejected cause =>
            generateJson (Some service) prompt
            = Threw (mkGenerateJsonError (rawTextOf cause) cause)
        | ContentResponse text =>
            (payloadOf text = [] ->
             generateJson (Some service) prompt
             = Threw (mkGenerateJsonError
                        (js "N/A")
                        (Error (js "Received empty JSON string from AI.") None)))
            /\ (forall v, Grammar.Text (payloadOf text) v ->
                          generateJson (Some service) prompt = Returned v)
            /\ (payloadOf text <> [] ->
                (forall v, ~ Grammar.Text (payloadOf text) v) ->
                generateJson (Some service) prompt
                = Threw (mkGenerateJsonError (js "N/A") (SyntaxError (payloadOf text))))
        end)
  /\ (forall text v, Json.parse text = Some v <-> Grammar.Text text v)
  /\ (forall before tag lineEnd payload beforeClose after,
        forallb isWhiteSpace before = true -> forallb isWhiteSpace after = true ->
        forallb Fence.isWordChar tag = true ->
        forallb isWhiteSpace lineEnd = true -> lineEnd <> [] ->
        isTrimmed payload = true ->
        forallb isWhiteSpace beforeClose = true ->
        payloadOf (before ++ fenced tag lineEnd payload beforeClose ++ after) = payload)
  /\ (forall text, Json.stripPrefix Fence.backticks (trim text) = None ->
                   payloadOf text = trim text)
  /\ (forall message text,
        text <> [] -> rawTextOf (Error message (Some text)) = text)
  /\ (forall message,
        rawTextOf (Error message None) = js "N/A"
        /\ rawTextOf (Error message (Some [])) = js "N/A")
  /\ (forall input, rawTextOf (SyntaxError input) = js "N/A")
  /\ generateJson (Some (scriptedService [] fencedAB)) prompt
     = Returned (Json.Array [Json.Str (js "a"); Json.Str (js "b")])
  /\ generateJson (Some (scriptedService [] (js "[]"))) prompt
     = Returned (Json.Array [])
  /\ generateJson (Some (scriptedService [] [])) prompt
     = Threw (mkGenerateJsonError
                (js "N/A") (Error (js "Received empty JSON string from AI.") None))
  /\ generateJson (Some (scriptedService [] emptyFence)) prompt
     = Threw (mkGenerateJsonError (js "N/A") (SyntaxError emptyFence)).
Proof.
  split; [reflexivity|].
  split; [|split; [|split; [|split; [|split; [|split; [|split;
    [|split; [|split; [|split]]]]]]]]].
  - intros service. unfold generateJson.
    destruct (generateContent service prompt) as [text | cause]; [|reflexivity].
    unfold parseResponse. split; [|split].
    + intros ->. reflexivity.
    + intros v Hv.
      destruct (payloadOf text) as [|c r] eqn:E.
      * exfalso. destruct Hv as (w1 & src & w2 & Hs & _ & Hsrc & _).
        destruct (value_head src v Hsrc) as (c & t & -> & _).
        destruct w1; discriminate Hs.
      * simpl. rewrite (parse_complete _ v Hv). reflexivity.
    + intros Hne Hnot.
      destruct (payloadOf text) as [|c r] eqn:E; [congruence|]. simpl.
      destruct (Json.parse (c :: r)) as [v|] eqn:Ep; [|reflexivity].
      exfalso. exact (Hnot v (parse_sound _ v Ep)).
  - exact parse_spec.
  - exact payloadOf_fenced.
  - exact payloadOf_unfenced.
  - intros message text Hne. simpl. apply or_else_nonempty. exact Hne.
  - intros message. split; reflexivity.
  - intros input. reflexivity.
  - vm_compute. reflexivity.
  - vm_compute. reflexivity.
  - vm_compute. reflexivity.
  - vm_compute. reflexivity.
Qed.
(** ** The attribution resolver *)

Lemma stringEntries_cons (v : Json.value) (items : list Json.value) :
  stringEntries (v :: items)
  = match v with
    | Json.Str s => s :: stringEntries items
    | _ => stringEntries items
    end.
Proof. destruct v; reflexivity. Qed.

Lemma stringEntries_In (items : list Json.value) (s : jsstring) :
  In s (stringEntries items) <-> In (Json.Str s) items.
Proof.
  induction items as [|v items IH]; [reflexivity|].
  rewrite stringEntries_cons. destruct v; simpl; rewrite ?IH;
    split; intros H; try (right; exact H);
    try (destruct H as [H | H]; [discriminate | exact H]).
  - destruct H as [-> | H]; [left; reflexivity | right; exact H].
  - destruct H as [H | H]; [injection H as ->; left; reflexivity | right; exact H].
Qed.

Lemma stringEntries_strings (strs : list jsstring) :
  stringEntries (map Json.Str strs) = strs.
Proof.
  induction strs as [|s strs IH]; [reflexivity|].
  simpl map. rewrite stringEntries_cons, IH. reflexivity.
Qed.

(** C7.  The attribution resolver returns [undefined] without any
    request when the answer is blank or the service is unavailable.
    Otherwise it issues exactly one structured-completion request; an
    array result is returned with its non-string entries filtered out,
    in order, and any other result and any thrown error give
    [undefined]. *)
Theorem C7_fetchSourceAttribution (ai : option GoogleGenAI)
    (userQuery ctx aiAnswer : jsstring) :
  let prompt := attributionPrompt userQuery ctx aiAnswer in
  (trim aiAnswer = [] \/ ai = None ->
   fetchSourceAttribution ai userQuery ctx aiAnswer = (None, []))
  /\ (trim aiAnswer <> [] -> ai <> None ->
      snd (fetchSourceAttribution ai userQuery ctx aiAnswer) = [JsonRequest prompt]
      /\ (forall items, generateJson ai prompt = Returned (Json.Array items) ->
            fst (fetchSourceAttribution ai userQuery ctx aiAnswer)
            = Some (stringEntries items))
      /\ (forall v, generateJson ai prompt = Returned v -> Json.isArray v = false ->
            fst (fetchSourceAttribution ai userQuery ctx aiAnswer) = None)
      /\ (forall e, generateJson ai prompt = Threw e ->
            fst (fetchSourceAttribution ai userQuery ctx aiAnswer) = None))
  /\ (forall v items,
        stringEntries (v :: items)
        = match v with
          | Json.Str s => s :: stringEntries items
          | _ => stringEntries items
          end)
  /\ (forall items s, In s (stringEntries items) <-> In (Json.Str s) items)
  /\ stringEntries [Json.Str (js "doc1.pdf"); Json.Number (js "42"); Json.Null;
                    Json.Str (js "report.docx")]
     = [js "doc1.pdf"; js "report.docx"]
  /\ (trim aiAnswer <> [] ->
      fetchSourceAttribution (Some (scriptedService [] mixedAttribution))
        userQuery ctx aiAnswer
      = (Some [js "doc1.pdf"; js "report.docx"], [JsonRequest prompt])).
Proof.
  cbv zeta. split; [|split; [|split; [|split; [|split]]]].
  - intros [H | ->]; unfold fetchSourceAttribution.
    + rewrite H. reflexivity.
    + simpl. rewrite orb_true_r. reflexivity.
  - intros Hne Hai. destruct ai as [service|]; [|congruence].
    rewrite fetchSourceAttribution_available.
    apply truthy_nonempty in Hne. rewrite Hne. simpl.
    split; [reflexivity|]. split; [|split].
    + intros items ->. reflexivity.
    + intros v -> Hv. destruct v; try reflexivity. discriminate Hv.
    + intros e ->. reflexivity.
  - exact stringEntries_cons.
  - exact stringEntries_In.
  - reflexivity.
  - intros Hne. rewrite fetchSourceAttribution_available.
    apply truthy_nonempty in Hne. rewrite Hne. reflexivity.
Qed.

(* ===================================================================== *)
(** * The properties at concrete inputs *)
(* ===================================================================== *)

(** The policy scenario: while the attribution is awaited the entry is
    loading with the whole answer; finalization issues nothing more. *)
Lemma C1_attribution_precedes_finalization_witness :
  truthy (trim (queryOf (Some policyQuestion) initialWorld)) = true
  /\ transportFailure
       (generateContentStream policyService
          (groundingPrompt [policyDocument] policyQuestion)) = None
  /\ lastEntry (handleSendMessage (Some policyService) [policyDocument] sampleClock
                  (Some policyQuestion) initialWorld)
     = Some (streamingEntry (submissionOf [policyDocument] sampleClock policyQuestion)
               (dateAi sampleClock)
               (js "Per policy.pdf, remote work is allowed 3 days/week."))
  /\ effects (handleSendMessage_settled (Some policyService) [policyDocument]
                sampleClock (Some policyQuestion) initialWorld)
     = effects (handleSendMessage (Some policyService) [policyDocument] sampleClock
                  (Some policyQuestion) initialWorld).
Proof.
  split; [reflexivity|]. split; [reflexivity|].
  destruct (C1_attribution_precedes_finalization policyService [policyDocument]
              sampleClock (Some policyQuestion) initialWorld eq_refl eq_refl)
    as (H1 & _ & _ & H4).
  split; [exact H1 | exact H4].
Defined.

(** The calls of a run without a service, and of a run whose stream
    breaks after two chunks. *)
Lemma C3_stream_callbacks_witness :
  streamCalls None (js "question") = [CallOnError unavailableError; CallOnComplete]
  /\ filter isCallback (streamCalls (Some brokenService) (js "question"))
     = [CallOnChunk (js "Per "); CallOnChunk (js "policy.pdf, ");
        CallOnError (Error (js "network error") None); CallOnComplete].
Proof.
  split.
  - destruct (C3_stream_callbacks None (js "question")) as (_ & _ & _ & H & _).
    exact (H eq_refl).
  - destruct (C3_stream_callbacks (Some brokenService) (js "question"))
      as (_ & _ & _ & _ & H).
    exact (H brokenService eq_refl).
Defined.

(** A repository of seven documents, six of them qualifying: the blocks
    of the first five qualifying ones, joined by the delimiter; and a
    repository without a qualifying document: the marker. *)
Lemma C4_context_assembly_witness :
  map Document.name (selectedDocuments shelf)
  = [js "a.txt"; js "b.pdf"; js "c.txt"; js "d.txt"; js "e.txt"]
  /\ contextSnippets shelf
     = js "Document Name: a.txt" ++ [10] ++ js "Type: TEXT" ++ [10]
       ++ js "Content Snippet: alpha"
       ++ [10; 10] ++ js "---" ++ [10; 10]
       ++ js "Document Name: b.pdf" ++ [10] ++ js "Type: PDF" ++ [10]
       ++ js "Source URL: https://example.org/b" ++ [10]
       ++ js "Content Snippet: " ++ [10]
       ++ js "Full Content Hint: bravo content..."
       ++ [10; 10] ++ js "---" ++ [10; 10]
       ++ js "Document Name: c.txt" ++ [10] ++ js "Type: TEXT" ++ [10]
       ++ js "Content Snippet: charlie"
       ++ [10; 10] ++ js "---" ++ [10; 10]
       ++ js "Document Name: d.txt" ++ [10] ++ js "Type: TEXT" ++ [10]
       ++ js "Content Snippet: delta"
       ++ [10; 10] ++ js "---" ++ [10; 10]
       ++ js "Document Name: e.txt" ++ [10] ++ js "Type: TEXT" ++ [10]
       ++ js "Content Snippet: echo"
  /\ knowledgeBase shelf = contextSnippets shelf
  /\ contextSnippets blankShelf = []
  /\ knowledgeBase blankShelf = js "No documents available in the knowledge base.".
Proof.
  destruct (C4_context_assembly shelf)
    as (_ & _ & _ & _ & Hjoin & Hblock & _ & Hsome & _).
  destruct (C4_context_assembly blankShelf) as (_ & _ & _ & _ & _ & _ & Hnone & _).
  assert (Hne : filter qualifies shelf <> []) by (simpl; discriminate).
  split; [reflexivity|].
  split.
  - rewrite Hjoin. simpl map. rewrite !Hblock. reflexivity.
  - split; [exact (proj2 (Hsome Hne))|]. exact (Hnone eq_refl).
Defined.
(** The policy scenario: the final text is the concatenation of the
    three chunks. *)
Lemma C5_text_is_concatenation_witness :
  truthy (trim (queryOf (Some policyQuestion) initialWorld)) = true
  /\ generateContentStream policyService
       (groundingPrompt [policyDocument] policyQuestion)
     = StreamOpened (map StreamChunk policyChunks)
  /\ exists m,
       lastEntry (handleSendMessage_settled (Some policyService) [policyDocument]
                    sampleClock (Some policyQuestion) initialWorld) = Some m
       /\ ChatMessage.text m = List.concat policyChunks.
Proof.
  split; [reflexivity|]. split; [reflexivity|].
  destruct (C5_text_is_concatenation policyService [policyDocument] sampleClock
              (Some policyQuestion) initialWorld policyChunks eq_refl eq_refl)
    as (_ & _ & H & _).
  apply H. simpl. discriminate.
Defined.

(** An array with a space after its comma, in a fence with whitespace
    around it: the derivation of the payload in the grammar, and the
    value returned.  An array followed by prose is not a JSON text, and
    the error carries no raw text. *)
Lemma C6_generateJson_witness :
  payloadOf spacedFence = js "[1, 2]"
  /\ Grammar.Text (js "[1, 2]")
       (Json.Array [Json.Number (js "1"); Json.Number (js "2")])
  /\ generateJson (Some (scriptedService [] spacedFence)) []
     = Returned (Json.Array [Json.Number (js "1"); Json.Number (js "2")])
  /\ (forall v, ~ Grammar.Text arrayThenProse v)
  /\ generateJson (Some (scriptedService [] arrayThenProse)) []
     = Threw (mkGenerateJsonError (js "N/A") (SyntaxError arrayThenProse)).
Proof.
  assert (Hpayload : payloadOf spacedFence = js "[1, 2]") by (vm_compute; reflexivity).
  assert (Hdigit : forall d, 49 <= d -> d <= 57 ->
                             Grammar.Value [d] (Json.Number [d])).
  { intros d A B. constructor.
    apply (Grammar.NumberOf [] [d] [] []); constructor; try assumption.
    constructor. }
  assert (Hone : Grammar.Value (js "1") (Json.Number (js "1"))).
  { apply Hdigit; vm_compute; discriminate. }
  assert (Htwo : Grammar.Value (js "2") (Json.Number (js "2"))).
  { apply Hdigit; vm_compute; discriminate. }
  assert (Hspace : Grammar.Ws [32]).
  { constructor; [left; reflexivity | constructor]. }
  assert (Htext : Grammar.Text (js "[1, 2]")
                    (Json.Array [Json.Number (js "1"); Json.Number (js "2")])).
  { exists [], (js "[1, 2]"), []. split; [reflexivity|].
    split; [constructor|]. split; [|constructor].
    apply (Grammar.ValueArray (js "1, 2")).
    apply (Grammar.ElementsNext [] (js "1") [] (Json.Number (js "1")) (js " 2"));
      [constructor | exact Hone | constructor|].
    apply (Grammar.ElementsLast [32] (js "2") [] (Json.Number (js "2")));
      [exact Hspace | exact Htwo | constructor]. }
  assert (Hprose : forall v, ~ Grammar.Text arrayThenProse v).
  { intros v Hv. apply parse_complete in Hv. vm_compute in Hv. discriminate Hv. }
  destruct (C6_generateJson []) as (_ & Hservice & _).
  split; [exact Hpayload|]. split; [exact Htext|]. split.
  - pose proof (Hservice (scriptedService [] spacedFence)) as H.
    cbn [generateContent scriptedService] in H.
    destruct H as (_ & H & _). apply H. rewrite Hpayload. exact Htext.
  - split; [exact Hprose|].
    pose proof (Hservice (scriptedService [] arrayThenProse)) as H.
    cbn [generateContent scriptedService] in H.
    destruct H as (_ & _ & H).
    assert (Hp : payloadOf arrayThenProse = arrayThenProse) by (vm_compute; reflexivity).
    rewrite Hp in H. apply H; [discriminate | exact Hprose].
Defined.
(** The attribution of a non-blank answer by a service that answers
    with a mixed array. *)
Lemma C7_fetchSourceAttribution_witness :
  trim (js "Per policy.pdf") <> []
  /\ fetchSourceAttribution (Some (scriptedService [] mixedAttribution))
       policyQuestion [] (js "Per policy.pdf")
     = (Some [js "doc1.pdf"; js "report.docx"],
        [JsonRequest (attributionPrompt policyQuestion [] (js "Per policy.pdf"))]).
Proof.
  assert (Hne : trim (js "Per policy.pdf") <> []) by (vm_compute; discriminate).
  split; [exact Hne|].
  destruct (C7_fetchSourceAttribution (Some (scriptedService [] mixedAttribution))
              policyQuestion [] (js "Per policy.pdf")) as (_ & _ & _ & _ & _ & H).
  exact (H Hne).
Defined.

(** A transcript reached by a submission and its completion with
    sources. *)
Lemma C9_sources_only_on_final_witness :
  Forall (fun m => ChatMessage.sources m <> None ->
                   ChatMessage.isLoading m = Some false)
    (completeUpdate (js "1_ai_loading") (js "2_ai_final") (js "answer")
       (Some [js "policy.pdf"])
       (appendTurn (userMessage sampleClock policyQuestion) (js "1_ai_loading") 1 [])).
Proof.
  apply C9_sources_only_on_final.
  eapply ReachStep; [|apply StepComplete].
  eapply ReachStep; [apply ReachInit | apply StepSubmit].
Defined.

(** The silent scenario: the stream ends with an empty answer. *)
Lemma C10_empty_answer_fallback_witness :
  truthy (trim (queryOf (Some (js "anything")) initialWorld)) = true
  /\ transportFailure
       (generateContentStream silentService (groundingPrompt [] (js "anything"))) = None
  /\ answerOf
       (generateContentStream silentService (groundingPrompt [] (js "anything"))) = []
  /\ exists m,
       lastEntry (handleSendMessage_settled (Some silentService) [] sampleClock
                    (Some (js "anything")) initialWorld) = Some m
       /\ ChatMessage.text m = js "No further response."
       /\ ChatMessage.isLoading m = Some false
       /\ ChatMessage.sources m = None.
Proof.
  split; [reflexivity|]. split; [reflexivity|]. split; [reflexivity|].
  exact (C10_empty_answer_fallback silentService [] sampleClock (Some (js "anything"))
           initialWorld eq_refl eq_refl eq_refl).
Defined.

(* ===================================================================== *)
(** * Further properties of the service client *)
(* ===================================================================== *)

(** ** What a match of the fence pattern says about the text *)

Lemma stripPrefix_some (l s r : jsstring) :
  Json.stripPrefix l s = Some r -> s = l ++ r.
Proof.
  revert s. induction l as [|k l IH]; intros [|c s]; simpl; intros H;
    try discriminate; try (injection H as <-; reflexivity).
  destruct (c =? k) eqn:E; [|discriminate].
  apply N.eqb_eq in E. subst c. rewrite (IH s H). reflexivity.
Qed.

Lemma trimStart_split (s : jsstring) :
  exists ws, s = ws ++ trimStart s /\ forallb isWhiteSpace ws = true.
Proof.
  induction s as [|c s (ws & Hs & Hws)]; [exists []; auto|].
  simpl. destruct (isWhiteSpace c) eqn:Hc.
  - exists (c :: ws). simpl. rewrite Hc, Hws. split; [congruence | reflexivity].
  - exists []. auto.
Qed.

Lemma isTrimmed_intro (s r r' : jsstring) (a b : N) :
  s = a :: r -> isWhiteSpace a = false ->
  s = r' ++ [b] -> isWhiteSpace b = false ->
  isTrimmed s = true.
Proof.
  intros Ha Hwa Hb Hwb. unfold isTrimmed. rewrite Ha.
  rewrite <- Ha, Hb, last_last, Hwa, Hwb. reflexivity.
Qed.

Section FenceInversion.
Context {R : Type}.

Lemma lit_inv (l s : jsstring) (k : jsstring -> option R) (x : R) :
  Fence.lit l s k = Some x -> exists r, s = l ++ r /\ k r = Some x.
Proof.
  unfold Fence.lit. destruct (Json.stripPrefix l s) as [r|] eqn:E; [|discriminate].
  intros H. exists r. split; [apply stripPrefix_some; exact E | exact H].
Qed.

Lemma greedyStar_none (p : N -> bool) (s : jsstring)
    (k : jsstring -> jsstring -> option R) :
  Fence.greedyStar p s k = None -> k [] s = None.
Proof.
  destruct s as [|c r]; simpl; [auto|].
  destruct (p c); [|auto].
  destruct (Fence.greedyStar p r _); [discriminate | auto].
Qed.

(** A successful greedy run: what it took, and that taking one more
    character was tried and failed. *)
Lemma greedyStar_inv (p : N -> bool) (s : jsstring)
    (k : jsstring -> jsstring -> option R) (x : R) :
  Fence.greedyStar p s k = Some x ->
  exists m r,
    s = m ++ r /\ forallb p m = true /\ k m r = Some x
    /\ (forall c r', r = c :: r' -> p c = true -> k (m ++ [c]) r' = None).
Proof.
  revert k. induction s as [|a s IH]; intros k H; simpl in H.
  - exists [], []. repeat split; auto. intros c r' Hr. discriminate Hr.
  - destruct (p a) eqn:Ha.
    + destruct (Fence.greedyStar p s (fun m rest => k (a :: m) rest)) as [y|] eqn:E.
      * injection H as ->. destruct (IH _ E) as (m & r & Hs & Hm & Hk & Hmax).
        exists (a :: m), r. simpl. rewrite Ha, Hm, Hs. repeat split; auto.
      * exists [], (a :: s). repeat split; auto.
        intros c r' Hr _. injection Hr as <- <-.
        apply (greedyStar_none p s _ E).
    + exists [], (a :: s). repeat split; auto.
      intros c r' Hr Hc. injection Hr as <- <-. congruence.
Qed.

Lemma optChar_inv (c0 : N) (s : jsstring) (k : jsstring -> option R) (x : R) :
  Fence.optChar c0 s k = Some x ->
  (exists r, s = c0 :: r /\ k r = Some x) \/ k s = Some x.
Proof.
  unfold Fence.optChar. destruct s as [|c r]; [auto|].
  destruct (c =? c0) eqn:E; [|auto].
  apply N.eqb_eq in E. subst c.
  destruct (k r) as [y|] eqn:Ek; [|auto].
  intros H. injection H as ->. left. exists r. auto.
Qed.

Lemma optChar_some (c0 : N) (s : jsstring) (k : jsstring -> option R) (y : R) :
  k s = Some y -> Fence.optChar c0 s k <> None.
Proof.
  intros Hk. unfold Fence.optChar. destruct s as [|c r]; [congruence|].
  destruct (c =? c0); [|congruence].
  destruct (k r); congruence.
Qed.

(** A successful lazy run: what it took, and that every shorter run was
    tried and failed. *)
Lemma lazyStar_inv (p : N -> bool) (s : jsstring)
    (k : jsstring -> jsstring -> option R) (x : R) :
  Fence.lazyStar p s k = Some x ->
  exists m r,
    s = m ++ r /\ forallb p m = true /\ k m r = Some x
    /\ (forall m1 q, m = m1 ++ q -> q <> [] -> k m1 (q ++ r) = None).
Proof.
  revert k. induction s as [|a s IH]; intros k H.
  - simpl in H. destruct (k [] []) as [y|] eqn:E; [|discriminate].
    injection H as ->. exists [], []. repeat split; auto.
    intros m1 q Hm Hq. destruct m1; destruct q; simpl in Hm; congruence.
  - simpl in H. destruct (k [] (a :: s)) as [y|] eqn:E.
    + injection H as ->. exists [], (a :: s). repeat split; auto.
      intros m1 q Hm Hq. destruct m1; destruct q; simpl in Hm; congruence.
    + destruct (p a) eqn:Ha; [|discriminate].
      destruct (IH _ H) as (m & r & Hs & Hm & Hk & Hmin).
      exists (a :: m), r. simpl. rewrite Ha, Hm, Hs. repeat split; auto.
      intros m1 q Hsplit Hq. destruct m1 as [|b m1]; simpl in Hsplit.
      * rewrite <- Hsplit. simpl. rewrite <- Hs. exact E.
      * injection Hsplit as <- Hsplit. apply (Hmin m1 q Hsplit Hq).
Qed.

Lemma lazyStar_some (u v : jsstring) (k : jsstring -> jsstring -> option R) (y : R) :
  k u v = Some y -> Fence.lazyStar Fence.anyChar (u ++ v) k <> None.
Proof.
  revert k. induction u as [|a u IH]; intros k Hk.
  - simpl. destruct v; simpl; rewrite Hk; discriminate.
  - simpl. destruct (k [] (a :: u ++ v)); [discriminate|].
    apply (IH (fun m rest => k (a :: m) rest)). exact Hk.
Qed.

Lemma optWordGroup_inv (s : jsstring)
    (k : option jsstring -> jsstring -> option R) (x : R) :
  Fence.optWordGroup s k = Some x ->
  exists tag r,
    s = tag ++ r /\ forallb Fence.isWordChar tag = true
    /\ k (match tag with [] => None | _ :: _ => Some tag end) r = Some x.
Proof.
  unfold Fence.optWordGroup.
  destruct (Fence.greedyStar Fence.isWordChar s _) as [y|] eqn:E.
  - intros H. injection H as ->.
    destruct (greedyStar_inv _ _ _ _ E) as (m & r & Hs & Hm & Hk & _).
    exists m, r. destruct m as [|c m]; [discriminate|]. auto.
  - intros H. exists [], s. auto.
Qed.

End FenceInversion.

(** What a match says: the shape of the text and of the captures. *)
Lemma matchFence_inv (s : jsstring) (g : Fence.groups) :
  Fence.matchFence s = Some g ->
  exists tag ws1 ws2,
    s = Fence.backticks ++ tag ++ ws1 ++ Fence.group2 g ++ ws2 ++ Fence.backticks
    /\ forallb Fence.isWordChar tag = true
    /\ forallb isWhiteSpace ws1 = true
    /\ forallb isWhiteSpace ws2 = true
    /\ Fence.group1 g = match tag with [] => None | _ :: _ => Some tag end
    /\ (Fence.group2 g = [] \/ isTrimmed (Fence.group2 g) = true).
Proof.
  unfold Fence.matchFence. intros H.
  apply lit_inv in H. destruct H as (s1 & Hs & H).
  apply optWordGroup_inv in H. destruct H as (tag & s2 & Hs1 & Htag & H).
  set (g1 := match tag with [] => None | _ :: _ => Some tag end) in *.
  apply greedyStar_inv in H. destruct H as (m & r & Hs2 & Hm & H & Hmax).
  cbv beta in H, Hmax.
  assert (Hlazy : exists y,
             Fence.lazyStar Fence.anyChar r (fun g2 s5 =>
               Fence.optChar 10 s5 (fun s6 =>
               Fence.greedyStar isWhiteSpace s6 (fun _ s7 =>
               Fence.lit Fence.backticks s7 (fun s8 =>
               match s8 with
               | [] => Some (Fence.mkGroups g1 g2)
               | _ :: _ => None
               end)))) = Some y /\ y = g).
  { apply optChar_inv in H. destruct H as [(r1 & Hr & H) | H]; [|exists g; auto].
    exfalso. specialize (Hmax 10 r1 Hr eq_refl).
    apply (optChar_some 10 r1 _ g H Hmax). }
  destruct Hlazy as (y & Hlazy & ->). clear H.
  apply lazyStar_inv in Hlazy.
  destruct Hlazy as (g2 & r5 & Hr & _ & Hclose & Hmin).
  rewrite closing_spec in Hclose.
  destruct (eqb (trimStart r5) Fence.backticks) eqn:Eb; [|discriminate].
  injection Hclose as <-. apply eqb_eq in Eb.
  destruct (trimStart_split r5) as (ws2 & Hr5 & Hws2). rewrite Eb in Hr5.
  assert (Hg2 : g2 = [] \/ isTrimmed g2 = true).
  { destruct g2 as [|c g2']; [left; reflexivity | right].
    destruct (exists_last (l := c :: g2')) as (front & b & Hlast); [discriminate|].
    apply (isTrimmed_intro (c :: g2') g2' front c b eq_refl); [| exact Hlast |].
    - destruct (isWhiteSpace c) eqn:Hc; [|reflexivity]. exfalso.
      assert (Hr' : r = c :: (g2' ++ r5)) by (rewrite Hr; reflexivity).
      specialize (Hmax c (g2' ++ r5) Hr' Hc).
      match type of Hmax with
      | Fence.optChar _ _ (fun s4 => Fence.lazyStar _ s4 ?K) = None =>
          assert (HK : K g2' r5 = Some (Fence.mkGroups g1 g2'))
            by (cbv beta; rewrite closing_spec, Eb; reflexivity);
          pose proof (lazyStar_some g2' r5 K _ HK) as Hne;
          destruct (Fence.lazyStar Fence.anyChar (g2' ++ r5) K) as [z|] eqn:Ez;
            [|congruence];
          apply (optChar_some 10 (g2' ++ r5)
                   (fun s4 => Fence.lazyStar Fence.anyChar s4 K) z Ez Hmax)
      end.
    - destruct (isWhiteSpace b) eqn:Hb; [|reflexivity]. exfalso.
      assert (Hq : [b] <> []) by discriminate.
      specialize (Hmin front [b] Hlast Hq). rewrite closing_spec in Hmin.
      simpl in Hmin. rewrite Hb, Eb in Hmin. discriminate Hmin. }
  exists tag, m, ws2. simpl.
  split; [rewrite Hs, Hs1, Hs2, Hr, Hr5; reflexivity|].
  repeat split; auto.
Qed.

(** X1.  When the fence pattern matches, the text is the opening
    backticks, a run of word characters (the first capture, undefined
    when the run is empty), whitespace, the second capture, whitespace
    and the closing backticks; the second capture is empty or has no
    whitespace at either end, so trimming it changes nothing. *)
Theorem X1_matchFence_sound (s : jsstring) (g : Fence.groups) :
  Fence.matchFence s = Some g ->
  exists tag ws1 ws2,
    s = Fence.backticks ++ tag ++ ws1 ++ Fence.group2 g ++ ws2 ++ Fence.backticks
    /\ forallb Fence.isWordChar tag = true
    /\ forallb isWhiteSpace ws1 = true
    /\ forallb isWhiteSpace ws2 = true
    /\ Fence.group1 g = match tag with [] => None | _ :: _ => Some tag end
    /\ (Fence.group2 g = [] \/ isTrimmed (Fence.group2 g) = true)
    /\ trim (Fence.group2 g) = Fence.group2 g.
Proof.
  intros H.
  destruct (matchFence_inv s g H) as (tag & ws1 & ws2 & Hs & Htag & H1 & H2 & Hg1 & Hg2).
  exists tag, ws1, ws2. repeat split; auto.
  destruct Hg2 as [-> | Hg2]; [reflexivity | apply (isTrimmed_trim _ Hg2)].
Qed.

Lemma trimStart_head_nonws (s r : jsstring) (c : N) :
  trimStart s = c :: r -> isWhiteSpace c = false.
Proof.
  induction s as [|a s IH]; simpl; [discriminate|].
  destruct (isWhiteSpace a) eqn:Ha; [exact IH|].
  intros H. injection H as <- _. exact Ha.
Qed.

Lemma trimStart_keeps_last (l : jsstring) (c : N) :
  isWhiteSpace c = false -> exists l', trimStart (l ++ [c]) = l' ++ [c].
Proof.
  intros Hc. induction l as [|a l (l' & IH)]; simpl.
  - rewrite Hc. exists []. reflexivity.
  - destruct (isWhiteSpace a); [exists l'; exact IH|].
    exists (a :: l). reflexivity.
Qed.

(** A trimmed text is empty or has no whitespace at either end. *)
Lemma trim_trimmed (s : jsstring) : trim s = [] \/ isTrimmed (trim s) = true.
Proof.
  unfold trim, trimEnd.
  destruct (trimStart s) as [|c a] eqn:Ea; [left; reflexivity | right].
  pose proof (trimStart_head_nonws s a c Ea) as Hc.
  simpl rev. destruct (trimStart_keeps_last (rev a) c Hc) as (l' & Hl).
  destruct (trimStart (rev a ++ [c])) as [|b t] eqn:Eb.
  - destruct l'; discriminate Hl.
  - pose proof (trimStart_head_nonws _ _ _ Eb) as Hb.
    apply (isTrimmed_intro (rev (b :: t)) (rev l') (rev t) c b); auto.
    rewrite Hl, rev_app_distr. reflexivity.
Qed.

Lemma trim_idempotent (s : jsstring) : trim (trim s) = trim s.
Proof.
  destruct (trim_trimmed s) as [-> | H]; [reflexivity|].
  apply (isTrimmed_trim _ H).
Qed.

Lemma trimStart_blank (s : jsstring) :
  trimStart s = [] <-> forallb isWhiteSpace s = true.
Proof.
  induction s as [|c s IH]; simpl; [split; reflexivity|].
  destruct (isWhiteSpace c); simpl; [exact IH|]. split; discriminate.
Qed.

(** A text trims to nothing exactly when it is all whitespace. *)
Lemma trim_blank (s : jsstring) : trim s = [] <-> forallb isWhiteSpace s = true.
Proof.
  split.
  - intros H. apply trimStart_blank.
    destruct (trimStart s) as [|c a] eqn:Ea; [reflexivity|]. exfalso.
    destruct (trim_trimmed s) as [_ | Ht].
    + unfold trim, trimEnd in H. rewrite Ea in H.
      pose proof (trimStart_head_nonws s a c Ea) as Hc.
      simpl rev in H. destruct (trimStart_keeps_last (rev a) c Hc) as (l' & Hl).
      rewrite Hl, rev_app_distr in H. discriminate H.
    + rewrite H in Ht. discriminate Ht.
  - intros H. apply trimStart_blank in H. unfold trim, trimEnd. rewrite H. reflexivity.
Qed.

(** X2.  The text handed to [JSON.parse] is always trimmed, and it is
    empty exactly when the response is blank: the error for an empty
    JSON string is raised for blank responses and for no other, a fence
    around nothing included. *)
Theorem X2_payload_empty_iff_blank (text : jsstring) :
  trim (payloadOf text) = payloadOf text
  /\ (payloadOf text = [] <-> forallb isWhiteSpace text = true)
  /\ (parseResponse text = rethrow emptyJsonError
      <-> forallb isWhiteSpace text = true).
Proof.
  assert (Hempty : payloadOf text = [] <-> trim text = []).
  { unfold payloadOf.
    destruct (Fence.matchFence (trim text)) as [g|] eqn:E; [|reflexivity].
    destruct (matchFence_inv _ _ E) as (tag & ws1 & ws2 & Hs & _ & _ & _ & _ & Hg2).
    destruct (Fence.group2 g) as [|c r] eqn:Eg; simpl; [reflexivity|].
    destruct Hg2 as [Hg2 | Hg2]; [discriminate|].
    destruct (isTrimmed_trim _ Hg2) as [Ht _]. rewrite Ht.
    split; [discriminate|]. intros H. rewrite H in Hs. discriminate Hs. }
  split; [|split].
  - unfold payloadOf.
    destruct (Fence.matchFence (trim text)) as [g|]; [|apply trim_idempotent].
    destruct (truthy (Fence.group2 g)); apply trim_idempotent.
  - rewrite Hempty. apply trim_blank.
  - rewrite <- trim_blank, <- Hempty. unfold parseResponse. split.
    + destruct (payloadOf text) as [|c r]; [reflexivity|]. simpl.
      destruct (Json.parse (c :: r)); unfold rethrow; intros H; discriminate H.
    + intros ->. reflexivity.
Qed.

(** X3.  A well-formed fence is transparent: a response that wraps a
    payload in a fence, whatever whitespace surrounds it, has the same
    outcome as the response that is the bare payload (a payload that
    does not itself open with backticks). *)
Theorem X3_fence_transparent (ai1 ai2 : GoogleGenAI) (prompt : jsstring)
    (before tag lineEnd payload beforeClose after : jsstring) :
  forallb isWhiteSpace before = true -> forallb isWhiteSpace after = true ->
  forallb Fence.isWordChar tag = true ->
  forallb isWhiteSpace lineEnd = true -> lineEnd <> [] ->
  isTrimmed payload = true ->
  forallb isWhiteSpace beforeClose = true ->
  Json.stripPrefix Fence.backticks payload = None ->
  generateContent ai1 prompt
  = ContentResponse (before ++ fenced tag lineEnd payload beforeClose ++ after) ->
  generateContent ai2 prompt = ContentResponse payload ->
  generateJson (Some ai1) prompt = generateJson (Some ai2) prompt.
Proof.
  intros Hb Ha Htag Hline Hne Hpay Hclose Hbare H1 H2.
  unfold generateJson. rewrite H1, H2. unfold parseResponse.
  rewrite (payloadOf_fenced before tag lineEnd payload beforeClose after
             Hb Ha Htag Hline Hne Hpay Hclose).
  destruct (isTrimmed_trim payload Hpay) as [Ht _].
  rewrite (payloadOf_unfenced payload) by (rewrite Ht; exact Hbare).
  rewrite Ht. reflexivity.
Qed.

(* ===================================================================== *)
(** * Further properties of the chat component *)
(* ===================================================================== *)

(** ** Finalized entries *)

Lemma update_not_loading (f : ChatMessage.t -> ChatMessage.t) (loadingId : jsstring)
    (m : ChatMessage.t) :
  ChatMessage.loading m = false ->
  (if isLoadingEntry loadingId m then f m else m) = m.
Proof. intros H. rewrite (isLoadingEntry_not_loading loadingId m H). reflexivity. Qed.

Lemma step_keeps_final (h h' : list ChatMessage.t) :
  TranscriptStep h h' ->
  forall i m, nth_error h i = Some m -> ChatMessage.loading m = false ->
              nth_error h' i = Some m.
Proof.
  intros Hstep i m Hi Hm. destruct Hstep.
  - unfold appendTurn. rewrite nth_error_app1; [exact Hi|].
    apply nth_error_Some. congruence.
  - unfold chunkUpdate. rewrite nth_error_map, Hi. simpl.
    rewrite (isLoadingEntry_not_loading loadingId m Hm). reflexivity.
  - unfold errorUpdate. rewrite nth_error_map, Hi. simpl.
    rewrite (isLoadingEntry_not_loading loadingId m Hm). reflexivity.
  - unfold completeUpdate. rewrite nth_error_map, Hi. simpl.
    rewrite (isLoadingEntry_not_loading loadingId m Hm). reflexivity.
Qed.

Lemma steps_keep_final (h h' : list ChatMessage.t) :
  TranscriptSteps h h' ->
  forall i m, nth_error h i = Some m -> ChatMessage.loading m = false ->
              nth_error h' i = Some m.
Proof.
  induction 1 as [|h h' h'' _ IH Hstep]; intros i m Hi Hm; [exact Hi|].
  apply (step_keeps_final h' h'' Hstep). - apply IH; assumption. - exact Hm.
Qed.

Lemma steps_trans (h1 h2 h3 : list ChatMessage.t) :
  TranscriptSteps h1 h2 -> TranscriptSteps h2 h3 -> TranscriptSteps h1 h3.
Proof.
  intros H12 H23. induction H23 as [|h h' h'' _ IH Hstep]; [exact H12|].
  eapply StepsNext; [apply IH; exact H12 | exact Hstep].
Qed.

(** What the three updaters of a turn preserve, a whole turn
    preserves. *)
Section TurnPreserves.
Variable P : list ChatMessage.t -> Prop.
Hypothesis P_chunk : forall l a h, P h -> P (chunkUpdate l a h).
Hypothesis P_error : forall l f h, P h -> P (errorUpdate l f h).
Hypothesis P_complete : forall l f a s h, P h -> P (completeUpdate l f a s h).

Lemma forAwait_preserves (sub : Submission) (items : list StreamItem) (w : World) :
  P (chatHistory w) ->
  P (chatHistory (fst (forAwait (onChunk sub) (fun st => st) items w))).
Proof.
  revert w. induction items as [|[text | cause] rest IH]; intros w Hw; simpl; auto.
  apply IH. unfold onChunk. simpl. apply P_chunk. exact Hw.
Qed.

Lemma runStream_preserves (ai : option GoogleGenAI) (documents : list Document.t)
    (sub : Submission) (w : World) :
  P (chatHistory w) -> P (chatHistory (runStream ai documents sub w)).
Proof.
  intros Hw. unfold runStream, generateTextStream.
  assert (Herr : forall cause w0, P (chatHistory w0) ->
                   P (chatHistory (onComplete_call ai sub (onError sub cause w0)))).
  { intros cause w0 H0. unfold onComplete_call, onError. simpl.
    apply P_error. exact H0. }
  destruct ai as [service|]; [|apply Herr; exact Hw].
  destruct (generateContentStream service _) as [cause | items].
  - apply Herr. exact Hw.
  - pose proof (forAwait_preserves sub items
                  (perform [StreamRequest (groundingPrompt documents (questionToSubmit sub))] w)
                  Hw) as Hfor.
    destruct (forAwait _ _ items _) as [w2 [cause|]]; simpl in Hfor.
    + apply Herr. exact Hfor.
    + exact Hfor.
Qed.

Lemma turn_preserves (ai : option GoogleGenAI) (documents : list Document.t)
    (sub : Submission) (w : World) :
  P (chatHistory w) ->
  P (chatHistory (onComplete_resume ai sub (runStream ai documents sub w))).
Proof.
  intros Hw. unfold onComplete_resume. simpl.
  apply P_complete. apply runStream_preserves. exact Hw.
Qed.

End TurnPreserves.

Lemma useChat_steps (ai : option GoogleGenAI) (documents : list Document.t)
    (w : World) (u : Use) :
  TranscriptSteps (chatHistory w) (chatHistory (useChat ai documents w u)).
Proof.
  unfold useChat, handleSendMessage_settled, submit.
  destruct (negb (truthy (trim _))); [apply StepsRefl|].
  destruct (negb (isAIServiceAvailable ai)); [apply StepsRefl|].
  apply (turn_preserves (TranscriptSteps (chatHistory w))).
  - intros l a h Hh. eapply StepsNext; [exact Hh | apply StepChunk].
  - intros l f h Hh. eapply StepsNext; [exact Hh | apply StepError].
  - intros l f a s h Hh. eapply StepsNext; [exact Hh | apply StepComplete].
  - simpl. destruct (negb (truthy_opt (direct u))); simpl;
      (eapply StepsNext; [apply StepsRefl | apply StepSubmit]).
Qed.

Lemma session_steps (ai : option GoogleGenAI) (documents : list Document.t)
    (uses : list Use) (w : World) :
  TranscriptSteps (chatHistory w) (chatHistory (session ai documents uses w)).
Proof.
  revert w. unfold session.
  induction uses as [|u uses IH]; intros w; simpl; [apply StepsRefl|].
  eapply steps_trans; [apply useChat_steps | apply IH].
Qed.

(** X4.  A transcript entry that is not loading is never changed again:
    whatever is submitted later, and however the service answers, the
    entry stays at its place as it is (so no entry goes back to
    loading, and a final answer, an error text or attached sources are
    never overwritten). *)
Theorem X4_final_entries_are_kept (ai : option GoogleGenAI)
    (documents : list Document.t) (uses : list Use) (w : World)
    (i : nat) (m : ChatMessage.t) :
  nth_error (chatHistory w) i = Some m ->
  ChatMessage.loading m = false ->
  nth_error (chatHistory (session ai documents uses w)) i = Some m.
Proof.
  intros Hi Hm.
  apply (steps_keep_final (chatHistory w) _ (session_steps ai documents uses w) i m);
    assumption.
Qed.

(** ** The transcript of a session *)

Lemma map_not_loading (f : ChatMessage.t -> ChatMessage.t) (loadingId : jsstring)
    (prev : list ChatMessage.t) :
  Forall (fun m => ChatMessage.loading m = false) prev ->
  map (fun msg => if isLoadingEntry loadingId msg then f msg else msg) prev = prev.
Proof.
  induction 1 as [|m prev Hm _ IH]; simpl; [reflexivity|].
  rewrite (isLoadingEntry_not_loading loadingId m Hm), IH. reflexivity.
Qed.

Lemma app_same_length {A} (a b t t' : list A) :
  List.length t = List.length t' -> a ++ t = b ++ t' -> a = b /\ t = t'.
Proof.
  intros Hlen Heq.
  assert (Hab : List.length a = List.length b).
  { apply (f_equal (@List.length A)) in Heq. rewrite !length_app in Heq. lia. }
  revert b Hab Heq. induction a as [|x a IH]; intros [|y b] Hab Heq;
    simpl in Hab; try discriminate.
  - auto.
  - simpl in Heq. injection Heq as -> Heq. destruct (IH b) as [-> ->]; auto.
Qed.

Lemma queryOf_use (u : Use) (w : World) :
  queryOf (direct u) (setCurrentQuestion (typed u) w) = queryOfUse u.
Proof. unfold queryOf, queryOfUse. destruct (direct u); reflexivity. Qed.

Lemma settledEntry_not_loading (service : GoogleGenAI) (documents : list Document.t)
    (u : Use) :
  ChatMessage.loading (settledEntry service documents u) = false.
Proof. unfold settledEntry. destruct (transportFailure _); reflexivity. Qed.

(** One use of the chat with the service available, on a transcript
    without loading entries: the entries of the use are appended and
    nothing else changes. *)
Lemma useChat_available (service : GoogleGenAI) (documents : list Document.t)
    (w : World) (u : Use) :
  Forall (fun m => ChatMessage.loading m = false) (chatHistory w) ->
  isLoading w = false ->
  chatHistory (useChat (Some service) documents w u)
  = chatHistory w ++ turnEntries service documents u
  /\ isLoading (useChat (Some service) documents w u) = false.
Proof.
  intros Hprev Hload. unfold turnEntries, startsTurn.
  pose (w1 := setCurrentQuestion (typed u) w).
  assert (Huse : useChat (Some service) documents w u
                 = handleSendMessage_settled (Some service) documents (clockOf u)
                     (direct u) w1) by reflexivity.
  assert (Hqw : queryOf (direct u) w1 = queryOfUse u) by apply queryOf_use.
  rewrite Huse.
  destruct (truthy (trim (queryOfUse u))) eqn:Hq.
  - assert (Hq' : truthy (trim (queryOf (direct u) w1)) = true)
      by (rewrite Hqw; exact Hq).
    destruct (turn_settled service documents (clockOf u) (direct u) w1 Hq')
      as (_ & S2 & S3).
    rewrite Hqw in S3.
    split; [|exact S2].
    assert (Hframe : exists t,
               chatHistory (handleSendMessage_settled (Some service) documents
                              (clockOf u) (direct u) w1) = chatHistory w ++ t
               /\ List.length t = 2%nat).
    { unfold handleSendMessage_settled.
      destruct (submit_started service documents (clockOf u) (direct u) w1 Hq')
        as (w0 & Hsub & Hhist & _).
      rewrite Hsub.
      apply (turn_preserves
               (fun h => exists t, h = chatHistory w ++ t /\ List.length t = 2%nat)).
      - intros l a h (t & -> & Ht). exists (chunkUpdate l a t).
        unfold chunkUpdate. rewrite map_app, (map_not_loading _ l _ Hprev), length_map.
        auto.
      - intros l f h (t & -> & Ht). exists (errorUpdate l f t).
        unfold errorUpdate. rewrite map_app, (map_not_loading _ l _ Hprev), length_map.
        auto.
      - intros l f a s h (t & -> & Ht). exists (completeUpdate l f a s t).
        unfold completeUpdate.
        rewrite map_app, (map_not_loading _ l _ Hprev), length_map. auto.
      - rewrite Hhist. eexists. split; reflexivity. }
    destruct Hframe as (t & Ht & Hlen). rewrite Ht. f_equal.
    unfold settledEntry.
    destruct (transportFailure _); destruct S3 as [older S3];
      rewrite Ht in S3; apply app_same_length in S3; try exact Hlen;
      destruct S3 as [_ ->]; reflexivity.
  - rewrite app_nil_r. unfold handleSendMessage_settled, submit.
    rewrite Hqw, Hq. simpl. auto.
Qed.

(** X5.  With the service available, the transcript after any session
    (uses one after the other, each turn followed to its end before the
    next) is the concatenation of what each use adds: nothing for a blank
    query, else the user entry and then the settled AI entry (the answer,
    or the error entry).  So no entry is left loading, the loading flag
    is down, and user and AI entries alternate. *)
Theorem X5_session_transcript (service : GoogleGenAI)
    (documents : list Document.t) (uses : list Use) :
  let w := session (Some service) documents uses initialWorld in
  chatHistory w = flat_map (turnEntries service documents) uses
  /\ Forall (fun m => ChatMessage.loading m = false) (chatHistory w)
  /\ isLoading w = false
  /\ map ChatMessage.sender (chatHistory w)
     = flat_map (fun u => if startsTurn u then [Sender.user; Sender.ai] else []) uses.
Proof.
  cbv zeta.
  assert (Hgen : forall w0,
             Forall (fun m => ChatMessage.loading m = false) (chatHistory w0) ->
             isLoading w0 = false ->
             chatHistory (session (Some service) documents uses w0)
             = chatHistory w0 ++ flat_map (turnEntries service documents) uses
             /\ isLoading (session (Some service) documents uses w0) = false).
  { unfold session. induction uses as [|u uses IH]; intros w0 Hprev Hload; simpl.
    - rewrite app_nil_r. auto.
    - destruct (useChat_available service documents w0 u Hprev Hload) as [Hh Hl].
      destruct (IH (useChat (Some service) documents w0 u)) as [IH1 IH2].
      + rewrite Hh. apply Forall_app. split; [exact Hprev|].
        unfold turnEntries. destruct (startsTurn u); [|constructor].
        repeat constructor. apply settledEntry_not_loading.
      + exact Hl.
      + rewrite IH1, Hh, <- app_assoc. auto. }
  destruct (Hgen initialWorld (Forall_nil _) eq_refl) as [Hh Hl].
  simpl in Hh. rewrite Hh. split; [reflexivity|].
  assert (Hall : Forall (fun m => ChatMessage.loading m = false)
                   (flat_map (turnEntries service documents) uses)).
  { clear. induction uses as [|u uses IH]; simpl; [constructor|].
    apply Forall_app. split; [|exact IH].
    unfold turnEntries. destruct (startsTurn u); [|constructor].
    repeat constructor. apply settledEntry_not_loading. }
  split; [exact Hall|]. split; [exact Hl|].
  clear. induction uses as [|u uses IH]; simpl; [reflexivity|].
  rewrite map_app, IH. f_equal.
  unfold turnEntries. destruct (startsTurn u); [|reflexivity].
  simpl. f_equal. f_equal. unfold settledEntry.
  destruct (transportFailure _); reflexivity.
Qed.

(** ** Voice input *)

Lemma finalTranscript_fold (rs : list SpeechResult) (acc : jsstring) :
  fold_left (fun finalTranscript r =>
               if isFinal r then finalTranscript ++ transcript r else finalTranscript)
            rs acc
  = acc ++ List.concat (map transcript (filter isFinal rs)).
Proof.
  revert acc. induction rs as [|r rs IH]; intros acc; simpl.
  - rewrite app_nil_r. reflexivity.
  - rewrite IH. destruct (isFinal r); simpl; [rewrite app_assoc|]; reflexivity.
Qed.

Lemma filter_interim (rs : list SpeechResult) :
  forallb (fun r => negb (isFinal r)) rs = true -> filter isFinal rs = [].
Proof.
  induction rs as [|r rs IH]; simpl; [reflexivity|].
  intros H. apply andb_true_iff in H. destruct H as [Hr Hrs].
  destruct (isFinal r); [discriminate | exact (IH Hrs)].
Qed.

Lemma trim_nonblank_suffix (a b : jsstring) : trim b <> [] -> trim (a ++ b) <> [].
Proof.
  intros Hb H. apply Hb. apply trim_blank. apply trim_blank in H.
  rewrite forallb_app in H. apply andb_true_iff in H. apply H.
Qed.

(** X6.  A recognition event changes the question only through its
    final results from [resultIndex] on: interim results and earlier
    results contribute nothing, and without final text the state is
    untouched.  Final text is appended, trimmed, after a space to a
    question that is not blank (which is kept as it is) and replaces a
    blank one; when the final text is not blank the question it leaves
    is not blank either, so the send button is enabled when the service is
    available and no turn is loading.  The transcript, the loading
    flag and the effects are never touched. *)
Theorem X6_onresult (ai : option GoogleGenAI) (resultIndex : nat)
    (results : list SpeechResult) (w : World) :
  let heard := finalTranscriptOf resultIndex results in
  let w' := onresult resultIndex results w in
  heard = List.concat (map transcript (filter isFinal (skipn resultIndex results)))
  /\ (forallb (fun r => negb (isFinal r)) (skipn resultIndex results) = true -> w' = w)
  /\ (heard <> [] -> trim (currentQuestion w) <> [] ->
      currentQuestion w' = currentQuestion w ++ js " " ++ trim heard)
  /\ (heard <> [] -> trim (currentQuestion w) = [] ->
      currentQuestion w' = trim heard)
  /\ (trim heard <> [] ->
      trim (currentQuestion w') <> []
      /\ (isAIServiceAvailable ai = true -> isLoading w = false ->
          canSend ai w' = true))
  /\ chatHistory w' = chatHistory w /\ isLoading w' = isLoading w
  /\ effects w' = effects w.
Proof.
  cbv zeta.
  assert (Hheard : finalTranscriptOf resultIndex results
                   = List.concat (map transcript
                                    (filter isFinal (skipn resultIndex results)))).
  { unfold finalTranscriptOf. rewrite finalTranscript_fold. reflexivity. }
  unfold onresult.
  split; [exact Hheard|]. split; [|split; [|split; [|split]]].
  - intros Hinterim. rewrite Hheard, (filter_interim _ Hinterim). reflexivity.
  - intros Hne Hq. apply truthy_nonempty in Hne. rewrite Hne. simpl.
    unfold dictate. apply truthy_nonempty in Hq. rewrite Hq.
    rewrite <- app_assoc. reflexivity.
  - intros Hne Hq. apply truthy_nonempty in Hne. rewrite Hne. simpl.
    unfold dictate. rewrite Hq. reflexivity.
  - intros Hne.
    assert (Hh : finalTranscriptOf resultIndex results <> []).
    { intros E. rewrite E in Hne. apply Hne. reflexivity. }
    apply truthy_nonempty in Hh. rewrite Hh.
    assert (Hq : trim (dictate (finalTranscriptOf resultIndex results)
                         (currentQuestion w)) <> []).
    { unfold dictate. apply trim_nonblank_suffix. rewrite trim_idempotent. exact Hne. }
    split; [exact Hq|]. intros Hai Hload. unfold canSend. simpl.
    apply truthy_nonempty in Hq. rewrite Hai, Hload, Hq. reflexivity.
  - destruct (truthy (finalTranscriptOf resultIndex results)); simpl; auto.
Qed.

(** ** Tags *)

Lemma split_cons (sep : N) (s : jsstring) :
  exists piece pieces, Text.split sep s = piece :: pieces.
Proof.
  destruct s as [|c r]; simpl; [eauto|].
  destruct (c =? sep); [eauto|].
  destruct (Text.split sep r); eauto.
Qed.

Lemma split_no_sep (sep : N) (s : jsstring) :
  Forall (fun piece => ~ In sep piece) (Text.split sep s).
Proof.
  induction s as [|c r IH]; simpl.
  - repeat constructor. intros [].
  - destruct (c =? sep) eqn:E.
    + constructor; [intros [] | exact IH].
    + destruct (Text.split sep r) as [|piece pieces].
      * repeat constructor. intros [H | []]. subst c.
        rewrite N.eqb_refl in E. discriminate.
      * inversion IH as [|? ? Hp Hps]; subst. constructor; [|exact Hps].
        intros [H | H]; [|exact (Hp H)]. subst c.
        rewrite N.eqb_refl in E. discriminate.
Qed.

Lemma split_piece (sep : N) (t x : jsstring) :
  ~ In sep t -> Text.split sep (t ++ sep :: x) = t :: Text.split sep x.
Proof.
  induction t as [|c t IH]; intros Hn; simpl.
  - rewrite N.eqb_refl. reflexivity.
  - destruct (c =? sep) eqn:E.
    + apply N.eqb_eq in E. exfalso. apply Hn. left. exact E.
    + rewrite IH; [reflexivity|]. intros H. apply Hn. right. exact H.
Qed.

Lemma split_whole (sep : N) (t : jsstring) :
  ~ In sep t -> Text.split sep t = [t].
Proof.
  induction t as [|c t IH]; intros Hn; simpl; [reflexivity|].
  destruct (c =? sep) eqn:E.
  - apply N.eqb_eq in E. exfalso. apply Hn. left. exact E.
  - rewrite IH; [reflexivity|]. intros H. apply Hn. right. exact H.
Qed.

Lemma trimStart_In (s : jsstring) (c : N) : In c (trimStart s) -> In c s.
Proof.
  induction s as [|a s IH]; simpl; [auto|].
  destruct (isWhiteSpace a); [right; apply IH; assumption | auto].
Qed.

Lemma trim_In (s : jsstring) (c : N) : In c (trim s) -> In c s.
Proof.
  unfold trim, trimEnd. intros H.
  apply in_rev, trimStart_In, in_rev, trimStart_In in H. exact H.
Qed.

Lemma parseTags_leading_space (s : jsstring) (c : N) :
  isWhiteSpace c = true -> c <> comma -> parseTags (c :: s) = parseTags s.
Proof.
  intros Hc Hne. unfold parseTags. simpl.
  destruct (c =? comma) eqn:E; [apply N.eqb_eq in E; contradiction|].
  destruct (split_cons comma s) as (piece & pieces & Hs). rewrite Hs. simpl.
  replace (trim (c :: piece)) with (trim piece); [reflexivity|].
  unfold trim. simpl. rewrite Hc. reflexivity.
Qed.

(** X7.  The tags [handleSubmit] reads from the form text are never
    empty, have no whitespace at either end and hold no comma; a text of
    nothing but whitespace and commas gives no tag at all. *)
Theorem X7_parseTags_well_formed (tags : jsstring) :
  Forall wellFormedTag (parseTags tags)
  /\ (forallb (fun c => isWhiteSpace c || (c =? comma)) tags = true ->
      parseTags tags = []).
Proof.
  split.
  - unfold parseTags. apply Forall_forall. intros t Ht.
    apply filter_In in Ht. destruct Ht as [Hin Htruthy].
    apply in_map_iff in Hin. destruct Hin as (piece & <- & Hpiece).
    split.
    + destruct (trim_trimmed piece) as [E | E]; [|exact E].
      rewrite E in Htruthy. discriminate.
    + intros Hc. apply trim_In in Hc.
      pose proof (split_no_sep comma tags) as Hall.
      rewrite Forall_forall in Hall. exact (Hall piece Hpiece Hc).
  - induction tags as [|c tags IH]; [reflexivity|].
    simpl. intros H. apply andb_true_iff in H. destruct H as [Hc Hrest].
    specialize (IH Hrest).
    destruct (c =? comma) eqn:E.
    + unfold parseTags in IH |- *. simpl. rewrite E. simpl. exact IH.
    + rewrite orb_false_r in Hc. rewrite parseTags_leading_space; auto.
      intros ->. discriminate E.
Qed.

Lemma parseTags_piece (t x : jsstring) :
  ~ In comma t ->
  parseTags (t ++ comma :: x)
  = (if truthy (trim t) then [trim t] else []) ++ parseTags x.
Proof.
  intros Hc. unfold parseTags. rewrite (split_piece comma t x Hc). simpl.
  destruct (truthy (trim t)); reflexivity.
Qed.

Lemma parseTags_joined (tags : list jsstring) :
  Forall wellFormedTag tags -> parseTags (join (js ", ") tags) = tags.
Proof.
  induction 1 as [|t tags [Ht Hc] Hrest IH]; [reflexivity|].
  destruct (isTrimmed_trim t Ht) as [Htrim Hne].
  apply truthy_nonempty in Hne.
  destruct tags as [|t2 tags].
  - simpl. unfold parseTags. rewrite (split_whole comma t Hc). simpl.
    rewrite Htrim, Hne. reflexivity.
  - change (join (js ", ") (t :: t2 :: tags))
      with (t ++ comma :: 32 :: join (js ", ") (t2 :: tags)).
    rewrite (parseTags_piece t _ Hc), Htrim, Hne.
    rewrite parseTags_leading_space; [|reflexivity | discriminate].
    rewrite IH. reflexivity.
Qed.

Lemma joinTags_strings (numberText : jsstring -> jsstring) (tags : list jsstring) :
  joinTags numberText (map Json.Str tags) = join (js ", ") tags.
Proof. unfold joinTags. rewrite map_map. simpl. rewrite map_id. reflexivity. Qed.

(** X8.  Suggested tags survive the form: when the service answers the
    tag request with an array of well-formed tags (not empty, no
    whitespace at either end, no comma), submitting the form adds a
    document, first in the repository and not a favourite, that carries
    exactly those tags in that order. *)
Theorem X8_suggested_tags_round_trip (numberText : jsstring -> jsstring)
    (service : GoogleGenAI) (m : Manager) (documents : list Stored)
    (content textType : jsstring) (now date : N) (tags : list jsstring) :
  formFullContent (formState m) = Some content -> content <> [] ->
  generateJson (Some service) (suggestTagsPrompt content)
  = Returned (Json.Array (map Json.Str tags)) ->
  Forall wellFormedTag tags ->
  let m' := handleSuggestTags numberText (Some service) m in
  exists d,
    snd (handleSubmit textType now date m' documents) = d :: documents
    /\ Document.tags (document d) = tags
    /\ Document.name (document d) = formName (formState m)
    /\ Document.contentSnippet (document d) = formContentSnippet (formState m)
    /\ Document.isFavorite (document d) = false
    /\ isSuggestingTags m' = false
    /\ notices m' = notices m.
Proof.
  intros Hcontent Hne Hreply Htags. cbv zeta.
  unfold handleSuggestTags. rewrite Hcontent. unfold truthy_opt.
  apply truthy_nonempty in Hne. rewrite Hne.
  change (negb true || negb (isAIServiceAvailable (Some service))) with false.
  cbv iota. rewrite Hreply.
  unfold handleSubmit, addDocument. simpl.
  eexists. split; [reflexivity|]. simpl.
  rewrite joinTags_strings, (parseTags_joined tags Htags).
  repeat split; reflexivity.
Qed.

(** X9.  A tag suggestion that does not end in an array never touches
    the form: without full content or without the service, after an
    answer that is not an array, and after any error, the form is as it
    was and exactly one notice is shown; a request is issued only past
    the guard, and then exactly one. *)
Theorem X9_failed_suggestion_keeps_form (numberText : jsstring -> jsstring)
    (ai : option GoogleGenAI) (m : Manager) :
  let m' := handleSuggestTags numberText ai m in
  let content := match formFullContent (formState m) with Some c => c | None => [] end in
  (content = [] \/ ai = None ->
   formState m' = formState m /\ tagRequests m' = tagRequests m
   /\ notices m' = notices m ++ [NoticeText tagsGuardNotice]
   /\ isSuggestingTags m' = isSuggestingTags m)
  /\ (content <> [] -> ai <> None ->
      tagRequests m' = tagRequests m ++ [suggestTagsPrompt content]
      /\ isSuggestingTags m' = false
      /\ ((exists items,
             generateJson ai (suggestTagsPrompt content) = Returned (Json.Array items)
             /\ formTags (formState m') = joinTags numberText items
             /\ notices m' = notices m)
          \/ (formState m' = formState m
              /\ exists notice, notices m' = notices m ++ [notice]))).
Proof.
  cbv zeta. unfold handleSuggestTags. split.
  - intros [Hc | Hai].
    + destruct (formFullContent (formState m)) as [c|]; simpl in *.
      * subst c. simpl. auto.
      * auto.
    + subst ai. simpl. rewrite orb_true_r. auto.
  - intros Hc Hai. destruct ai as [service|]; [|congruence].
    destruct (formFullContent (formState m)) as [c|] eqn:Ec; [|congruence].
    unfold truthy_opt. apply truthy_nonempty in Hc. rewrite Hc.
    change (negb true || negb (isAIServiceAvailable (Some service))) with false.
    cbv iota.
    destruct (generateJson (Some service) (suggestTagsPrompt c)) as [v | e] eqn:Eg.
    + destruct v; simpl; repeat split; auto;
        try (right; split; [reflexivity | eexists; reflexivity]).
      left. exists items. auto.
    + simpl. repeat split; auto. right. split; [reflexivity | eexists; reflexivity].
Qed.

(* ===================================================================== *)
(** * Properties of the repository and the form *)
(* ===================================================================== *)

Lemma storedId_withFavorite (b : bool) (d : Stored) :
  storedId (withFavorite b d) = storedId d.
Proof. reflexivity. Qed.

Lemma eqb_neq (a b : jsstring) : eqb a b = false <-> a <> b.
Proof.
  split.
  - intros H E. apply eqb_eq in E. congruence.
  - intros H. destruct (eqb a b) eqn:E; [|reflexivity].
    apply eqb_eq in E. contradiction.
Qed.

(** X10.  [updateDocument] keeps the number, the order and the ids of
    the documents: a document with another id stays as it is at its
    place, every document with the id of the update is replaced by it,
    and an update for an id that is not in the repository changes
    nothing. *)
Theorem X10_updateDocument_keeps_ids (updated : Stored) (documents : list Stored) :
  let documents' := updateDocument updated documents in
  List.length documents' = List.length documents
  /\ map storedId documents' = map storedId documents
  /\ (forall i d, nth_error documents i = Some d ->
        nth_error documents' i
        = Some (if eqb (storedId d) (storedId updated) then updated else d))
  /\ (~ In (storedId updated) (map storedId documents) -> documents' = documents).
Proof.
  cbv zeta. unfold updateDocument. split; [apply length_map|].
  split; [|split].
  - rewrite map_map. apply map_ext. intros d.
    destruct (eqb (storedId d) (storedId updated)) eqn:E; [|reflexivity].
    apply eqb_eq in E. symmetry. exact E.
  - intros i d Hi. rewrite nth_error_map, Hi. reflexivity.
  - intros Hnot. rewrite <- (map_id documents) at 2. apply map_ext_in.
    intros d Hd. destruct (eqb (storedId d) (storedId updated)) eqn:E; [|reflexivity].
    apply eqb_eq in E. exfalso. apply Hnot. rewrite <- E.
    apply in_map. exact Hd.
Qed.

Lemma NoDup_map_same {A B} (f : A -> B) (l : list A) (x y : A) :
  NoDup (map f l) -> In x l -> In y l -> f x = f y -> x = y.
Proof.
  induction l as [|a l IH]; simpl; intros Hnd Hx Hy Hf; [contradiction|].
  inversion Hnd as [|? ? Hnot Hnd']; subst.
  destruct Hx as [-> | Hx]; destruct Hy as [-> | Hy]; auto.
  - exfalso. apply Hnot. rewrite Hf. apply in_map. exact Hy.
  - exfalso. apply Hnot. rewrite <- Hf. apply in_map. exact Hx.
Qed.

(** With unique ids, toggling touches the document with the id and no
    other. *)
Lemma toggle_unique (docId : jsstring) (documents : list Stored) :
  NoDup (map storedId documents) ->
  handleToggleFavorite docId documents
  = map (fun d => if eqb (storedId d) docId
                  then withFavorite (negb (Document.isFavorite (document d))) d
                  else d) documents.
Proof.
  intros Hnd. unfold handleToggleFavorite.
  destruct (find (fun d => eqb (storedId d) docId) documents) as [doc|] eqn:Ef.
  - apply find_some in Ef. destruct Ef as [Hin Hid]. apply eqb_eq in Hid.
    unfold updateDocument. apply map_ext_in. intros d Hd.
    rewrite storedId_withFavorite, Hid.
    destruct (eqb (storedId d) docId) eqn:E; [|reflexivity].
    apply eqb_eq in E.
    rewrite (NoDup_map_same storedId documents d doc Hnd Hd Hin); [reflexivity|].
    congruence.
  - rewrite <- (map_id documents) at 1. apply map_ext_in. intros d Hd.
    pose proof (find_none _ _ Ef d Hd) as Hn. simpl in Hn. rewrite Hn. reflexivity.
Qed.

(** X11.  When the ids of the repository are unique, toggling the
    favourite flag of a document twice gives the repository back, and a
    single toggle flips the flag of the document with that id and
    changes nothing else: not the ids, the order, or any other
    document. *)
Theorem X11_toggle_favorite_twice (docId : jsstring) (documents : list Stored) :
  NoDup (map storedId documents) ->
  handleToggleFavorite docId (handleToggleFavorite docId documents) = documents
  /\ map storedId (handleToggleFavorite docId documents) = map storedId documents
  /\ (forall i d, nth_error documents i = Some d ->
        nth_error (handleToggleFavorite docId documents) i
        = Some (if eqb (storedId d) docId
                then withFavorite (negb (Document.isFavorite (document d))) d
                else d)).
Proof.
  intros Hnd.
  assert (Hids : map storedId (handleToggleFavorite docId documents)
                 = map storedId documents).
  { rewrite (toggle_unique docId documents Hnd), map_map. apply map_ext.
    intros d. destruct (eqb (storedId d) docId); reflexivity. }
  split; [|split; [exact Hids|]].
  - rewrite (toggle_unique docId (handleToggleFavorite docId documents))
      by (rewrite Hids; exact Hnd).
    rewrite (toggle_unique docId documents Hnd), map_map.
    rewrite <- (map_id documents) at 2. apply map_ext. intros d.
    destruct (eqb (storedId d) docId) eqn:E.
    + rewrite storedId_withFavorite, E.
      destruct d as [[i n t g c f s fav] up faqs]. unfold withFavorite. simpl.
      rewrite negb_involutive. reflexivity.
    + rewrite E. reflexivity.
  - intros i d Hi. rewrite (toggle_unique docId documents Hnd), nth_error_map, Hi.
    reflexivity.
Qed.

Lemma join_head (sep b : jsstring) (bs : list jsstring) :
  exists rest, join sep (b :: bs) = b ++ rest.
Proof.
  destruct bs as [|b' bs]; simpl.
  - exists []. rewrite app_nil_r. reflexivity.
  - eexists. reflexivity.
Qed.

(** X12.  A submitted document with a snippet leads the next prompt:
    [handleSubmit] puts it first in the repository, so it is the first of
    the documents selected for the context, followed by the first four
    of the documents that qualified before; its block opens the context,
    and the prompt shows the context, not the marker. *)
Theorem X12_new_document_leads_context (textType : jsstring) (now date : N)
    (m : Manager) (documents : list Stored) :
  formContentSnippet (formState m) <> [] ->
  let documents' := snd (handleSubmit textType now date m documents) in
  exists d,
    documents' = d :: documents
    /\ Document.contentSnippet (document d) = formContentSnippet (formState m)
    /\ selectedDocuments (documentsOf documents')
       = document d :: firstn 4 (filter qualifies (documentsOf documents))
    /\ (exists rest,
          contextSnippets (documentsOf documents') = renderBlock (document d) ++ rest)
    /\ knowledgeBase (documentsOf documents') = contextSnippets (documentsOf documents').
Proof.
  intros Hsnippet. cbv zeta. unfold handleSubmit, addDocument. simpl snd.
  eexists. split; [reflexivity|]. split; [reflexivity|].
  assert (Hsel : forall d0,
             Document.contentSnippet (document d0) <> [] ->
             selectedDocuments (documentsOf (d0 :: documents))
             = document d0 :: firstn 4 (filter qualifies (documentsOf documents))).
  { intros d0 H0. unfold selectedDocuments, documentsOf. simpl.
    unfold qualifies at 1. apply truthy_nonempty in H0. rewrite H0. reflexivity. }
  split; [apply Hsel; exact Hsnippet|]. split.
  - unfold contextSnippets. rewrite Hsel by exact Hsnippet. simpl map.
    apply join_head.
  - unfold knowledgeBase.
    destruct (contextSnippets _) as [|c cs] eqn:E; [|reflexivity].
    exfalso. unfold contextSnippets in E. rewrite Hsel in E by exact Hsnippet.
    simpl map in E.
    exact (join_cons_nonempty _ _ _ (renderBlock_nonempty _) E).
Qed.

(* ===================================================================== *)
(** * The error path and the totals *)
(* ===================================================================== *)

(** X13.  Whenever the stream of a turn fails, at its opening or after
    any number of chunks, the turn ends with the AI entry showing the
    fixed error text, whatever had been streamed: not loading, without
    sources, under the final id; the loading flag is down; and besides
    the stream request the turn issues an attribution request exactly
    when the text streamed before the failure is not blank. *)
Theorem X13_error_path (service : GoogleGenAI) (documents : list Document.t)
    (clock : Clock) (message : option jsstring) (w : World) (cause : JsError) :
  truthy (trim (queryOf message w)) = true ->
  let query := queryOf message w in
  let prompt := groundingPrompt documents query in
  let reply := generateContentStream service prompt in
  transportFailure reply = Some cause ->
  let settled := handleSendMessage_settled (Some service) documents clock message w in
  (exists m,
     lastEntry settled = Some m
     /\ ChatMessage.id m = finalAiMessageId (submissionOf documents clock query)
     /\ ChatMessage.sender m = Sender.ai
     /\ ChatMessage.text m = streamErrorText
     /\ ChatMessage.isLoading m = Some false
     /\ ChatMessage.sources m = None)
  /\ isLoading settled = false
  /\ effects settled
     = effects w ++ stopEffects w ++ [StreamRequest prompt]
       ++ (if truthy (trim (answerOf reply))
           then [JsonRequest (attributionPrompt query (contextSnippets documents)
                                (answerOf reply))]
           else []).
Proof.
  intros Hq. cbv zeta. intros Hfail.
  destruct (turn_inflight service documents clock message w Hq) as (_ & T2 & _).
  destruct (turn_settled service documents clock message w Hq) as (S1 & S2 & S3).
  rewrite Hfail in S3. rewrite fetchSourceAttribution_available in T2.
  split; [|split; [exact S2|]].
  - eexists. split; [apply (lastEntry_endsWith _ _ _ S3)|].
    repeat split; reflexivity.
  - rewrite S1, T2. destruct (truthy (trim (answerOf _))); reflexivity.
Qed.

Lemma toggle_absent (docId : jsstring) (documents : list Stored) :
  ~ In docId (map storedId documents) ->
  map (fun d => if eqb (storedId d) docId
                then withFavorite (negb (Document.isFavorite (document d))) d
                else d) documents = documents.
Proof.
  intros Hnot. rewrite <- (map_id documents) at 2. apply map_ext_in.
  intros d Hd. destruct (eqb (storedId d) docId) eqn:E; [|reflexivity].
  apply eqb_eq in E. exfalso. apply Hnot. rewrite <- E. apply in_map. exact Hd.
Qed.

Lemma toggle_count (docId : jsstring) (documents : list Stored) (doc : Stored) :
  NoDup (map storedId documents) ->
  find (fun d => eqb (storedId d) docId) documents = Some doc ->
  (totalBookmarks
     (map (fun d => if eqb (storedId d) docId
                    then withFavorite (negb (Document.isFavorite (document d))) d
                    else d) documents)
   + (if Document.isFavorite (document doc) then 1 else 0)
   = totalBookmarks documents
     + (if Document.isFavorite (document doc) then 0 else 1))%nat.
Proof.
  unfold totalBookmarks.
  induction documents as [|a l IH]; intros Hnd Hfind; [discriminate|].
  inversion Hnd as [|? ? Hnot Hnd']; subst. simpl in Hfind |- *.
  destruct (eqb (storedId a) docId) eqn:E.
  - injection Hfind as <-. apply eqb_eq in E. rewrite <- E.
    rewrite (toggle_absent (storedId a) l Hnot).
    destruct a as [[i n t g c f s fav] up faqs]. simpl.
    destruct fav; simpl; lia.
  - specialize (IH Hnd' Hfind).
    destruct (Document.isFavorite (document a)); simpl; lia.
Qed.

(** X14.  The totals of the analytics view follow the repository: a new
    document raises the number of documents by one and leaves the number
    of bookmarks; with unique ids, toggling the favourite flag of a
    document of the repository keeps the number of documents and moves
    the number of bookmarks by exactly one, up when the document was not
    a favourite and down when it was; toggling an id that is not there
    changes neither. *)
Theorem X14_totals_follow_repository (docId : jsstring) (documents : list Stored) :
  NoDup (map storedId documents) ->
  (forall now date name type tags contentSnippet fullContent sourceUrl,
     let documents' := addDocument now date name type tags contentSnippet
                         fullContent sourceUrl documents in
     totalDocuments documents' = S (totalDocuments documents)
     /\ totalBookmarks documents' = totalBookmarks documents)
  /\ totalDocuments (handleToggleFavorite docId documents) = totalDocuments documents
  /\ (forall doc,
        find (fun d => eqb (storedId d) docId) documents = Some doc ->
        totalBookmarks (handleToggleFavorite docId documents)
        = if Document.isFavorite (document doc)
          then pred (totalBookmarks documents)
          else S (totalBookmarks documents))
  /\ (forall doc,
        find (fun d => eqb (storedId d) docId) documents = Some doc ->
        Document.isFavorite (document doc) = true ->
        (0 < totalBookmarks documents)%nat)
  /\ (~ In docId (map storedId documents) ->
      handleToggleFavorite docId documents = documents).
Proof.
  intros Hnd. split; [|split; [|split; [|split]]].
  - intros. cbv zeta. split; reflexivity.
  - unfold totalDocuments. rewrite (toggle_unique docId documents Hnd).
    apply length_map.
  - intros doc Hfind. rewrite (toggle_unique docId documents Hnd).
    pose proof (toggle_count docId documents doc Hnd Hfind) as H.
    destruct (Document.isFavorite (document doc)); lia.
  - intros doc Hfind Hfav.
    pose proof (toggle_count docId documents doc Hnd Hfind) as H.
    rewrite Hfav in H. lia.
  - intros Hnot. rewrite (toggle_unique docId documents Hnd).
    apply toggle_absent. exact Hnot.
Qed.

(* ===================================================================== *)
(** * The requests of a session *)
(* ===================================================================== *)

(** The handlers of a turn never touch the recognition state. *)
Lemma forAwait_stopEffects (sub : Submission) (items : list StreamItem) (w : World) :
  stopEffects (fst (forAwait (onChunk sub) (fun st => st) items w)) = stopEffects w.
Proof.
  revert w. induction items as [|[text | cause] rest IH]; intros w; simpl;
    [reflexivity | | reflexivity].
  rewrite IH. reflexivity.
Qed.

Lemma runStream_stopEffects (ai : option GoogleGenAI) (documents : list Document.t)
    (sub : Submission) (w : World) :
  stopEffects (runStream ai documents sub w) = stopEffects w.
Proof.
  unfold runStream, generateTextStream.
  destruct ai as [service|]; [|reflexivity].
  destruct (generateContentStream service _) as [cause | items]; [reflexivity|].
  pose proof (forAwait_stopEffects sub items
                (perform [StreamRequest (groundingPrompt documents (questionToSubmit sub))] w))
    as Hfor.
  destruct (forAwait _ _ items _) as [w2 [cause|]]; simpl in Hfor;
    unfold stopEffects in Hfor |- *; simpl in Hfor |- *; exact Hfor.
Qed.

Lemma useChat_stopEffects (ai : option GoogleGenAI) (documents : list Document.t)
    (w : World) (u : Use) :
  stopEffects (useChat ai documents w u) = stopEffects w.
Proof.
  unfold useChat, handleSendMessage_settled, submit.
  destruct (negb (truthy (trim _))); [reflexivity|].
  destruct (negb (isAIServiceAvailable ai)); [reflexivity|].
  unfold onComplete_resume.
  change (stopEffects (setIsLoading false (setChatHistory ?f ?x))) with (stopEffects x).
  rewrite runStream_stopEffects.
  destruct (negb (truthy_opt (direct u))); reflexivity.
Qed.

(** One use of the chat with the service available and the recognition
    idle: the requests of the use are issued and nothing else. *)
Lemma useChat_requests (service : GoogleGenAI) (documents : list Document.t)
    (w : World) (u : Use) :
  stopEffects w = [] ->
  effects (useChat (Some service) documents w u)
  = effects w ++ turnRequests service documents u.
Proof.
  intros Hidle. unfold turnRequests, startsTurn.
  pose (w1 := setCurrentQuestion (typed u) w).
  assert (Huse : useChat (Some service) documents w u
                 = handleSendMessage_settled (Some service) documents (clockOf u)
                     (direct u) w1) by reflexivity.
  assert (Hqw : queryOf (direct u) w1 = queryOfUse u) by apply queryOf_use.
  assert (Hidle1 : stopEffects w1 = []) by exact Hidle.
  rewrite Huse.
  destruct (truthy (trim (queryOfUse u))) eqn:Hq.
  - assert (Hq' : truthy (trim (queryOf (direct u) w1)) = true)
      by (rewrite Hqw; exact Hq).
    destruct (turn_inflight service documents (clockOf u) (direct u) w1 Hq')
      as (_ & T2 & _).
    destruct (turn_settled service documents (clockOf u) (direct u) w1 Hq')
      as (S1 & _ & _).
    rewrite fetchSourceAttribution_available in T2.
    rewrite S1, T2, Hidle1, Hqw. simpl.
    destruct (truthy (trim (answerOf _))); reflexivity.
  - unfold handleSendMessage_settled, submit. rewrite Hqw, Hq. simpl.
    rewrite Hidle1. reflexivity.
Qed.

Lemma turnRequests_length (service : GoogleGenAI) (documents : list Document.t)
    (u : Use) :
  (List.length (turnRequests service documents u)
   <= if startsTurn u then 2 else 0)%nat.
Proof.
  unfold turnRequests. destruct (startsTurn u); [|simpl; lia].
  cbv zeta. destruct (truthy (trim (answerOf _))); simpl; lia.
Qed.

Lemma attribution_follows_stream (service : GoogleGenAI)
    (documents : list Document.t) (uses : list Use)
    (before after : list Effect) (prompt : jsstring) :
  flat_map (turnRequests service documents) uses
  = before ++ JsonRequest prompt :: after ->
  exists before' streamed, before = before' ++ [StreamRequest streamed].
Proof.
  revert before. induction uses as [|u uses IH]; simpl; intros before Heq.
  - destruct before; discriminate Heq.
  - unfold turnRequests in Heq at 1.
    destruct (startsTurn u); [|exact (IH before Heq)].
    cbv zeta in Heq.
    destruct before as [|b1 before]; [destruct (truthy _); discriminate Heq|].
    destruct (truthy (trim (answerOf _))).
    + injection Heq as Hb1 Heq. subst b1.
      destruct before as [|b2 before].
      * exists [], (groundingPrompt documents (queryOfUse u)). reflexivity.
      * injection Heq as Hb2 Heq. subst b2.
        destruct (IH before Heq) as (before' & streamed & ->).
        eexists (_ :: _ :: before'), streamed. reflexivity.
    + injection Heq as Hb1 Heq. subst b1.
      destruct (IH before Heq) as (before' & streamed & ->).
      eexists (_ :: before'), streamed. reflexivity.
Qed.

(** X15.  What a session costs: with the service available, a session
    from the mounted component issues, use by use, nothing for a blank
    query and else the stream request for the grounding prompt followed
    by at most one attribution request (present exactly when the
    streamed text is not blank).  So there are at most two requests for
    each non-blank use, there is never an alert or a call to stop the
    recognition, and every attribution request comes right after a
    stream request. *)
Theorem X15_session_requests (service : GoogleGenAI)
    (documents : list Document.t) (uses : list Use) :
  let issued := effects (session (Some service) documents uses initialWorld) in
  issued = flat_map (turnRequests service documents) uses
  /\ (List.length issued <= 2 * List.length (filter startsTurn uses))%nat
  /\ Forall (fun e => match e with
                      | StreamRequest _ | JsonRequest _ => True
                      | _ => False
                      end) issued
  /\ (forall before prompt after,
        issued = before ++ JsonRequest prompt :: after ->
        exists before' streamed, before = before' ++ [StreamRequest streamed]).
Proof.
  cbv zeta.
  assert (Hgen : forall w0, stopEffects w0 = [] ->
             effects (session (Some service) documents uses w0)
             = effects w0 ++ flat_map (turnRequests service documents) uses).
  { unfold session. induction uses as [|u uses IH]; intros w0 Hidle; simpl.
    - rewrite app_nil_r. reflexivity.
    - rewrite IH by (rewrite useChat_stopEffects; exact Hidle).
      rewrite (useChat_requests service documents w0 u Hidle), <- app_assoc.
      reflexivity. }
  rewrite (Hgen initialWorld eq_refl). simpl.
  split; [reflexivity|]. split; [|split].
  - clear Hgen. induction uses as [|u uses IH]; [simpl; lia|].
    cbn [flat_map filter]. rewrite length_app.
    pose proof (turnRequests_length service documents u) as Hu.
    destruct (startsTurn u); cbn [List.length]; lia.
  - clear Hgen. induction uses as [|u uses IH]; simpl; [constructor|].
    apply Forall_app. split; [|exact IH].
    unfold turnRequests. destruct (startsTurn u); [|constructor].
    cbv zeta. destruct (truthy (trim (answerOf _))); repeat constructor.
  - intros before prompt after Heq.
    exact (attribution_follows_stream service documents uses before after prompt Heq).
Qed.

(* ===================================================================== *)
(** * The further properties at concrete inputs *)
(* ===================================================================== *)

Ltac no_comma :=
  let H := fresh in
  intros H; simpl in H; repeat (destruct H as [H | H]; [discriminate H|]); exact H.

(** The fenced array: the second capture is the array, already trimmed. *)
Lemma X1_matchFence_sound_witness :
  exists g,
    Fence.matchFence fencedAB = Some g
    /\ Fence.group1 g = Some (js "json")
    /\ trim (Fence.group2 g) = Fence.group2 g.
Proof.
  eexists. split; [vm_compute; reflexivity|]. split; [reflexivity|].
  destruct (X1_matchFence_sound fencedAB _ eq_refl)
    as (tag & ws1 & ws2 & _ & _ & _ & _ & _ & _ & H).
  exact H.
Defined.

(** A fenced [[1]] with whitespace around it, against the bare [[1]]. *)
Lemma X3_fence_transparent_witness :
  generateJson
    (Some (scriptedService [] (js " " ++ fenced (js "json") NL (js "[1]") NL ++ NL))) []
  = generateJson (Some (scriptedService [] (js "[1]"))) [].
Proof.
  apply (X3_fence_transparent _ _ [] (js " ") (js "json") NL (js "[1]") NL NL);
    try reflexivity.
  discriminate.
Defined.

(** A user entry stays where it is through a turn whose stream breaks. *)
Lemma X4_final_entries_are_kept_witness :
  nth_error
    (chatHistory
       (session (Some brokenService) [policyDocument]
          [mkUse policyQuestion None sampleClock]
          greetedWorld)) 0
  = Some (userMessage sampleClock (js "Hello")).
Proof.
  apply X4_final_entries_are_kept; reflexivity.
Defined.

(** Dictation after a typed word: the earlier and the interim result
    are left out, the final one is appended after a space. *)
Lemma X6_onresult_witness :
  currentQuestion (onresult 1 sampleResults (setCurrentQuestion (js "What") initialWorld))
  = js "What hello world".
Proof.
  destruct (X6_onresult None 1 sampleResults
              (setCurrentQuestion (js "What") initialWorld))
    as (_ & _ & H & _).
  assert (H1 : finalTranscriptOf 1 sampleResults <> []) by (vm_compute; discriminate).
  assert (H2 : trim (currentQuestion (setCurrentQuestion (js "What") initialWorld)) <> [])
    by (vm_compute; discriminate).
  exact (H H1 H2).
Defined.

(** Spaces and commas alone give no tag. *)
Lemma X7_parseTags_well_formed_witness :
  parseTags (js " , ,, ") = [] /\ Forall wellFormedTag (parseTags (formTags notesForm)).
Proof.
  destruct (X7_parseTags_well_formed (js " , ,, ")) as (_ & H).
  split; [exact (H eq_refl)|].
  destruct (X7_parseTags_well_formed (formTags notesForm)) as (H' & _). exact H'.
Defined.

(** The two suggested tags reach the new document. *)
Lemma X8_suggested_tags_round_trip_witness :
  exists d,
    snd (handleSubmit (js "text") 1700000001000 1700000001000
           (handleSuggestTags lexemeText (Some tagService) notesManager)
           sampleRepository)
    = d :: sampleRepository
    /\ Document.tags (document d) = [js "alpha"; js "beta"].
Proof.
  assert (Hne : js "Full notes of the meeting" <> []) by discriminate.
  assert (Htags : Forall wellFormedTag [js "alpha"; js "beta"]).
  { repeat constructor; no_comma. }
  destruct (X8_suggested_tags_round_trip lexemeText tagService notesManager
              sampleRepository (js "Full notes of the meeting") (js "text")
              1700000001000 1700000001000 [js "alpha"; js "beta"]
              eq_refl Hne eq_refl Htags) as (d & H1 & H2 & _).
  exists d. split; [exact H1 | exact H2].
Defined.

(** Without the service the form is kept and the guard notice shown. *)
Lemma X9_failed_suggestion_keeps_form_witness :
  formState (handleSuggestTags lexemeText None notesManager) = notesForm
  /\ notices (handleSuggestTags lexemeText None notesManager)
     = [NoticeText tagsGuardNotice].
Proof.
  destruct (X9_failed_suggestion_keeps_form lexemeText None notesManager) as (H & _).
  destruct (H (or_intror eq_refl)) as (H1 & _ & H3 & _).
  split; [exact H1 | exact H3].
Defined.

(** An update for an id that is not in the repository. *)
Lemma X10_updateDocument_keeps_ids_witness :
  updateDocument (mkStored (Document.mk (js "9") (js "lost.txt") (js "TEXT") []
                              (js "nowhere") None None false) 1 [])
    sampleRepository
  = sampleRepository.
Proof.
  destruct (X10_updateDocument_keeps_ids
              (mkStored (Document.mk (js "9") (js "lost.txt") (js "TEXT") []
                           (js "nowhere") None None false) 1 [])
              sampleRepository) as (_ & _ & _ & H).
  apply H. simpl. intros [E | [E | []]]; discriminate E.
Defined.

Lemma sampleRepository_ids : NoDup (map storedId sampleRepository).
Proof.
  simpl. constructor; [simpl; intros [E | []]; discriminate E|].
  constructor; [intros []|constructor].
Defined.

(** Toggling the handbook twice. *)
Lemma X11_toggle_favorite_twice_witness :
  handleToggleFavorite (js "2") (handleToggleFavorite (js "2") sampleRepository)
  = sampleRepository.
Proof.
  destruct (X11_toggle_favorite_twice (js "2") sampleRepository sampleRepository_ids)
    as (H & _).
  exact H.
Defined.

(** The submitted notes lead the documents selected for the context. *)
Lemma X12_new_document_leads_context_witness :
  exists d,
    snd (handleSubmit (js "text") 1700000001000 1700000001000 notesManager
           sampleRepository)
    = d :: sampleRepository
    /\ Document.contentSnippet (document d) = js "Meeting notes"
    /\ selectedDocuments
         (documentsOf (snd (handleSubmit (js "text") 1700000001000 1700000001000
                              notesManager sampleRepository)))
       = document d :: firstn 4 (filter qualifies (documentsOf sampleRepository)).
Proof.
  assert (Hne : formContentSnippet (formState notesManager) <> []) by discriminate.
  destruct (X12_new_document_leads_context (js "text") 1700000001000 1700000001000
              notesManager sampleRepository Hne) as (d & H1 & H2 & H3 & _).
  exists d. split; [exact H1|]. split; [exact H2 | exact H3].
Defined.

(** The stream that breaks after two chunks: the error entry, and the
    attribution request for the partial answer. *)
Lemma X13_error_path_witness :
  isLoading (handleSendMessage_settled (Some brokenService) [policyDocument]
               sampleClock (Some policyQuestion) initialWorld) = false
  /\ effects (handleSendMessage_settled (Some brokenService) [policyDocument]
                sampleClock (Some policyQuestion) initialWorld)
     = [StreamRequest (groundingPrompt [policyDocument] policyQuestion);
        JsonRequest (attributionPrompt policyQuestion (contextSnippets [policyDocument])
                       (js "Per policy.pdf, "))].
Proof.
  destruct (X13_error_path brokenService [policyDocument] sampleClock
              (Some policyQuestion) initialWorld (Error (js "network error") None)
              eq_refl eq_refl) as (_ & H2 & H3).
  split; [exact H2 | exact H3].
Defined.

(** Toggling the handbook, a favourite, takes one bookmark away. *)
Lemma X14_totals_follow_repository_witness :
  totalBookmarks (handleToggleFavorite (js "2") sampleRepository) = 0%nat
  /\ totalDocuments (handleToggleFavorite (js "2") sampleRepository) = 2%nat.
Proof.
  destruct (X14_totals_follow_repository (js "2") sampleRepository sampleRepository_ids)
    as (_ & H2 & H3 & _).
  split; [exact (H3 _ eq_refl) | exact H2].
Defined.
